(** * jx-changelog: the changelog assembly pipeline

    A shallow embedding of [pkg/cmd/changelog/changelog.go]: the
    dependency-update collapser, the issue reference extractor, the issue
    enricher, the commit assembler and the part of [Run] that builds the
    release record and the final markdown.

    Go strings are byte sequences; they are modelled by [string], whose
    [String.compare] orders byte by byte as Go's [<] does.  Slices are lists
    (a nil slice and an empty slice are both [[]]), [map[string]bool] is a
    [gmap string bool]. *)

From Stdlib Require Import String Ascii List Bool Arith Lia.
From Stdlib Require Import Permutation Sorted OrderedTypeEx.
From stdpp Require Import gmap strings list sorting.

Local Open Scope string_scope.
Local Open Scope list_scope.

(** ** Comparisons and their lexicographic product *)

Module Cmp.

Definition lexc (c1 c2 : comparison) : comparison :=
  match c1 with
  | Eq => c2
  | _ => c1
  end.

Definition pair {A B} (cA : A -> A -> comparison) (cB : B -> B -> comparison)
    (x y : A * B) : comparison :=
  lexc (cA (fst x) (fst y)) (cB (snd x) (snd y)).

(** A comparison that decides equality, flips when its arguments are
    swapped, and whose [Lt] is transitive. *)
Class Good {A} (cmp : A -> A -> comparison) : Prop := {
  cmp_eq : forall x y, cmp x y = Eq <-> x = y;
  cmp_opp : forall x y, cmp y x = CompOpp (cmp x y);
  cmp_lt_trans : forall x y z, cmp x y = Lt -> cmp y z = Lt -> cmp x z = Lt
}.

(** [le] of a comparison: not greater. *)
Definition le {A} (cmp : A -> A -> comparison) (x y : A) : Prop :=
  cmp x y <> Gt.

End Cmp.

(** ** Dependency updates (jx-api [v1.DependencyUpdate]) *)

Record DependencyUpdateDetails := {
  Host : string;
  Owner : string;
  Repo : string;
  Component : string;
  URL : string;
  FromVersion : string;
  FromReleaseHTMLURL : string;
  FromReleaseName : string;
  ToVersion : string;
  ToReleaseHTMLURL : string;
  ToReleaseName : string
}.

(** The Go struct embeds [DependencyUpdateDetails] and carries the update
    paths next to it.  The composite literal of the collapser sets the
    embedded details only, so the paths of what it appends are nil. *)
Record DependencyUpdate := {
  Details :> DependencyUpdateDetails;
  Paths : list (list DependencyUpdateDetails)
}.

(** The comparator handed to [sort.Slice] in [CollapseDependencyUpdates],
    on the two elements the indices select. *)
Definition less (a b : DependencyUpdate) : bool :=
  if String.eqb (Owner a) (Owner b) then
    if String.eqb (Repo a) (Repo b) then
      if String.eqb (Component a) (Component b) then
        if String.eqb (FromVersion a) (FromVersion b) then
          String.ltb (ToVersion a) (ToVersion b)
        else String.ltb (FromVersion a) (FromVersion b)
      else String.ltb (Component a) (Component b)
    else String.ltb (Repo a) (Repo b)
  else String.ltb (Owner a) (Owner b).

(** The loop's test for "same group as the previous element": the negation
    of [Owner != Owner || Repo != Repo || Component != Component]. *)
Definition sameComponent (a b : DependencyUpdate) : bool :=
  String.eqb (Owner a) (Owner b) && String.eqb (Repo a) (Repo b)
  && String.eqb (Component a) (Component b).

(** The record appended for the run [start .. end]. *)
Definition collapsedEntry (start end_ : DependencyUpdate) : DependencyUpdate :=
  {| Details := {|
       Owner := Owner start;
       Repo := Repo start;
       Component := Component start;
       URL := URL start;
       Host := Host start;
       FromVersion := FromVersion start;
       FromReleaseHTMLURL := FromReleaseHTMLURL start;
       FromReleaseName := FromReleaseName start;
       ToVersion := ToVersion end_;
       ToReleaseName := ToReleaseName end_;
       ToReleaseHTMLURL := ToReleaseHTMLURL end_ |};
     Paths := [] |}.

(** The scan [for i := 1; i <= len; i++]: [start] is
    [dependencyUpdates[start]], [prev] is [dependencyUpdates[i-1]] and the
    list is [dependencyUpdates[i:]]. *)
Fixpoint collapseFrom (start prev : DependencyUpdate)
    (rest : list DependencyUpdate) : list DependencyUpdate :=
  match rest with
  | [] => [collapsedEntry start prev]
  | cur :: rest' =>
      if sameComponent prev cur then collapseFrom start cur rest'
      else collapsedEntry start prev :: collapseFrom cur cur rest'
  end.

Definition collapseEntries (sorted : list DependencyUpdate)
    : list DependencyUpdate :=
  match sorted with
  | [] => []
  | d :: rest => collapseFrom d d rest
  end.

(** [sort.Slice] is not stable: all the code can rely on is that it leaves a
    permutation of the slice in which no element is [less] than an earlier
    one.  The sort is a parameter with exactly that contract. *)
Definition notAfter (a b : DependencyUpdate) : Prop := less b a = false.

#[global] Instance notAfter_dec a b : Decision (notAfter a b).
Proof. unfold notAfter. apply _. Defined.

Record SortSliceContract (sortSlice : list DependencyUpdate -> list DependencyUpdate)
    : Prop := {
  sortSlice_perm : forall l, Permutation (sortSlice l) l;
  sortSlice_sorted : forall l, StronglySorted notAfter (sortSlice l)
}.

Definition CollapseDependencyUpdates
    (sortSlice : list DependencyUpdate -> list DependencyUpdate)
    (dependencyUpdates : list DependencyUpdate) : list DependencyUpdate :=
  collapseEntries (sortSlice dependencyUpdates).

(** A sort meeting the contract, to run the function. *)
Definition mergeSortSlice : list DependencyUpdate -> list DependencyUpdate :=
  merge_sort notAfter.

(** *** The sort key *)

Definition componentKey (d : DependencyUpdate) : string * (string * string) :=
  (Owner d, (Repo d, Component d)).

Definition sortKey (d : DependencyUpdate)
    : (string * (string * string)) * (string * string) :=
  (componentKey d, (FromVersion d, ToVersion d)).

Definition cmpComponent :=
  Cmp.pair String.compare (Cmp.pair String.compare String.compare).

Definition cmpVersions := Cmp.pair String.compare String.compare.

Definition cmpSortKey := Cmp.pair cmpComponent cmpVersions.

(** The example of the specification. *)
Definition du (o r c f t : string) : DependencyUpdate :=
  {| Details := {| Host := ""; Owner := o; Repo := r; Component := c; URL := "";
                   FromVersion := f; FromReleaseHTMLURL := ""; FromReleaseName := "";
                   ToVersion := t; ToReleaseHTMLURL := ""; ToReleaseName := "" |};
     Paths := [] |}.


(** *** Vocabulary for the properties of the collapser *)

(** The records of [l] that share owner, repo and component with [o]. *)
Definition group (l : list DependencyUpdate) (o : DependencyUpdate)
    : list DependencyUpdate :=
  List.filter (fun d => sameComponent o d) l.

(** [v] is the least from-version of [g] in string order. *)
Definition leastFromVersion (g : list DependencyUpdate) (v : string) : Prop :=
  (exists d, In d g /\ FromVersion d = v)
  /\ forall d, In d g -> String.leb v (FromVersion d) = true.

(** [v] is the greatest to-version of [g] in string order. *)
Definition greatestToVersion (g : list DependencyUpdate) (v : string) : Prop :=
  (exists d, In d g /\ ToVersion d = v)
  /\ forall d, In d g -> String.leb (ToVersion d) v = true.

(** [v] is the to-version of the record of [g] that comes last by
    from-version and then to-version: the greatest to-version among the
    records that carry the greatest from-version. *)
Definition toVersionOfLast (g : list DependencyUpdate) (v : string) : Prop :=
  exists b, In b g /\ ToVersion b = v
    /\ forall d, In d g ->
         String.ltb (FromVersion d) (FromVersion b) = true
         \/ (FromVersion d = FromVersion b
             /\ String.leb (ToVersion d) (ToVersion b) = true).

(** Two updates of one component whose later from-version has the smaller
    to-version. *)
Definition crossingUpdates : list DependencyUpdate :=
  [du "A" "R" "C" "1" "9"; du "A" "R" "C" "2" "3"].

(** ** Strings as the Go code uses them *)

Definition error := string.

Definition newline : string := String (ascii_of_nat 10) "".

(** [strings.HasPrefix(s, prefix)] *)
Definition HasPrefix (s prefix : string) : bool := String.prefix prefix s.

(** [strings.HasSuffix(s, suffix)]:
    [len(s) >= len(suffix) && s[len(s)-len(suffix):] == suffix] *)
Definition HasSuffix (s suffix : string) : bool :=
  (String.length suffix <=? String.length s)%nat
  && String.eqb
       (substring (String.length s - String.length suffix)
          (String.length suffix) s)
       suffix.

(** [strings.TrimPrefix(s, prefix)] *)
Definition TrimPrefix (s prefix : string) : string :=
  if HasPrefix s prefix
  then substring (String.length prefix)
         (String.length s - String.length prefix) s
  else s.

(** ** The issue reference patterns

    [GitHubIssueRegex] is [(\#\d+)] and [JIRAIssueRegex] is
    [[A-Z][A-Z]+-(\d+)].  Both only match ASCII bytes, so matching on bytes
    agrees with Go's matching on UTF-8 runes. *)

Inductive Regexp := GitHubIssueRegex | JIRAIssueRegex.

Definition isDigit (c : ascii) : bool :=
  (48 <=? nat_of_ascii c)%nat && (nat_of_ascii c <=? 57)%nat.

Definition isUpper (c : ascii) : bool :=
  (65 <=? nat_of_ascii c)%nat && (nat_of_ascii c <=? 90)%nat.

(** The longest prefix whose bytes satisfy [p], and what follows it. *)
Fixpoint spanWhile (p : ascii -> bool) (s : string) : string * string :=
  match s with
  | EmptyString => (EmptyString, EmptyString)
  | String c s' =>
      if p c then let (m, r) := spanWhile p s' in (String c m, r)
      else (EmptyString, s)
  end.

(** The match that starts at the first byte of [s], if there is one: the
    submatches (whole match, then group 1) and the input after the match.
    The quantifiers are greedy and what follows them cannot match inside the
    run they consume, so the match at a position is unique. *)
Definition matchAt (re : Regexp) (s : string) : option (list string * string) :=
  match re with
  | GitHubIssueRegex =>
      match s with
      | String c s1 =>
          if Ascii.eqb c "#" then
            let (ds, r) := spanWhile isDigit s1 in
            if String.eqb ds "" then None
            else Some ([String c ds; String c ds], r)
          else None
      | EmptyString => None
      end
  | JIRAIssueRegex =>
      let (us, r1) := spanWhile isUpper s in
      if (2 <=? String.length us)%nat then
        match r1 with
        | String c r2 =>
            if Ascii.eqb c "-" then
              let (ds, r3) := spanWhile isDigit r2 in
              if String.eqb ds "" then None
              else Some ([us +:+ String c ds; ds], r3)
            else None
        | EmptyString => None
        end
      else None
  end.

(** Successive non-overlapping matches, leftmost first.  Every match
    consumes at least one byte, so [S (length s)] steps are enough. *)
Fixpoint findAll (fuel : nat) (re : Regexp) (s : string) : list (list string) :=
  match fuel with
  | O => []
  | S fuel' =>
      match matchAt re s with
      | Some (m, r) => m :: findAll fuel' re r
      | None =>
          match s with
          | EmptyString => []
          | String _ s' => findAll fuel' re s'
          end
      end
  end.

(** [regex.FindAllStringSubmatch(s, -1)] *)
Definition FindAllStringSubmatch (re : Regexp) (s : string) : list (list string) :=
  findAll (S (String.length s)) re s.

(** A byte that neither pattern can match. *)
Definition separates (n : ascii) : Prop :=
  isDigit n = false /\ isUpper n = false
  /\ Ascii.eqb n "#" = false /\ Ascii.eqb n "-" = false.

(** ** Commits, issues and the release record *)

(** go-git [object.Signature] and [object.Commit]; a hash is kept in the
    form [Hash.String()] gives. *)
Module Signature.
Record t := mk { Name : string; Email : string; When : Z }.
End Signature.

Module Commit.
Record t := mk {
  Hash : string;
  Author : Signature.t;
  Committer : Signature.t;
  Message : string;
  ParentHashes : list string
}.
End Commit.

(** go-scm [scm.User] and [scm.Issue], with the fields the command reads.
    [ClosedBy] is a pointer and [Assignees] a slice tested against nil. *)
Module ScmUser.
Record t := mk { Login : string; Name : string; Email : string }.
End ScmUser.

Module Issue.
Record t := mk {
  Title : string;
  Body : string;
  Link : string;
  Labels : list string;
  Author : ScmUser.t;
  ClosedBy : option ScmUser.t;
  Assignees : option (list ScmUser.t);
  PullRequest : bool;
  State : string;
  Created : Z
}.
End Issue.

Module UserDetails.
Record t := mk { Login : string; Name : string; Email : string; URL : string }.
End UserDetails.

Module IssueLabel.
Record t := mk { Name : string }.
End IssueLabel.

Module IssueSummary.
Record t := mk {
  ID : string;
  URL : string;
  Title : string;
  Body : string;
  State : string;
  User : option UserDetails.t;
  Assignees : list UserDetails.t;
  ClosedBy : option UserDetails.t;
  CreationTimestamp : Z;
  Labels : list IssueLabel.t
}.
End IssueSummary.

Module CommitSummary.
Record t := mk {
  Message : string;
  SHA : string;
  URL : string;
  Branch : string;
  Author : option UserDetails.t;
  Committer : option UserDetails.t;
  IssueIDs : list string
}.

Definition addIssueID (c : t) (id : string) : t :=
  mk (Message c) (SHA c) (URL c) (Branch c) (Author c) (Committer c)
     (IssueIDs c ++ [id]).
End CommitSummary.

Module ReleaseSpec.
Record t := mk {
  Name : string;
  Version : string;
  GitOwner : string;
  GitRepository : string;
  GitHTTPURL : string;
  GitCloneURL : string;
  Commits : list CommitSummary.t;
  Issues : list IssueSummary.t;
  PullRequests : list IssueSummary.t;
  DependencyUpdates : list DependencyUpdate;
  ReleaseNotesURL : string
}.

Definition addCommit (s : t) (c : CommitSummary.t) : t :=
  mk (Name s) (Version s) (GitOwner s) (GitRepository s) (GitHTTPURL s)
     (GitCloneURL s) (Commits s ++ [c]) (Issues s) (PullRequests s)
     (DependencyUpdates s) (ReleaseNotesURL s).

Definition addIssue (s : t) (i : IssueSummary.t) : t :=
  mk (Name s) (Version s) (GitOwner s) (GitRepository s) (GitHTTPURL s)
     (GitCloneURL s) (Commits s) (Issues s ++ [i]) (PullRequests s)
     (DependencyUpdates s) (ReleaseNotesURL s).

Definition addPullRequest (s : t) (i : IssueSummary.t) : t :=
  mk (Name s) (Version s) (GitOwner s) (GitRepository s) (GitHTTPURL s)
     (GitCloneURL s) (Commits s) (Issues s) (PullRequests s ++ [i])
     (DependencyUpdates s) (ReleaseNotesURL s).

Definition setDependencyUpdates (s : t) (d : list DependencyUpdate) : t :=
  mk (Name s) (Version s) (GitOwner s) (GitRepository s) (GitHTTPURL s)
     (GitCloneURL s) (Commits s) (Issues s) (PullRequests s) d
     (ReleaseNotesURL s).
End ReleaseSpec.

(** [giturl.GitRepository], as far as [Run] reads it. *)
Module GitRepository.
Record t := mk {
  Organisation : string;
  Name : string;
  HttpsURL : string;
  CloneURL : string
}.
End GitRepository.

(** The flags of [Options] that the assembly reads. *)
Record Options := {
  Version : string;
  Header : string;
  HeaderFile : string;
  Footer : string;
  FooterFile : string;
  IncludeMergeCommits : bool;
  FailIfFindCommits : bool
}.

(** Modelled from the spec: the tracker kind that [issues.GetIssueProvider]
    reports (package [issues] is not among the sources); the numeric
    [#123] style or the project-key [ABC-123] style. *)
Inductive IssueKind := Git | Jira.

(** What the run hands to its sinks after rendering: the SCM release, the
    markdown file or the log, the release YAML, the CRD, the pipeline
    activity. *)
Inductive Output :=
  | ReleaseNotes (description : string)
  | MarkdownFile (path content : string)
  | LoggedChangelog (markdown : string)
  | ReleaseYaml (release : ReleaseSpec.t)
  | OtherOutput (what : string).

(** The collaborators of the pipeline.  A Go result [(v, err)] is a pair
    whose second component is [None] for a nil error; the code decides
    which component it looks at first. *)
Record Collaborators := {
  (** [issues.GetIssueProvider(tracker)] *)
  issueKind : IssueKind;
  (** [tracker.GetIssue(id)]; a nil issue is [None] *)
  GetIssue : string -> option Issue.t * option error;
  (** [users.GitUserResolver]: [Resolve], [GitUserSliceAsUserDetailsSlice]
      and [GitSignatureAsUser] *)
  Resolve : ScmUser.t -> option UserDetails.t * option error;
  GitUserSliceAsUserDetailsSlice :
    list ScmUser.t -> list UserDetails.t * option error;
  GitSignatureAsUser : Signature.t -> option UserDetails.t * option error;
  (** [gits.GenerateMarkdown(&release.Spec, gitInfo)] *)
  GenerateMarkdown : ReleaseSpec.t -> GitRepository.t -> string * option error;
  (** [ioutil.ReadFile] *)
  ReadFile : string -> string * option error;
  (** [template.New(name).Parse(text)]: a parse error, or the parsed
      template as what [Execute] writes for the data and the error it
      returns *)
  ParseTemplate :
    string -> string -> (ReleaseSpec.t -> string * option error) + error;
  (** what [Run] does with the release and the markdown after rendering:
      the outputs it produces and the error it returns *)
  deliver : Options -> ReleaseSpec.t -> string -> list Output * option error
}.

(** [State] of the options: the run-scoped found set and the flag of the
    log line ([Tracker] is among the collaborators, [Release] is the
    result). *)
Record State := {
  FoundIssueNames : gmap string bool;
  LoggedIssueKind : bool
}.

(** What the commit loop works on: the state, the release record under
    construction, and the calls made to [tracker.GetIssue] so far, kept so
    that they can be counted. *)
Record Assembly := {
  state : State;
  spec : ReleaseSpec.t;
  getIssueCalls : list string
}.

(** ** The issue enricher *)

Definition toV1Labels (labels : list string) : list IssueLabel.t :=
  fold_left (fun answer label => answer ++ [IssueLabel.mk label]) labels [].

(** The closure [fn] runs once, on the commit itself: a non-empty message
    is appended to itself, after a newline unless it ends with one. *)
Definition fullCommitMessageText (commit : Commit.t) : string :=
  let answer := Commit.Message commit in
  let text := Commit.Message commit in
  if negb (String.eqb text "") then
    let sep := if HasSuffix answer newline then "" else newline in
    answer +:+ (sep +:+ text)
  else answer.

(** [o.State.FoundIssueNames[result] = true] *)
Definition markFound (a : Assembly) (result : string) : Assembly :=
  {| state := {| FoundIssueNames := <[result := true]> (FoundIssueNames (state a));
                 LoggedIssueKind := LoggedIssueKind (state a) |};
     spec := spec a;
     getIssueCalls := getIssueCalls a |}.

(** The call [tracker.GetIssue(result)] is made. *)
Definition calledGetIssue (a : Assembly) (result : string) : Assembly :=
  {| state := state a;
     spec := spec a;
     getIssueCalls := getIssueCalls a ++ [result] |}.

Definition markLogged (a : Assembly) : Assembly :=
  {| state := {| FoundIssueNames := FoundIssueNames (state a);
                 LoggedIssueKind := true |};
     spec := spec a;
     getIssueCalls := getIssueCalls a |}.

Definition withSpec (a : Assembly) (s : ReleaseSpec.t) : Assembly :=
  {| state := state a; spec := s; getIssueCalls := getIssueCalls a |}.

(** The summary built for an issue the tracker returned. *)
Definition issueSummary (env : Collaborators) (result : string)
    (issue : Issue.t) : IssueSummary.t :=
  let user := fst (Resolve env (Issue.Author issue)) in
  let closedBy :=
    match Issue.ClosedBy issue with
    | None => None
    | Some c =>
        match Resolve env c with
        | (_, Some _) => None
        | (u, None) => u
        end
    end in
  let assignees :=
    match Issue.Assignees issue with
    | None => []
    | Some us => fst (GitUserSliceAsUserDetailsSlice env us)
    end in
  let labels := toV1Labels (Issue.Labels issue) in
  let state := Issue.State issue in
  {| IssueSummary.ID := result;
     IssueSummary.URL := Issue.Link issue;
     IssueSummary.Title := Issue.Title issue;
     IssueSummary.Body := Issue.Body issue;
     IssueSummary.State := if negb (String.eqb state "") then state else "";
     IssueSummary.User := user;
     IssueSummary.Assignees := assignees;
     IssueSummary.ClosedBy := closedBy;
     IssueSummary.CreationTimestamp := Issue.Created issue;
     IssueSummary.Labels := labels |}.

(** The body of the inner loop for one submatch [result]. *)
Definition addResult (env : Collaborators)
    (acc : Assembly * CommitSummary.t) (result : string)
    : Assembly * CommitSummary.t :=
  let (a, commit) := acc in
  let result := TrimPrefix result "#" in
  match FoundIssueNames (state a) !! result with
  | Some _ => (a, commit)
  | None =>
      let a := markFound a result in
      let a := calledGetIssue a result in
      match GetIssue env result with
      | (_, Some _) => (a, commit)
      | (None, None) => (a, commit)
      | (Some issue, None) =>
          let commit := CommitSummary.addIssueID commit result in
          let summary := issueSummary env result issue in
          if Issue.PullRequest issue
          then (withSpec a (ReleaseSpec.addPullRequest (spec a) summary), commit)
          else (withSpec a (ReleaseSpec.addIssue (spec a) summary), commit)
      end
  end.

Definition issueRegex (env : Collaborators) : Regexp :=
  match issueKind env with
  | Jira => JIRAIssueRegex
  | Git => GitHubIssueRegex
  end.

Definition addIssuesAndPullRequests (env : Collaborators) (a : Assembly)
    (commit : CommitSummary.t) (rawCommit : Commit.t)
    : Assembly * CommitSummary.t * option error :=
  let regex := issueRegex env in
  let a := if LoggedIssueKind (state a) then a else markLogged a in
  let message := fullCommitMessageText rawCommit in
  let matches := FindAllStringSubmatch regex message in
  (fold_left (fun acc match_ => fold_left (addResult env) match_ acc)
     matches (a, commit),
   None).

(** ** The commit assembler *)

Definition signatureUser (env : Collaborators) (s : Signature.t)
    : option UserDetails.t :=
  if negb (String.eqb (Signature.Email s) "")
     && negb (String.eqb (Signature.Name s) "")
  then fst (GitSignatureAsUser env s)
  else None.

Definition addCommit (env : Collaborators) (a : Assembly) (commit : Commit.t)
    : Assembly :=
  let url := "" in
  let branch := "master" in
  let sha := Commit.Hash commit in
  let author := signatureUser env (Commit.Author commit) in
  let committer := signatureUser env (Commit.Committer commit) in
  let commitSummary :=
    {| CommitSummary.Message := Commit.Message commit;
       CommitSummary.URL := url;
       CommitSummary.SHA := sha;
       CommitSummary.Author := author;
       CommitSummary.Branch := branch;
       CommitSummary.Committer := committer;
       CommitSummary.IssueIDs := [] |} in
  let '(a, commitSummary, _) :=
    addIssuesAndPullRequests env a commitSummary commit in
  withSpec a (ReleaseSpec.addCommit (spec a) commitSummary).

(** ** The markdown renderer *)

Definition getTemplateResult (env : Collaborators) (releaseSpec : ReleaseSpec.t)
    (templateName templateText templateFile : string) : string * option error :=
  let render (templateText : string) :=
    if String.eqb templateText "" then ("", None)
    else
      match ParseTemplate env templateName templateText with
      | inr err => ("", Some err)
      | inl execute => execute releaseSpec
      end in
  if String.eqb templateText "" then
    if String.eqb templateFile "" then ("", None)
    else
      match ReadFile env templateFile with
      | (_, Some err) => ("", Some err)
      | (data, None) => render data
      end
  else render templateText.

(** ** [Run], from the fetched commits on

    The steps before (validation, the two revisions, the templates
    directory, the git URL, the tracker) have succeeded; [fetched] is what
    [chgit.FetchCommits] returned and [st] the state of the options. *)

Definition SpecName : string := "{{ .Chart.Name }}".
Definition SpecVersion : string := "{{ .Chart.Version }}".

(** The release commit is removed from the log. *)
Definition withoutReleaseCommit (commits : option (list Commit.t))
    : option (list Commit.t) :=
  match commits with
  | None => None
  | Some commits1 =>
      match commits1 with
      | first :: tmp =>
          if HasPrefix (Commit.Message first) "release " then Some tmp
          else Some commits1
      | [] => Some commits1
      end
  end.

Definition isIncluded (o : Options) (commit : Commit.t) : bool :=
  IncludeMergeCommits o || (length (Commit.ParentHashes commit) <=? 1)%nat.

Definition addCommits (env : Collaborators) (o : Options)
    (commits : option (list Commit.t)) (a : Assembly) : Assembly :=
  match commits with
  | None => a
  | Some commits =>
      fold_left
        (fun a commit => if isIncluded o commit then addCommit env a commit else a)
        commits a
  end.

Definition newRelease (o : Options) (gitInfo : GitRepository.t) : ReleaseSpec.t :=
  let version := if String.eqb (Version o) "" then SpecVersion else Version o in
  {| ReleaseSpec.Name := SpecName;
     ReleaseSpec.Version := version;
     ReleaseSpec.GitOwner := GitRepository.Organisation gitInfo;
     ReleaseSpec.GitRepository := GitRepository.Name gitInfo;
     ReleaseSpec.GitHTTPURL := GitRepository.HttpsURL gitInfo;
     ReleaseSpec.GitCloneURL := GitRepository.CloneURL gitInfo;
     ReleaseSpec.Commits := [];
     ReleaseSpec.Issues := [];
     ReleaseSpec.PullRequests := [];
     ReleaseSpec.DependencyUpdates := [];
     ReleaseSpec.ReleaseNotesURL := "" |}.

(** The release record after the commit loop and the collapse of its
    dependency updates. *)
Definition buildRelease (env : Collaborators)
    (sortSlice : list DependencyUpdate -> list DependencyUpdate)
    (o : Options) (st : State) (gitInfo : GitRepository.t)
    (commits : option (list Commit.t)) : Assembly :=
  let a :=
    {| state := {| FoundIssueNames := ∅; LoggedIssueKind := LoggedIssueKind st |};
       spec := newRelease o gitInfo;
       getIssueCalls := [] |} in
  let a := addCommits env o (withoutReleaseCommit commits) a in
  withSpec a
    (ReleaseSpec.setDependencyUpdates (spec a)
       (CollapseDependencyUpdates sortSlice (ReleaseSpec.DependencyUpdates (spec a)))).

(** The markdown with header and footer, or the error that ends the run. *)
Definition renderMarkdown (env : Collaborators) (o : Options)
    (gitInfo : GitRepository.t) (a : Assembly) : string + error :=
  match GenerateMarkdown env (spec a) gitInfo with
  | (_, Some err) => inr err
  | (markdown, None) =>
      match getTemplateResult env (spec a) "header" (Header o) (HeaderFile o) with
      | (_, Some err) => inr err
      | (header, None) =>
          match getTemplateResult env (spec a) "footer" (Footer o) (FooterFile o) with
          | (_, Some err) => inr err
          | (footer, None) => inl (header +:+ (markdown +:+ footer))
          end
      end
  end.

Record RunResult := {
  returned : option error;
  outputs : list Output;
  assembled : option Assembly;
  rendered : option string
}.

Definition Run (env : Collaborators)
    (sortSlice : list DependencyUpdate -> list DependencyUpdate)
    (o : Options) (st : State) (gitInfo : GitRepository.t)
    (fetched : option (list Commit.t) * option error) : RunResult :=
  let (commits, fetchErr) := fetched in
  match fetchErr, FailIfFindCommits o with
  | Some err, true =>
      {| returned := Some err; outputs := []; assembled := None; rendered := None |}
  | _, _ =>
      let a := buildRelease env sortSlice o st gitInfo commits in
      match renderMarkdown env o gitInfo a with
      | inr err =>
          {| returned := Some err; outputs := []; assembled := Some a;
             rendered := None |}
      | inl markdown =>
          let (outs, err) := deliver env o (spec a) markdown in
          {| returned := err; outputs := outs; assembled := Some a;
             rendered := Some markdown |}
      end
  end.

(** ** Vocabulary for the properties of the pipeline *)

(** The identifiers the inner loop sees for a commit, in order: every
    submatch of every match in the full message text, without a leading
    [#]. *)
Definition references (env : Collaborators) (commit : Commit.t) : list string :=
  map (fun result => TrimPrefix result "#")
    (concat (FindAllStringSubmatch (issueRegex env) (fullCommitMessageText commit))).

(** The same for the commit's own message. *)
Definition messageReferences (env : Collaborators) (commit : Commit.t)
    : list string :=
  map (fun result => TrimPrefix result "#")
    (concat (FindAllStringSubmatch (issueRegex env) (Commit.Message commit))).

(** The tracker returned an issue and no error. *)
Definition lookupOk (env : Collaborators) (id : string) : bool :=
  match GetIssue env id with
  | (Some _, None) => true
  | _ => false
  end.

Definition isPullRequest (env : Collaborators) (id : string) : bool :=
  match GetIssue env id with
  | (Some issue, None) => Issue.PullRequest issue
  | _ => false
  end.

(** The identifiers of [refs] that are not in [seen], each once, in the
    order of their first occurrence. *)
Fixpoint newRefs (seen : gmap string bool) (refs : list string) : list string :=
  match refs with
  | [] => []
  | r :: refs' =>
      match seen !! r with
      | Some _ => newRefs seen refs'
      | None => r :: newRefs (<[r := true]> seen) refs'
      end
  end.

Definition markAll (ids : list string) (seen : gmap string bool)
    : gmap string bool :=
  fold_left (fun m id => <[id := true]> m) ids seen.

(** What a looked-up identifier adds to the release record. *)
Definition routeIssue (env : Collaborators) (s : ReleaseSpec.t) (id : string)
    : ReleaseSpec.t :=
  match GetIssue env id with
  | (Some issue, None) =>
      if Issue.PullRequest issue
      then ReleaseSpec.addPullRequest s (issueSummary env id issue)
      else ReleaseSpec.addIssue s (issueSummary env id issue)
  | _ => s
  end.

(** The assembly after the identifiers [fresh] have been looked up. *)
Definition afterRefs (env : Collaborators) (a : Assembly) (fresh : list string)
    : Assembly :=
  {| state := {| FoundIssueNames := markAll fresh (FoundIssueNames (state a));
                 LoggedIssueKind := LoggedIssueKind (state a) |};
     spec := fold_left (routeIssue env) fresh (spec a);
     getIssueCalls := getIssueCalls a ++ fresh |}.

(** The summary [addCommit] appends for a commit whose issue references
    came out as [ids]. *)
Definition summaryOf (env : Collaborators) (commit : Commit.t)
    (ids : list string) : CommitSummary.t :=
  {| CommitSummary.Message := Commit.Message commit;
     CommitSummary.URL := "";
     CommitSummary.SHA := Commit.Hash commit;
     CommitSummary.Author := signatureUser env (Commit.Author commit);
     CommitSummary.Branch := "master";
     CommitSummary.Committer := signatureUser env (Commit.Committer commit);
     CommitSummary.IssueIDs := ids |}.

(** The identifiers a commit list leaves in the found set. *)
Definition seenAfter (env : Collaborators) (seen : gmap string bool)
    (commits : list Commit.t) : gmap string bool :=
  markAll (newRefs seen (flat_map (references env) commits)) seen.

(** The summaries of a list of included commits, the first of which is
    assembled with the found set [seen]. *)
Fixpoint summaries (env : Collaborators) (seen : gmap string bool)
    (commits : list Commit.t) : list CommitSummary.t :=
  match commits with
  | [] => []
  | c :: commits' =>
      let fresh := newRefs seen (references env c) in
      summaryOf env c (List.filter (lookupOk env) fresh)
      :: summaries env (markAll fresh seen) commits'
  end.

(** The summaries that a list of looked-up identifiers adds to the issues
    and to the pull requests of the release record. *)
Definition issuesOf (env : Collaborators) (ids : list string)
    : list IssueSummary.t :=
  flat_map
    (fun id =>
       match GetIssue env id with
       | (Some issue, None) =>
           if Issue.PullRequest issue then [] else [issueSummary env id issue]
       | _ => []
       end) ids.

Definition pullRequestsOf (env : Collaborators) (ids : list string)
    : list IssueSummary.t :=
  flat_map
    (fun id =>
       match GetIssue env id with
       | (Some issue, None) =>
           if Issue.PullRequest issue then [issueSummary env id issue] else []
       | _ => []
       end) ids.

(** The fields of the release record that the commit loop leaves alone. *)
Definition metadata (s : ReleaseSpec.t) :=
  (ReleaseSpec.Name s, ReleaseSpec.Version s, ReleaseSpec.GitOwner s,
   ReleaseSpec.GitRepository s, ReleaseSpec.GitHTTPURL s,
   ReleaseSpec.GitCloneURL s, ReleaseSpec.DependencyUpdates s,
   ReleaseSpec.ReleaseNotesURL s).

(** The commits the loop of [Run] ranges over, and the ones it passes to
    [addCommit]. *)
Definition keptCommits (commits : option (list Commit.t)) : list Commit.t :=
  match withoutReleaseCommit commits with
  | None => []
  | Some l => l
  end.

Definition includedCommits (o : Options) (commits : option (list Commit.t))
    : list Commit.t :=
  List.filter (isIncluded o) (keptCommits commits).

Definition allIssues (release : ReleaseSpec.t) : list IssueSummary.t :=
  ReleaseSpec.Issues release ++ ReleaseSpec.PullRequests release.

(** C1 as the specification words it: whenever the release record holds an
    issue summary for an identifier, every commit summary whose commit
    referenced the identifier lists it. *)
Definition everyReferenceAttached (env : Collaborators)
    (included : list Commit.t) (release : ReleaseSpec.t) : Prop :=
  forall (i : nat) c cs id,
    included !! i = Some c -> ReleaseSpec.Commits release !! i = Some cs ->
    In id (messageReferences env c) ->
    In id (map IssueSummary.ID (allIssues release)) ->
    In id (CommitSummary.IssueIDs cs).

(** C3 as the specification words it, for the fetched list. *)
Definition countedCommits (o : Options) (commits : list Commit.t) : nat :=
  length (List.filter (fun c => (length (Commit.ParentHashes c) <=? 1)%nat) commits)
  + (if IncludeMergeCommits o
     then length (List.filter
                    (fun c => negb (length (Commit.ParentHashes c) <=? 1)%nat)
                    commits)
     else 0).

(** ** A small instance of the collaborators, to run the pipeline *)

Module Demo.

Definition user (n : string) : ScmUser.t := ScmUser.mk n n (n +:+ "@example.com").

Definition issue (title : string) (pr : bool) : Issue.t :=
  {| Issue.Title := title; Issue.Body := ""; Issue.Link := "";
     Issue.Labels := ["bug"]; Issue.Author := user "ann";
     Issue.ClosedBy := None; Issue.Assignees := None;
     Issue.PullRequest := pr; Issue.State := "closed"; Issue.Created := 0%Z |}.

(** Issue 42 and pull request 7 exist, the lookup of 13 fails, nothing
    else is found. *)
Definition getIssue (id : string) : option Issue.t * option error :=
  if String.eqb id "42" then (Some (issue "the answer" false), None)
  else if String.eqb id "7" then (Some (issue "a change" true), None)
  else if String.eqb id "13" then (None, Some "connection refused")
  else (None, None).

Definition details (n e : string) : UserDetails.t := UserDetails.mk n n e "".

(** A template engine that knows one action, [{{.Version}}], and rejects
    any other opening brace pair. *)
Fixpoint expand (skip : nat) (text : string) (version : string) : option string :=
  match text with
  | EmptyString => Some EmptyString
  | String c rest =>
      match skip with
      | S skip' => expand skip' rest version
      | O =>
          if String.prefix "{{.Version}}" text
          then option_map (String.append version) (expand 11 rest version)
          else if String.prefix "{{" text then None
          else option_map (String c) (expand 0 rest version)
      end
  end.

Definition parseTemplate (name text : string)
    : (ReleaseSpec.t -> string * option error) + error :=
  match expand 0 text "" with
  | None => inr ("template: " +:+ name +:+ ": unexpected action")
  | Some _ =>
      inl (fun s =>
             match expand 0 text (ReleaseSpec.Version s) with
             | Some out => (out, None)
             | None => ("", Some "execution failed")
             end)
  end.

Definition env : Collaborators :=
  {| issueKind := Git;
     GetIssue := getIssue;
     Resolve := fun u => (Some (details (ScmUser.Name u) (ScmUser.Email u)), None);
     GitUserSliceAsUserDetailsSlice :=
       fun us => (map (fun u => details (ScmUser.Name u) (ScmUser.Email u)) us, None);
     GitSignatureAsUser :=
       fun s => (Some (details (Signature.Name s) (Signature.Email s)), None);
     GenerateMarkdown := fun _ _ => ("B" +:+ newline, None);
     ReadFile := fun _ => ("", Some "no such file");
     ParseTemplate := parseTemplate;
     deliver := fun _ _ markdown => ([LoggedChangelog markdown], None) |}.

Definition options : Options :=
  {| Version := "2.0.1"; Header := ""; HeaderFile := ""; Footer := "";
     FooterFile := ""; IncludeMergeCommits := false; FailIfFindCommits := false |}.

Definition state : State := {| FoundIssueNames := ∅; LoggedIssueKind := false |}.

Definition gitInfo : GitRepository.t :=
  GitRepository.mk "jstrachan" "kubeconawesome"
    "https://github.com/jstrachan/kubeconawesome"
    "https://github.com/jstrachan/kubeconawesome.git".

Definition commit (hash message : string) (parents : list string) : Commit.t :=
  {| Commit.Hash := hash;
     Commit.Author := Signature.mk "ann" "ann@example.com" 0;
     Commit.Committer := Signature.mk "bob" "bob@example.com" 0;
     Commit.Message := message;
     Commit.ParentHashes := parents |}.

(** Two commits whose messages both contain [fixes #42]. *)
Definition twoFixes : list Commit.t :=
  [commit "c1" "fixes #42" ["c0"]; commit "c2" "also fixes #42" ["c1"]].

(** A fetched list that starts with the release commit. *)
Definition releaseFirst : list Commit.t :=
  [commit "r1" "release 2.0.0" ["c2"]].

Definition release (commits : list Commit.t) : ReleaseSpec.t :=
  spec (buildRelease env mergeSortSlice options state gitInfo (Some commits)).

End Demo.

(** ** Vocabulary for the properties of the renderer *)

(** Parsing the template text fails with [e], or executing the parsed
    template on [s] does. *)
Definition templateFails (env : Collaborators) (s : ReleaseSpec.t)
    (name text : string) (e : error) : Prop :=
  ParseTemplate env name text = inr e
  \/ exists execute out,
       ParseTemplate env name text = inl execute /\ execute s = (out, Some e).

(** The run gets past the fetch of the commits. *)
Definition fetchAccepted (o : Options) (fetchErr : option error) : Prop :=
  fetchErr = None \/ FailIfFindCommits o = false.

Module DemoTemplates.

Definition versionHeader : string := "H:{{.Version}}" +:+ newline.

Definition withHeader (header : string) : Options :=
  {| Version := "2.0.1"; Header := header; HeaderFile := ""; Footer := "";
     FooterFile := ""; IncludeMergeCommits := false; FailIfFindCommits := false |}.

Definition assembly : Assembly :=
  buildRelease Demo.env mergeSortSlice (withHeader versionHeader) Demo.state
    Demo.gitInfo (Some Demo.twoFixes).

End DemoTemplates.

(** ** More vocabulary for the collapser *)

(** [a] comes before [b] by owner, then repo, then component, in string
    order. *)
Definition componentBefore (a b : DependencyUpdate) : Prop :=
  cmpComponent (componentKey a) (componentKey b) = Lt.

Definition componentKey_dec (x y : string * (string * string)) : {x = y} + {x <> y}.
Proof. repeat decide equality. Defined.

(** The number of different (owner, repo, component) in a list. *)
Definition componentCount (l : list DependencyUpdate) : nat :=
  length (nodup componentKey_dec (map componentKey l)).

(** Within the group, a greater from-version never comes with a smaller
    to-version, as in a chain of successive updates. *)
Definition versionsRise (g : list DependencyUpdate) : Prop :=
  forall d d', In d g -> In d' g ->
    String.ltb (FromVersion d) (FromVersion d') = true ->
    String.leb (ToVersion d) (ToVersion d') = true.

(** A chain of three updates of one component, out of order, next to
    another component. *)
Definition chainUpdates : list DependencyUpdate :=
  [du "A" "R" "C" "2" "3"; du "A" "R" "D" "7" "8"; du "A" "R" "C" "1" "2";
   du "A" "R" "C" "3" "4"].

(** ** More vocabulary for the reference patterns *)

(** Every byte of [s] satisfies [p]. *)
Fixpoint allBytes (p : ascii -> bool) (s : string) : bool :=
  match s with
  | EmptyString => true
  | String c s' => p c && allBytes p s'
  end.

(** The byte [c] occurs in [s]. *)
Fixpoint hasByte (c : ascii) (s : string) : bool :=
  match s with
  | EmptyString => false
  | String c' s' => Ascii.eqb c' c || hasByte c s'
  end.

Module DemoJira.

Definition env : Collaborators :=
  {| issueKind := Jira;
     GetIssue := GetIssue Demo.env;
     Resolve := Resolve Demo.env;
     GitUserSliceAsUserDetailsSlice := GitUserSliceAsUserDetailsSlice Demo.env;
     GitSignatureAsUser := GitSignatureAsUser Demo.env;
     GenerateMarkdown := GenerateMarkdown Demo.env;
     ReadFile := ReadFile Demo.env;
     ParseTemplate := ParseTemplate Demo.env;
     deliver := deliver Demo.env |}.

End DemoJira.

(** An instance whose markdown generator fails. *)
Module DemoBroken.

Definition env : Collaborators :=
  {| issueKind := Git;
     GetIssue := GetIssue Demo.env;
     Resolve := Resolve Demo.env;
     GitUserSliceAsUserDetailsSlice := GitUserSliceAsUserDetailsSlice Demo.env;
     GitSignatureAsUser := GitSignatureAsUser Demo.env;
     GenerateMarkdown := fun _ _ => ("", Some "no markdown");
     ReadFile := ReadFile Demo.env;
     ParseTemplate := ParseTemplate Demo.env;
     deliver := deliver Demo.env |}.

End DemoBroken.

(** ** [Run], after the markdown is rendered

    The release is published to the SCM provider or the markdown is
    written to a file, the release YAML and the CRD are written, and the
    pipeline activity is updated.  Every answer of the outside world may
    depend on all the calls made before it; logging is left out. *)

Module Publish.

(** go-scm [scm.ReleaseInput] and [scm.Release], as far as [Run] uses
    them. *)
Module ReleaseInput.
Record t := mk { Title : string; Tag : string; Description : string }.
End ReleaseInput.

Module ScmRelease.
Record t := mk { ID : Z; Link : string }.
End ScmRelease.

(** [v1.PipelineActivitySpec]: the fields the callback of [Run] writes and
    the status that is logged. *)
Module ActivitySpec.
Record t := mk {
  LastCommitSHA : string;
  LastCommitMessage : string;
  LastCommitURL : string;
  ReleaseNotesURL : string;
  Version : string;
  Status : string
}.
End ActivitySpec.

(** The flags of [Options] this part of [Run] reads, with the fields of
    [o.ScmFactory] among them; [dir] and [templatesDir] are the local
    variables of [Run]. *)
Record Flags := {
  UpdateRelease : bool;
  OutputMarkdownFile : string;
  GenerateReleaseYaml : bool;
  ReleaseYamlFile : string;
  CrdYamlFile : string;
  GenerateCRD : bool;
  OverwriteCRD : bool;
  BuildNumber : string;
  Namespace : string;
  Owner : string;
  Repository : string;
  Branch : string;
  dir : string;
  templatesDir : string
}.

(** The calls to the outside world, each named after the statement that
    makes it. *)
Inductive Call :=
  | FilterTagsCall (pattern : string)
  | FindByTagCall (fullName tag : string)
  | CreateCall (fullName : string) (input : ReleaseInput.t)
  | UpdateCall (fullName : string) (id : Z) (input : ReleaseInput.t)
  | WriteMarkdown (file content : string)
  | WriteReleaseYaml (file data : string)
  | FileExistsCall (file : string)
  | WriteCRD (file content : string)
  | GitAddCall (dir : string)
  | GetOrCreateCall (name : string)
  | ActivityUpdateCall (activity : ActivitySpec.t).

(** The outside world.  A function that takes the calls made so far may
    answer differently each time it is asked. *)
Record World := {
  (** [gits.FilterTags(o.Git(), dir, pattern)] *)
  FilterTags : list Call -> string -> string -> list string * option error;
  (** [scmClient.Releases]: [FindByTag], [Create], [Update] *)
  FindByTag : list Call -> string -> string -> option ScmRelease.t * option error;
  Create : list Call -> string -> ReleaseInput.t -> option ScmRelease.t * option error;
  Update :
    list Call -> string -> Z -> ReleaseInput.t -> option ScmRelease.t * option error;
  (** [scmhelpers.IsScmNotFound(err)] *)
  IsScmNotFound : option error -> bool;
  (** [stringhelpers.UrlJoin] *)
  UrlJoin : string -> list string -> string;
  (** [ioutil.WriteFile] *)
  WriteFile : list Call -> string -> string -> option error;
  (** [yaml.Marshal(release)]; nil data is [None] *)
  Marshal : ReleaseSpec.t -> option string * option error;
  (** [files.FileExists] *)
  FileExists : list Call -> string -> bool * option error;
  (** [gitclient.Add(o.Git(), dir)] *)
  Add : list Call -> string -> option error;
  (** [filepath.Join] *)
  PathJoin : string -> string -> string;
  (** [os.Getenv] *)
  Getenv : string -> string;
  (** [naming.ToValidName] *)
  ToValidName : string -> string;
  (** [key.GetOrCreate] and [acts.Update] on the pipeline activity *)
  GetOrCreate : list Call -> string -> option ActivitySpec.t * option error;
  ActivityUpdate :
    list Call -> ActivitySpec.t -> option ActivitySpec.t * option error;
  (** the constant [ReleaseCrdYaml] *)
  ReleaseCrdYaml : string
}.

(** How a Go function ends: it returns its error, or it dereferences a nil
    pointer. *)
Inductive Outcome := Returned (err : option error) | Panicked.

(** A computation that makes calls and may end the function early. *)
Inductive Step (A : Type) := Next (a : A) | Done (o : Outcome).
Arguments Next {A} a.
Arguments Done {A} o.

Definition M (A : Type) : Type := list Call -> Step A * list Call.

Definition ret {A} (a : A) : M A := fun h => (Next a, h).

Definition stop {A} (o : Outcome) : M A := fun h => (Done o, h).

Definition bind {A B} (m : M A) (k : A -> M B) : M B :=
  fun h =>
    match m h with
    | (Next a, h') => k a h'
    | (Done o, h') => (Done o, h')
    end.

(** Make the call [c]; the answer may depend on the calls before it. *)
Definition call {A} (answer : list Call -> A) (c : Call) : M A :=
  fun h => (Next (answer h), h ++ [c]).

(** [if err != nil { return wrap(err) }] *)
Definition check (err : option error) (wrap : error -> error) : M unit :=
  match err with
  | Some e => stop (Returned (Some (wrap e)))
  | None => ret tt
  end.

(** Run a function that is called: what it returns is a value for the
    caller; a panic goes through. *)
Definition callee (m : M unit) : M (option error) :=
  fun h =>
    match m h with
    | (Next tt, h') => (Next None, h')
    | (Done (Returned err), h') => (Next err, h')
    | (Done Panicked, h') => (Done Panicked, h')
    end.

(** The body of a function from start to end: falling off the end is
    [return nil]. *)
Definition finish (m : M unit) (h : list Call) : Outcome * list Call :=
  match m h with
  | (Next tt, h') => (Returned None, h')
  | (Done o, h') => (o, h')
  end.

Declare Scope publish_scope.
Delimit Scope publish_scope with publish.
Notation "x <- m ;; k" := (bind m (fun x => k))
  (at level 100, m at next level, right associativity) : publish_scope.
Local Open Scope publish_scope.

(** [errors.Wrapf(err, message)]: the message, a colon, the cause. *)
Definition Wrapf (err : error) (message : string) : error :=
  message +:+ ": " +:+ err.

(** [scm.Join(owner, name)] *)
Definition scmJoin (owner name : string) : string := owner +:+ "/" +:+ name.

(** [for _, t := range tags { if t == wanted { found = true; break } }] *)
Fixpoint hasTag (tags : list string) (wanted : string) : bool :=
  match tags with
  | [] => false
  | t :: tags' => if String.eqb t wanted then true else hasTag tags' wanted
  end.

Definition tagNameFor (version : string) (tags vtags : list string) : string :=
  let vVersion := "v" +:+ version in
  let foundTag := hasTag tags version in
  let foundVTag := hasTag vtags vVersion in
  if foundVTag && negb foundTag then vVersion else version.

Definition withReleaseNotesURL (s : ReleaseSpec.t) (url : string) : ReleaseSpec.t :=
  ReleaseSpec.mk (ReleaseSpec.Name s) (ReleaseSpec.Version s)
    (ReleaseSpec.GitOwner s) (ReleaseSpec.GitRepository s)
    (ReleaseSpec.GitHTTPURL s) (ReleaseSpec.GitCloneURL s)
    (ReleaseSpec.Commits s) (ReleaseSpec.Issues s) (ReleaseSpec.PullRequests s)
    (ReleaseSpec.DependencyUpdates s) url.

Definition withVersion (s : ReleaseSpec.t) (version : string) : ReleaseSpec.t :=
  ReleaseSpec.mk (ReleaseSpec.Name s) version
    (ReleaseSpec.GitOwner s) (ReleaseSpec.GitRepository s)
    (ReleaseSpec.GitHTTPURL s) (ReleaseSpec.GitCloneURL s)
    (ReleaseSpec.Commits s) (ReleaseSpec.Issues s) (ReleaseSpec.PullRequests s)
    (ReleaseSpec.DependencyUpdates s) (ReleaseSpec.ReleaseNotesURL s).

(** The link of the release, or the tag page of the repository. *)
Definition releaseURL (w : World) (gitInfo : GitRepository.t) (tagName : string)
    (rel : option ScmRelease.t) : string :=
  let url := match rel with Some r => ScmRelease.Link r | None => "" end in
  if String.eqb url ""
  then UrlJoin w (GitRepository.HttpsURL gitInfo) ["releases/tag"; tagName]
  else url.

(** Lines 410 to 493: update the release of the SCM provider, or write the
    markdown file, or only log.  The result is the release record with its
    release notes URL. *)
Definition publishChangelog (w : World) (d : Flags) (version : string)
    (gitInfo : GitRepository.t) (release : ReleaseSpec.t) (markdown : string)
    : M ReleaseSpec.t :=
  if negb (String.eqb version "") && UpdateRelease d then
    r <-
      call (fun h => FilterTags w h (dir d) version) (FilterTagsCall version) ;;
    let '(tags, err) := r in
    _ <- check err
           (fun e => Wrapf e ("listing tags with pattern " +:+ version
                              +:+ " in " +:+ dir d)) ;;
    let vVersion := "v" +:+ version in
    r <-
      call (fun h => FilterTags w h (dir d) vVersion) (FilterTagsCall vVersion) ;;
    let '(vtags, err) := r in
    _ <- check err
           (fun e => Wrapf e ("listing tags with pattern " +:+ vVersion
                              +:+ " in " +:+ dir d)) ;;
    let tagName := tagNameFor version tags vtags in
    let releaseInfo :=
      {| ReleaseInput.Title := version; ReleaseInput.Tag := tagName;
         ReleaseInput.Description := markdown |} in
    let fullName := scmJoin (Owner d) (Repository d) in
    r <-
      call (fun h => FindByTag w h fullName tagName) (FindByTagCall fullName tagName) ;;
    let '(rel, err) := r in
    let '(rel, err) := if IsScmNotFound w err then (None, None) else (rel, err) in
    _ <- check err
           (fun e => Wrapf e ("failed to query release on repo " +:+ fullName
                              +:+ " for tag " +:+ tagName)) ;;
    rel <-
      match rel with
      | None =>
          r <-
            call (fun h => Create w h fullName releaseInfo)
              (CreateCall fullName releaseInfo) ;;
          let '(rel, err) := r in
          match err with
          | Some _ => stop (Returned None)
          | None => ret rel
          end
      | Some found =>
          r <-
            call (fun h => Update w h fullName (ScmRelease.ID found) releaseInfo)
              (UpdateCall fullName (ScmRelease.ID found) releaseInfo) ;;
          let '(rel, err) := r in
          match err with
          | Some _ =>
              (* the warning reads [rel.ID] of the release just returned *)
              match rel with
              | None => stop Panicked
              | Some _ => stop (Returned None)
              end
          | None => ret rel
          end
      end ;;
    ret (withReleaseNotesURL release (releaseURL w gitInfo tagName rel))
  else if negb (String.eqb (OutputMarkdownFile d) "") then
    err <-
      call (fun h => WriteFile w h (OutputMarkdownFile d) markdown)
        (WriteMarkdown (OutputMarkdownFile d) markdown) ;;
    _ <- check err (fun e => e) ;;
    ret release
  else ret release.

(** The closure [doUpdate]: the new value replaces the old one when it is
    not empty and differs; [updated] is the flag the closure captures. *)
Definition doUpdate (updated : bool) (oldValue newValue : string)
    : string * bool :=
  if String.eqb newValue "" || String.eqb newValue oldValue
  then (oldValue, updated)
  else (newValue, true).

(** The callback handed to [updatePipelineActivity]: the activity after
    it, and the flag it returns (its error is always nil). *)
Definition activityChanges (release : ReleaseSpec.t)
    (releaseNotesURL cleanVersion : string) (ps : ActivitySpec.t)
    : ActivitySpec.t * bool :=
  let updated := false in
  let commits := ReleaseSpec.Commits release in
  let '(sha, message, url, updated) :=
    match rev commits with
    | lastCommit :: _ =>
        let (sha, updated) :=
          doUpdate updated (ActivitySpec.LastCommitSHA ps)
            (CommitSummary.SHA lastCommit) in
        let (message, updated) :=
          doUpdate updated (ActivitySpec.LastCommitMessage ps)
            (CommitSummary.Message lastCommit) in
        let (url, updated) :=
          doUpdate updated (ActivitySpec.LastCommitURL ps)
            (CommitSummary.URL lastCommit) in
        (sha, message, url, updated)
    | [] =>
        (ActivitySpec.LastCommitSHA ps, ActivitySpec.LastCommitMessage ps,
         ActivitySpec.LastCommitURL ps, updated)
    end in
  let (notes, updated) :=
    doUpdate updated (ActivitySpec.ReleaseNotesURL ps) releaseNotesURL in
  let (version, updated) :=
    doUpdate updated (ActivitySpec.Version ps) cleanVersion in
  ({| ActivitySpec.LastCommitSHA := sha;
      ActivitySpec.LastCommitMessage := message;
      ActivitySpec.LastCommitURL := url;
      ActivitySpec.ReleaseNotesURL := notes;
      ActivitySpec.Version := version;
      ActivitySpec.Status := ActivitySpec.Status ps |},
   updated).

(** The build number of the options, else [$BUILD_NUMBER], else
    [$BUILD_ID]. *)
Definition buildNumber (w : World) (d : Flags) : string :=
  if String.eqb (BuildNumber d) "" then
    if String.eqb (Getenv w "BUILD_NUMBER") "" then Getenv w "BUILD_ID"
    else Getenv w "BUILD_NUMBER"
  else BuildNumber d.

Definition updatePipelineActivity (w : World) (d : Flags)
    (fn : ActivitySpec.t -> ActivitySpec.t * bool) : M unit :=
  let pipeline := Owner d +:+ "/" +:+ Repository d +:+ "/" +:+ Branch d in
  let build := buildNumber w d in
  if negb (String.eqb pipeline "") && negb (String.eqb build "") then
    let name := ToValidName w (pipeline +:+ "-" +:+ build) in
    r <- call (fun h => GetOrCreate w h name) (GetOrCreateCall name) ;;
    let '(a, err) := r in
    _ <- check err (fun e => Wrapf e "failed to get PipelineActivity") ;;
    match a with
    | None => stop Panicked
    | Some a =>
        let (a, updated) := fn a in
        if updated then
          r <- call (fun h => ActivityUpdate w h a) (ActivityUpdateCall a) ;;
          let '(a', err) := r in
          _ <- check err
                 (fun e => Wrapf e ("failed to update PipelineActivity " +:+ name)) ;;
          match a' with
          | None => stop Panicked
          | Some _ => ret tt
          end
        else ret tt
    end
  else ret tt.

(** Lines 495 to 573: the release YAML, the CRD and the pipeline
    activity. *)
Definition writeRelease (w : World) (d : Flags) (version : string)
    (release : ReleaseSpec.t) : M unit :=
  let '(data, err) := Marshal w release in
  _ <- check err (fun e => e) ;;
  data <-
    match data with
    | None => stop (Returned (Some "Could not marshal release to yaml"))
    | Some data => ret data
    end ;;
  let releaseFile := PathJoin w (templatesDir d) (ReleaseYamlFile d) in
  let crdFile := PathJoin w (templatesDir d) (CrdYamlFile d) in
  _ <-
    (if GenerateReleaseYaml d then
       err <- call (fun h => WriteFile w h releaseFile data)
                (WriteReleaseYaml releaseFile data) ;;
       check err
         (fun e => "Failed to save Release YAML file " +:+ releaseFile
                   +:+ ": " +:+ e)
     else ret tt) ;;
  let cleanVersion := TrimPrefix version "v" in
  let release := withVersion release cleanVersion in
  _ <-
    (if GenerateCRD d then
       r <- call (fun h => FileExists w h crdFile)
                            (FileExistsCall crdFile) ;;
       let '(exists_, err) := r in
       _ <- check err
              (fun e => "Failed to check for CRD YAML file " +:+ crdFile
                        +:+ ": " +:+ e) ;;
       if OverwriteCRD d || negb exists_ then
         err <- call (fun h => WriteFile w h crdFile (ReleaseCrdYaml w))
                  (WriteCRD crdFile (ReleaseCrdYaml w)) ;;
         _ <- check err
                (fun e => "Failed to save Release CRD YAML file " +:+ crdFile
                          +:+ ": " +:+ e) ;;
         err <- call (fun h => Add w h (templatesDir d)) (GitAddCall (templatesDir d)) ;;
         check err
           (fun e => Wrapf e ("failed to git add in dir " +:+ templatesDir d))
       else ret tt
     else ret tt) ;;
  let releaseNotesURL := ReleaseSpec.ReleaseNotesURL release in
  err <- callee (updatePipelineActivity w d
                   (activityChanges release releaseNotesURL cleanVersion)) ;;
  check err (fun e => Wrapf e "failed to update PipelineActivity").

(** [Run] from line 408 to its end, for the options [o] of the assembly
    and the release record and markdown it rendered. *)
Definition afterRender (w : World) (d : Flags) (o : Options)
    (gitInfo : GitRepository.t) (release : ReleaseSpec.t) (markdown : string)
    : list Call -> Outcome * list Call :=
  let version := if String.eqb (Version o) "" then SpecVersion else Version o in
  finish (release <- publishChangelog w d version gitInfo release markdown ;;
          writeRelease w d version release).

End Publish.

(** ** Vocabulary for the properties of what follows rendering *)

(** Started after any calls [h], the computation adds calls whose costs
    sum up to [n] at most. *)
Definition spends {R} (cost : Publish.Call -> nat) (n : nat)
    (m : list Publish.Call -> R * list Publish.Call) : Prop :=
  forall h, exists calls,
    snd (m h) = h ++ calls /\ list_sum (map cost calls) <= n.

(** The calls that create or update the release of the SCM provider. *)
Definition releaseWrite (c : Publish.Call) : nat :=
  match c with
  | Publish.CreateCall _ _ | Publish.UpdateCall _ _ _ => 1
  | _ => 0
  end.

(** The calls that reach the SCM provider or list the tags. *)
Definition releaseAccess (c : Publish.Call) : nat :=
  match c with
  | Publish.FilterTagsCall _ | Publish.FindByTagCall _ _
  | Publish.CreateCall _ _ | Publish.UpdateCall _ _ _ => 1
  | _ => 0
  end.

Definition markdownWrite (c : Publish.Call) : nat :=
  match c with
  | Publish.WriteMarkdown _ _ => 1
  | _ => 0
  end.

(** Writing the CRD file and adding it to git. *)
Definition crdWrite (c : Publish.Call) : nat :=
  match c with
  | Publish.WriteCRD _ _ | Publish.GitAddCall _ => 1
  | _ => 0
  end.

Definition activityAccess (c : Publish.Call) : nat :=
  match c with
  | Publish.GetOrCreateCall _ | Publish.ActivityUpdateCall _ => 1
  | _ => 0
  end.

Definition activityWrite (c : Publish.Call) : nat :=
  match c with
  | Publish.ActivityUpdateCall _ => 1
  | _ => 0
  end.

(** The hash, message and URL of the last commit summary, or empty strings
    when there is none (an empty new value changes nothing). *)
Definition lastCommitFields (release : ReleaseSpec.t) : string * string * string :=
  match rev (ReleaseSpec.Commits release) with
  | c :: _ => (CommitSummary.SHA c, CommitSummary.Message c, CommitSummary.URL c)
  | [] => ("", "", "")
  end.

(** An activity of an earlier build, to run the callback on. *)
Definition staleActivity : Publish.ActivitySpec.t :=
  {| Publish.ActivitySpec.LastCommitSHA := "c0";
     Publish.ActivitySpec.LastCommitMessage := "first";
     Publish.ActivitySpec.LastCommitURL := "https://example.com/c0";
     Publish.ActivitySpec.ReleaseNotesURL := "";
     Publish.ActivitySpec.Version := "2.0.0";
     Publish.ActivitySpec.Status := "Running" |}.

(** The local variable [version] of [Run]. *)
Definition runVersion (o : Options) : string :=
  if String.eqb (Version o) "" then SpecVersion else Version o.

(** A small world, to run what follows rendering: the tag [v2.0.1] exists,
    the release lookup answers [find], creating or updating the release
    answers [write], files can be written, the CRD file is there, and the
    activity of build 1 is [staleActivity]. *)
Module DemoWorld.

Definition world (find write : option Publish.ScmRelease.t * option error)
    : Publish.World :=
  {| Publish.FilterTags :=
       fun _ _ pattern =>
         (if String.eqb pattern "v2.0.1" then ["v2.0.1"] else [], None);
     Publish.FindByTag := fun _ _ _ => find;
     Publish.Create := fun _ _ _ => write;
     Publish.Update := fun _ _ _ _ => write;
     Publish.IsScmNotFound :=
       fun err => match err with
                  | Some e => String.eqb e "Not Found"
                  | None => false
                  end;
     Publish.UrlJoin := fun base parts => fold_left (fun u p => u +:+ "/" +:+ p) parts base;
     Publish.WriteFile := fun _ _ _ => None;
     Publish.Marshal := fun release => (Some (ReleaseSpec.Version release), None);
     Publish.FileExists := fun _ _ => (true, None);
     Publish.Add := fun _ _ => None;
     Publish.PathJoin := fun a b => a +:+ "/" +:+ b;
     Publish.Getenv := fun _ => "";
     Publish.ToValidName := fun s => s;
     Publish.GetOrCreate := fun _ _ => (Some staleActivity, None);
     Publish.ActivityUpdate := fun _ a => (Some a, None);
     Publish.ReleaseCrdYaml := "kind: CustomResourceDefinition" |}.

Definition flags (updateRelease : bool) (build : string) : Publish.Flags :=
  {| Publish.UpdateRelease := updateRelease;
     Publish.OutputMarkdownFile := "CHANGELOG.md";
     Publish.GenerateReleaseYaml := true;
     Publish.ReleaseYamlFile := "release.yaml";
     Publish.CrdYamlFile := "release-crd.yaml";
     Publish.GenerateCRD := true;
     Publish.OverwriteCRD := false;
     Publish.BuildNumber := build;
     Publish.Namespace := "jx";
     Publish.Owner := "jstrachan";
     Publish.Repository := "kubeconawesome";
     Publish.Branch := "master";
     Publish.dir := ".";
     Publish.templatesDir := "charts/kubeconawesome/templates" |}.

Definition notFound : option Publish.ScmRelease.t * option error :=
  (None, Some "Not Found").

Definition release7 : Publish.ScmRelease.t := Publish.ScmRelease.mk 7 "".

Definition input : Publish.ReleaseInput.t :=
  {| Publish.ReleaseInput.Title := "2.0.1"; Publish.ReleaseInput.Tag := "v2.0.1";
     Publish.ReleaseInput.Description := "notes" |}.

End DemoWorld.

Module DemoScenario.

Definition forbidden : option Publish.ScmRelease.t * option error :=
  (None, Some "forbidden").

Definition found7 : option Publish.ScmRelease.t * option error :=
  (Some DemoWorld.release7, None).

Definition unreachable : option Publish.ScmRelease.t * option error :=
  (None, Some "connection refused").

Definition fullName : string := "jstrachan/kubeconawesome".

Definition queried : list Publish.Call :=
  [Publish.FilterTagsCall "2.0.1"; Publish.FilterTagsCall "v2.0.1";
   Publish.FindByTagCall fullName "v2.0.1"].

End DemoScenario.
(** * Properties *)

(** ** Comparisons *)

#[global] Instance string_compare_good : Cmp.Good String.compare.
Proof.
  split.
  - apply String_as_OT.cmp_eq.
  - intros x y. apply String.compare_antisym.
  - intros x y z Hxy Hyz.
    apply String_as_OT.cmp_lt in Hxy, Hyz. apply String_as_OT.cmp_lt.
    eapply String_as_OT.lt_trans; eassumption.
Qed.

#[global] Instance pair_compare_good {A B} (cA : A -> A -> comparison)
    (cB : B -> B -> comparison) `{!Cmp.Good cA} `{!Cmp.Good cB} :
  Cmp.Good (Cmp.pair cA cB).
Proof.
  split.
  - intros [a b] [a' b']. unfold Cmp.pair, Cmp.lexc. simpl.
    destruct (cA a a') eqn:Ea.
    + apply Cmp.cmp_eq in Ea. subst a'. rewrite Cmp.cmp_eq.
      split; [intros ->; reflexivity | intros [= ->]; reflexivity].
    + split; [discriminate | intros [= -> ->]].
      assert (cA a' a' = Eq) as E by (apply Cmp.cmp_eq; reflexivity).
      congruence.
    + split; [discriminate | intros [= -> ->]].
      assert (cA a' a' = Eq) as E by (apply Cmp.cmp_eq; reflexivity).
      congruence.
  - intros [a b] [a' b']. unfold Cmp.pair, Cmp.lexc. simpl.
    rewrite (Cmp.cmp_opp (cmp := cA) a a'), (Cmp.cmp_opp (cmp := cB) b b').
    destruct (cA a a'); reflexivity.
  - intros [a b] [a' b'] [a'' b'']. unfold Cmp.pair, Cmp.lexc. simpl.
    destruct (cA a a') eqn:E1; try discriminate.
    + apply Cmp.cmp_eq in E1. subst a'.
      destruct (cA a a'') eqn:E2; try discriminate; try reflexivity.
      apply Cmp.cmp_lt_trans.
    + destruct (cA a' a'') eqn:E2; try discriminate.
      * apply Cmp.cmp_eq in E2. subst a''. rewrite E1. reflexivity.
      * rewrite (Cmp.cmp_lt_trans _ _ _ E1 E2). reflexivity.
Qed.

Section CmpFacts.
Context {A} (cmp : A -> A -> comparison) `{!Cmp.Good cmp}.

Lemma cmp_refl x : cmp x x = Eq.
Proof. apply Cmp.cmp_eq. reflexivity. Qed.

Lemma cmp_gt_lt x y : cmp x y = Gt <-> cmp y x = Lt.
Proof.
  rewrite (Cmp.cmp_opp (cmp := cmp) x y).
  destruct (cmp x y); simpl; split; congruence.
Qed.

Lemma cmp_le_refl x : Cmp.le cmp x x.
Proof. unfold Cmp.le. rewrite cmp_refl. discriminate. Qed.

Lemma cmp_le_total x y : Cmp.le cmp x y \/ Cmp.le cmp y x.
Proof.
  unfold Cmp.le. rewrite (Cmp.cmp_opp (cmp := cmp) x y).
  destruct (cmp x y); simpl; auto; left; discriminate.
Qed.

Lemma cmp_le_trans x y z : Cmp.le cmp x y -> Cmp.le cmp y z -> Cmp.le cmp x z.
Proof.
  unfold Cmp.le. intros Hxy Hyz.
  destruct (cmp x y) eqn:E1; [| |congruence].
  - apply Cmp.cmp_eq in E1. subst y. exact Hyz.
  - destruct (cmp y z) eqn:E2; [| |congruence].
    + apply Cmp.cmp_eq in E2. subst z. rewrite E1. discriminate.
    + rewrite (Cmp.cmp_lt_trans _ _ _ E1 E2). discriminate.
Qed.

Lemma cmp_le_antisym x y : Cmp.le cmp x y -> Cmp.le cmp y x -> x = y.
Proof.
  unfold Cmp.le. rewrite (Cmp.cmp_opp (cmp := cmp) x y).
  destruct (cmp x y) eqn:E; simpl; try congruence.
  intros _ _. apply Cmp.cmp_eq. exact E.
Qed.

End CmpFacts.

(** In a lexicographic product, an element lying between two elements with
    the same first component has that first component too, and elements with
    different first components are ordered by them alone. *)
Section PairFacts.
Context {A B} (cA : A -> A -> comparison) (cB : B -> B -> comparison)
  `{!Cmp.Good cA} `{!Cmp.Good cB}.

Lemma pair_le_fst x y : Cmp.le (Cmp.pair cA cB) x y -> Cmp.le cA (fst x) (fst y).
Proof.
  unfold Cmp.le, Cmp.pair, Cmp.lexc.
  destruct (cA (fst x) (fst y)); congruence.
Qed.

Lemma pair_le_between x y z :
  Cmp.le (Cmp.pair cA cB) x y -> Cmp.le (Cmp.pair cA cB) y z ->
  fst x = fst z -> fst y = fst x.
Proof.
  intros Hxy%pair_le_fst Hyz%pair_le_fst E. rewrite <- E in Hyz.
  symmetry. eapply (cmp_le_antisym cA); eassumption.
Qed.

Lemma pair_le_snd x y :
  Cmp.le (Cmp.pair cA cB) x y -> fst x = fst y -> Cmp.le cB (snd x) (snd y).
Proof.
  unfold Cmp.le, Cmp.pair, Cmp.lexc. intros Hxy E.
  rewrite E, (cmp_refl cA) in Hxy. exact Hxy.
Qed.

Lemma pair_le_fst_only x y x' y' :
  Cmp.le (Cmp.pair cA cB) x y -> fst x <> fst y ->
  fst x' = fst x -> fst y' = fst y -> Cmp.le (Cmp.pair cA cB) x' y'.
Proof.
  unfold Cmp.le, Cmp.pair, Cmp.lexc. intros Hxy Hne -> ->.
  destruct (cA (fst x) (fst y)) eqn:E; try congruence.
  apply Cmp.cmp_eq in E. contradiction.
Qed.

End PairFacts.

(** ** The dependency-update collapser *)

Example collapse_spec_example :
  CollapseDependencyUpdates mergeSortSlice
    [du "A" "R" "C" "1.0" "2.0"; du "A" "R" "C" "0.5" "1.0"; du "A" "R" "C2" "1.0" "1.1"]
  = [du "A" "R" "C" "0.5" "2.0"; du "A" "R" "C2" "1.0" "1.1"].
Proof. vm_compute. reflexivity. Qed.

Example collapse_empty : CollapseDependencyUpdates mergeSortSlice [] = [].
Proof. reflexivity. Qed.

Lemma string_eqb_compare (s t : string) :
  String.eqb s t = true <-> String.compare s t = Eq.
Proof. rewrite String.eqb_eq. symmetry. apply String_as_OT.cmp_eq. Qed.

Lemma string_ltb_compare (s t : string) :
  String.ltb s t = true <-> String.compare s t = Lt.
Proof. unfold String.ltb. destruct (String.compare s t); split; congruence. Qed.

Lemma lexc_step (x y : string) (restb : bool) (restc : comparison) :
  (restb = true <-> restc = Lt) ->
  (if String.eqb x y then restb else String.ltb x y) = true
  <-> Cmp.lexc (String.compare x y) restc = Lt.
Proof.
  intros Hrest. destruct (String.eqb x y) eqn:E.
  - apply string_eqb_compare in E. rewrite E. exact Hrest.
  - rewrite string_ltb_compare. unfold Cmp.lexc.
    destruct (String.compare x y) eqn:Ec; try tauto.
    apply string_eqb_compare in Ec. congruence.
Qed.

(** The comparator is the strict part of the lexicographic order on
    (owner, repo, component), then (from-version, to-version). *)
Lemma less_cmp a b :
  less a b = true <-> cmpSortKey (sortKey a) (sortKey b) = Lt.
Proof.
  unfold less, cmpSortKey, cmpComponent, cmpVersions, sortKey, componentKey,
    Cmp.pair. simpl.
  transitivity
    (Cmp.lexc (String.compare (Owner a) (Owner b))
       (Cmp.lexc (String.compare (Repo a) (Repo b))
          (Cmp.lexc (String.compare (Component a) (Component b))
             (Cmp.lexc (String.compare (FromVersion a) (FromVersion b))
                (String.compare (ToVersion a) (ToVersion b))))) = Lt).
  - do 4 apply lexc_step. apply string_ltb_compare.
  - unfold Cmp.lexc.
    destruct (String.compare (Owner a) (Owner b));
      destruct (String.compare (Repo a) (Repo b));
      destruct (String.compare (Component a) (Component b)); tauto.
Qed.

Lemma notAfter_cmp a b :
  notAfter a b <-> Cmp.le cmpSortKey (sortKey a) (sortKey b).
Proof.
  unfold notAfter, Cmp.le. rewrite (cmp_gt_lt cmpSortKey), <- less_cmp.
  destruct (less b a); split; congruence.
Qed.

#[global] Instance notAfter_refl : Reflexive notAfter.
Proof. intros a. apply notAfter_cmp, (cmp_le_refl cmpSortKey). Qed.

#[global] Instance notAfter_trans : Transitive notAfter.
Proof.
  intros a b c. rewrite !notAfter_cmp. apply (cmp_le_trans cmpSortKey).
Qed.

#[global] Instance notAfter_total : Total notAfter.
Proof.
  intros a b. rewrite !notAfter_cmp. apply (cmp_le_total cmpSortKey).
Qed.

Lemma sameComponent_key a b :
  sameComponent a b = true <-> componentKey a = componentKey b.
Proof.
  unfold sameComponent, componentKey.
  rewrite !andb_true_iff, !String.eqb_eq.
  split; [intros [[-> ->] ->]; reflexivity | intros [= -> -> ->]; auto].
Qed.

Lemma sameComponent_false a b :
  sameComponent a b = false <-> componentKey a <> componentKey b.
Proof.
  rewrite <- sameComponent_key. destruct (sameComponent a b); split; congruence.
Qed.

(** Sorted neighbours: a record between two records of one component
    belongs to that component. *)
Lemma notAfter_between a b c :
  notAfter a b -> notAfter b c -> componentKey a = componentKey c ->
  componentKey b = componentKey a.
Proof.
  rewrite !notAfter_cmp. intros Hab Hbc E.
  exact (pair_le_between cmpComponent cmpVersions _ _ _ Hab Hbc E).
Qed.

(** Within one component the order is the one of (from-version,
    to-version). *)
Lemma notAfter_versions a b :
  notAfter a b -> componentKey a = componentKey b ->
  Cmp.le cmpVersions (FromVersion a, ToVersion a) (FromVersion b, ToVersion b).
Proof.
  rewrite notAfter_cmp. intros Hab E.
  exact (pair_le_snd cmpComponent cmpVersions _ _ Hab E).
Qed.

(** Across components the order does not look at the versions. *)
Lemma notAfter_component_only a b a' b' :
  notAfter a b -> componentKey a <> componentKey b ->
  componentKey a' = componentKey a -> componentKey b' = componentKey b ->
  notAfter a' b'.
Proof.
  rewrite !notAfter_cmp. intros Hab Hne Ea Eb.
  exact (pair_le_fst_only cmpComponent cmpVersions _ _ (sortKey a') (sortKey b')
           Hab Hne Ea Eb).
Qed.

Lemma mergeSortSlice_contract : SortSliceContract mergeSortSlice.
Proof.
  split; intros l; unfold mergeSortSlice.
  - apply merge_sort_Permutation.
  - apply StronglySorted_merge_sort; apply _.
Qed.

Lemma collapsedEntry_key a b :
  componentKey (collapsedEntry a b) = componentKey a.
Proof. reflexivity. Qed.

(** *** The scan over a sorted slice *)

Lemma sorted_head_notAfter x l y :
  StronglySorted notAfter (x :: l) -> In y (x :: l) -> notAfter x y.
Proof.
  intros Hs [<- | Hy]; [reflexivity|].
  apply StronglySorted_inv in Hs as [_ Hall].
  rewrite List.Forall_forall in Hall. auto.
Qed.

(** Every record the scan appends is built from the first and the last
    record of one component: [a] is not after, and [b] not before, any
    record of that component. *)
Lemma collapseFrom_ends rest : forall start prev,
  StronglySorted notAfter (prev :: rest) ->
  componentKey start = componentKey prev -> notAfter start prev ->
  forall o, In o (collapseFrom start prev rest) ->
  exists a b, o = collapsedEntry a b /\ In a (start :: rest)
    /\ In b (prev :: rest) /\ componentKey a = componentKey b
    /\ forall d, In d (start :: prev :: rest) ->
         componentKey d = componentKey a -> notAfter a d /\ notAfter d b.
Proof.
  induction rest as [|cur rest' IH]; intros start prev Hs Hk Hsp o Ho;
    simpl in Ho.
  - destruct Ho as [<-|[]]. exists start, prev.
    repeat split; simpl; auto.
    + destruct H as [<-|[<-|[]]]; [reflexivity | assumption].
    + destruct H as [<-|[<-|[]]]; [assumption | reflexivity].
  - pose proof Hs as Hs0.
    apply StronglySorted_inv in Hs as [Hs' Hall].
    assert (Hpc : notAfter prev cur)
      by (apply (sorted_head_notAfter _ _ _ Hs0); simpl; auto).
    destruct (sameComponent prev cur) eqn:E.
    + apply sameComponent_key in E.
      destruct (IH start cur Hs' (eq_trans Hk E) (transitivity Hsp Hpc) o Ho)
        as (a & b & -> & Ha & Hb & Hab & Hd).
      exists a, b. split; [reflexivity|].
      split; [destruct Ha as [<-|Ha]; simpl; auto|].
      split; [right; exact Hb|]. split; [exact Hab|].
      intros d [<-|[<-|Hin]] Hda.
      * apply Hd; simpl; auto.
      * assert (Hsa : componentKey start = componentKey a) by congruence.
        assert (Hca : componentKey cur = componentKey a) by congruence.
        destruct (Hd start (or_introl eq_refl) Hsa) as [Has _].
        destruct (Hd cur (or_intror (or_introl eq_refl)) Hca) as [_ Hcb].
        split; etransitivity; eassumption.
      * apply Hd; [right; exact Hin | exact Hda].
    + apply sameComponent_false in E. destruct Ho as [<- | Ho].
      * exists start, prev. split; [reflexivity|].
        split; [left; reflexivity|]. split; [left; reflexivity|].
        split; [exact Hk|].
        intros d [<-|[<-|Hin]] Hda.
        -- split; [reflexivity | assumption].
        -- split; [assumption | reflexivity].
        -- exfalso. apply E.
           assert (Hcd : notAfter cur d)
             by (apply (sorted_head_notAfter _ _ _ Hs' Hin)).
           symmetry. apply (notAfter_between prev cur d Hpc Hcd). congruence.
      * destruct (IH cur cur Hs' eq_refl (reflexivity cur) o Ho)
          as (a & b & -> & Ha & Hb & Hab & Hd).
        exists a, b. split; [reflexivity|].
        split; [right; exact Ha|]. split; [right; exact Hb|].
        split; [exact Hab|].
        assert (Hca : notAfter cur a)
          by (apply (sorted_head_notAfter _ _ _ Hs' Ha)).
        assert (Hne : componentKey prev <> componentKey a).
        { intros Hpa. apply E. symmetry.
          apply (notAfter_between prev cur a Hpc Hca Hpa). }
        intros d [<-|[<-|Hin]] Hda.
        -- exfalso. apply Hne. congruence.
        -- exfalso. apply Hne. congruence.
        -- apply Hd; [right; exact Hin | exact Hda].
Qed.

(** The component of every scanned record is the component of some
    appended record. *)
Lemma collapseFrom_covers rest : forall start prev,
  componentKey start = componentKey prev ->
  forall d, In d (start :: prev :: rest) ->
  exists o, In o (collapseFrom start prev rest)
            /\ componentKey o = componentKey d.
Proof.
  induction rest as [|cur rest' IH]; intros start prev Hk d Hd; simpl.
  - exists (collapsedEntry start prev). split; [left; reflexivity|].
    rewrite collapsedEntry_key.
    destruct Hd as [<-|[<-|[]]]; congruence.
  - destruct (sameComponent prev cur) eqn:E.
    + apply sameComponent_key in E.
      destruct Hd as [<-|[<-|Hd]].
      * apply (IH start cur); [congruence | left; reflexivity].
      * destruct (IH start cur (eq_trans Hk E) cur) as (o & Ho & Hko);
          [right; left; reflexivity|].
        exists o. split; [exact Ho | congruence].
      * apply (IH start cur); [congruence | right; exact Hd].
    + destruct Hd as [<-|[<-|Hd]].
      * exists (collapsedEntry start prev). split; [left; reflexivity|].
        apply collapsedEntry_key.
      * exists (collapsedEntry start prev). split; [left; reflexivity|].
        rewrite collapsedEntry_key. exact Hk.
      * destruct (IH cur cur eq_refl d) as (o & Ho & Hko); [right; exact Hd|].
        exists o. split; [right; exact Ho | exact Hko].
Qed.

(** On a sorted slice the appended records have pairwise different
    components. *)
Lemma collapseFrom_keys_NoDup rest : forall start prev,
  StronglySorted notAfter (prev :: rest) ->
  componentKey start = componentKey prev -> notAfter start prev ->
  List.NoDup (map componentKey (collapseFrom start prev rest)).
Proof.
  induction rest as [|cur rest' IH]; intros start prev Hs Hk Hsp; simpl.
  - constructor; [intros [] | constructor].
  - pose proof Hs as Hs0.
    apply StronglySorted_inv in Hs as [Hs' Hall].
    assert (Hpc : notAfter prev cur)
      by (apply (sorted_head_notAfter _ _ _ Hs0); simpl; auto).
    destruct (sameComponent prev cur) eqn:E.
    + apply sameComponent_key in E.
      apply IH; [assumption | congruence | etransitivity; eassumption].
    + apply sameComponent_false in E. simpl. constructor.
      * rewrite in_map_iff. intros (o & Hko & Ho).
        destruct (collapseFrom_ends rest' cur cur Hs' eq_refl (reflexivity cur) o Ho)
          as (a & b & -> & Ha & _).
        rewrite !collapsedEntry_key in Hko.
        assert (Hca : notAfter cur a)
          by (apply (sorted_head_notAfter _ _ _ Hs' Ha)).
        apply E. symmetry.
        apply (notAfter_between prev cur a Hpc Hca). congruence.
      * apply IH; [assumption | reflexivity | reflexivity].
Qed.

(** ... and they are sorted themselves. *)
Lemma collapseFrom_sorted rest : forall start prev,
  StronglySorted notAfter (prev :: rest) ->
  componentKey start = componentKey prev -> notAfter start prev ->
  StronglySorted notAfter (collapseFrom start prev rest).
Proof.
  induction rest as [|cur rest' IH]; intros start prev Hs Hk Hsp; simpl.
  - repeat constructor.
  - pose proof Hs as Hs0.
    apply StronglySorted_inv in Hs as [Hs' Hall].
    assert (Hpc : notAfter prev cur)
      by (apply (sorted_head_notAfter _ _ _ Hs0); simpl; auto).
    destruct (sameComponent prev cur) eqn:E.
    + apply sameComponent_key in E.
      apply IH; [assumption | congruence | etransitivity; eassumption].
    + apply sameComponent_false in E. constructor.
      * apply IH; [assumption | reflexivity | reflexivity].
      * rewrite List.Forall_forall. intros o Ho.
        destruct (collapseFrom_ends rest' cur cur Hs' eq_refl (reflexivity cur) o Ho)
          as (a & b & -> & Ha & _).
        assert (Hca : notAfter cur a)
          by (apply (sorted_head_notAfter _ _ _ Hs' Ha)).
        assert (Hpa : notAfter prev a) by (etransitivity; eassumption).
        apply (notAfter_component_only prev a); auto.
        intros Hpk. apply E. symmetry.
        apply (notAfter_between prev cur a Hpc Hca Hpk).
Qed.

(** A record that the scan produced has no update paths; collapsing such a
    record with itself gives it back. *)
Lemma collapsedEntry_self d : Paths d = [] -> collapsedEntry d d = d.
Proof. destruct d as [[] ?]. simpl. intros ->. reflexivity. Qed.

Lemma collapseFrom_Paths rest : forall start prev o,
  In o (collapseFrom start prev rest) -> Paths o = [].
Proof.
  induction rest as [|cur rest' IH]; intros start prev o Ho; simpl in Ho.
  - destruct Ho as [<-|[]]. reflexivity.
  - destruct (sameComponent prev cur); [eauto|].
    destruct Ho as [<-|Ho]; [reflexivity | eauto].
Qed.

(** The scan leaves a slice of records without paths and with pairwise
    different components as it is. *)
Lemma collapseFrom_fixed rest : forall d,
  Paths d = [] -> Forall (fun x => Paths x = []) rest ->
  List.NoDup (map componentKey (d :: rest)) ->
  collapseFrom d d rest = d :: rest.
Proof.
  induction rest as [|cur rest' IH]; intros d Hd Hall Hnd; simpl.
  - rewrite collapsedEntry_self by assumption. reflexivity.
  - apply Forall_cons_1 in Hall as [Hcur Hall].
    simpl in Hnd. apply List.NoDup_cons_iff in Hnd as [Hnot Hnd].
    destruct (sameComponent d cur) eqn:E.
    + apply sameComponent_key in E. exfalso. apply Hnot. left. congruence.
    + rewrite collapsedEntry_self by assumption. f_equal.
      apply IH; assumption.
Qed.

Lemma NoDup_map_eq {A B} (f : A -> B) l x y :
  List.NoDup (map f l) -> In x l -> In y l -> f x = f y -> x = y.
Proof.
  induction l as [|z l IH]; simpl; [intros _ []|].
  rewrite List.NoDup_cons_iff. intros [Hz Hnd] [<-|Hx] [<-|Hy] E; auto.
  - exfalso. apply Hz. rewrite E. apply in_map. exact Hy.
  - exfalso. apply Hz. rewrite <- E. apply in_map. exact Hx.
Qed.

(** *** The collapser on any sort that meets the contract *)

Lemma collapseEntries_ends s o :
  StronglySorted notAfter s -> In o (collapseEntries s) ->
  exists a b, o = collapsedEntry a b /\ In a s /\ In b s
    /\ componentKey a = componentKey b
    /\ forall d, In d s -> componentKey d = componentKey a ->
         notAfter a d /\ notAfter d b.
Proof.
  destruct s as [|x rest]; simpl; [intros _ []|]. intros Hs Ho.
  destruct (collapseFrom_ends rest x x Hs eq_refl (reflexivity x) o Ho)
    as (a & b & -> & Ha & Hb & Hab & Hd).
  exists a, b. repeat split; auto; apply Hd; simpl; auto.
Qed.

Lemma collapseEntries_keys_NoDup s :
  StronglySorted notAfter s -> List.NoDup (map componentKey (collapseEntries s)).
Proof.
  destruct s as [|x rest]; simpl; [constructor|]. intros Hs.
  apply collapseFrom_keys_NoDup; [assumption | reflexivity | reflexivity].
Qed.

Lemma collapseEntries_sorted s :
  StronglySorted notAfter s -> StronglySorted notAfter (collapseEntries s).
Proof.
  destruct s as [|x rest]; simpl; [constructor|]. intros Hs.
  apply collapseFrom_sorted; [assumption | reflexivity | reflexivity].
Qed.

Lemma collapseEntries_covers s d :
  In d s -> exists o, In o (collapseEntries s) /\ componentKey o = componentKey d.
Proof.
  destruct s as [|x rest]; simpl; [intros []|]. intros Hd.
  apply collapseFrom_covers; [reflexivity | simpl in *; tauto].
Qed.

Lemma collapseEntries_Paths s o : In o (collapseEntries s) -> Paths o = [].
Proof.
  destruct s as [|x rest]; simpl; [intros []|]. apply collapseFrom_Paths.
Qed.

Lemma collapseEntries_fixed l :
  Forall (fun x => Paths x = []) l -> List.NoDup (map componentKey l) ->
  collapseEntries l = l.
Proof.
  destruct l as [|x rest]; simpl; [reflexivity|]. intros Hall Hnd.
  apply Forall_cons_1 in Hall as [Hx Hall].
  apply collapseFrom_fixed; assumption.
Qed.

Lemma in_group l o d :
  In d (group l o) <-> In d l /\ componentKey d = componentKey o.
Proof.
  unfold group. rewrite filter_In, sameComponent_key.
  split; intros [? ?]; split; auto.
Qed.

Lemma string_leb_compare (s t : string) :
  String.leb s t = true <-> Cmp.le String.compare s t.
Proof.
  unfold String.leb, Cmp.le. destruct (String.compare s t); split; congruence.
Qed.

Lemma cmpVersions_le f t f' t' :
  Cmp.le cmpVersions (f, t) (f', t') ->
  String.ltb f f' = true \/ (f = f' /\ String.leb t t' = true).
Proof.
  unfold cmpVersions, Cmp.le, Cmp.pair, Cmp.lexc. simpl.
  rewrite string_ltb_compare, string_leb_compare. unfold Cmp.le.
  destruct (String.compare f f') eqn:E; try tauto.
  apply (Cmp.cmp_eq (cmp := String.compare)) in E. tauto.
Qed.

Example collapse_crossingUpdates :
  CollapseDependencyUpdates mergeSortSlice crossingUpdates
  = [du "A" "R" "C" "1" "3"].
Proof. vm_compute. reflexivity. Qed.

(** C2, as stated, fails: for the updates 1 -> 9 and 2 -> 3 of one
    component the collapsed record is 1 -> 3, and 3 is not the greatest
    to-version of the group. *)
Lemma C2_to_version_not_greatest :
  ~ (forall o, In o (CollapseDependencyUpdates mergeSortSlice crossingUpdates) ->
       leastFromVersion (group crossingUpdates o) (FromVersion o)
       /\ greatestToVersion (group crossingUpdates o) (ToVersion o)).
Proof.
  intros Hclaim.
  destruct (Hclaim (du "A" "R" "C" "1" "3")) as [_ [_ Hmax]].
  - rewrite collapse_crossingUpdates. left. reflexivity.
  - specialize (Hmax (du "A" "R" "C" "1" "9")).
    assert (String.leb "9" "3" = true) as Habs.
    { apply Hmax. vm_compute. left. reflexivity. }
    vm_compute in Habs. discriminate Habs.
Qed.

(** C2, amended: for every sort that meets the contract of [sort.Slice], the
    from-version of a collapsed record is the least from-version of its
    group in string order, and its to-version is the to-version of the
    group's last record by (from-version, to-version): the greatest
    to-version among the records with the greatest from-version. *)
Theorem C2_collapse_from_least_to_of_last sortSlice l o :
  SortSliceContract sortSlice ->
  In o (CollapseDependencyUpdates sortSlice l) ->
  leastFromVersion (group l o) (FromVersion o)
  /\ toVersionOfLast (group l o) (ToVersion o).
Proof.
  intros [Hperm Hsorted] Ho. unfold CollapseDependencyUpdates in Ho.
  destruct (collapseEntries_ends _ _ (Hsorted l) Ho)
    as (a & b & -> & Ha & Hb & Hab & Hd).
  assert (Hl : forall d, In d (sortSlice l) <-> In d l).
  { intros d. split; apply Permutation_in;
      [apply Hperm | apply Permutation_sym, Hperm]. }
  split.
  - split.
    + exists a. split; [|reflexivity].
      apply in_group. split; [apply Hl, Ha | reflexivity].
    + intros d [Hdl Hdk]%in_group. rewrite collapsedEntry_key in Hdk.
      destruct (Hd d (proj2 (Hl d) Hdl) Hdk) as [Had _].
      apply notAfter_versions in Had; [|congruence].
      change (FromVersion (collapsedEntry a b)) with (FromVersion a).
      apply cmpVersions_le in Had as [Hlt | [-> _]].
      * apply string_leb_compare. apply string_ltb_compare in Hlt.
        unfold Cmp.le. rewrite Hlt. discriminate.
      * apply string_leb_compare, (cmp_le_refl String.compare).
  - exists b. split; [|split; [reflexivity|]].
    + apply in_group. split; [apply Hl, Hb | rewrite collapsedEntry_key; congruence].
    + intros d [Hdl Hdk]%in_group. rewrite collapsedEntry_key in Hdk.
      destruct (Hd d (proj2 (Hl d) Hdl) Hdk) as [_ Hdb].
      apply notAfter_versions in Hdb; [|congruence].
      apply cmpVersions_le in Hdb. exact Hdb.
Qed.

Lemma C2_collapse_from_least_to_of_last_witness :
  leastFromVersion
    (group [du "A" "R" "C" "1.0" "2.0"; du "A" "R" "C" "0.5" "1.0";
            du "A" "R" "C2" "1.0" "1.1"] (du "A" "R" "C" "0.5" "2.0")) "0.5"
  /\ toVersionOfLast
    (group [du "A" "R" "C" "1.0" "2.0"; du "A" "R" "C" "0.5" "1.0";
            du "A" "R" "C2" "1.0" "1.1"] (du "A" "R" "C" "0.5" "2.0")) "2.0".
Proof.
  apply (C2_collapse_from_least_to_of_last mergeSortSlice
           [du "A" "R" "C" "1.0" "2.0"; du "A" "R" "C" "0.5" "1.0";
            du "A" "R" "C2" "1.0" "1.1"] (du "A" "R" "C" "0.5" "2.0")).
  - exact mergeSortSlice_contract.
  - vm_compute. left. reflexivity.
Defined.

(** C5: collapsing is idempotent.  For every sort that meets the contract of
    [sort.Slice] and every input, collapsing the collapsed list gives the
    collapsed list back. *)
Theorem C5_collapse_idempotent sortSlice l :
  SortSliceContract sortSlice ->
  CollapseDependencyUpdates sortSlice (CollapseDependencyUpdates sortSlice l)
  = CollapseDependencyUpdates sortSlice l.
Proof.
  intros [Hperm Hsorted]. unfold CollapseDependencyUpdates.
  set (out := collapseEntries (sortSlice l)).
  assert (Hnd : List.NoDup (map componentKey out))
    by apply collapseEntries_keys_NoDup, Hsorted.
  assert (Hso : StronglySorted notAfter out)
    by apply collapseEntries_sorted, Hsorted.
  assert (Hpaths : Forall (fun x => Paths x = []) out).
  { apply List.Forall_forall. intros o Ho. eapply collapseEntries_Paths, Ho. }
  assert (Hsame : sortSlice out = out).
  { apply (StronglySorted_unique_strong notAfter);
      [| apply Hsorted | exact Hso | apply Hperm].
    intros x1 x2 Hx1%list_elem_of_In Hx2%list_elem_of_In H12 H21.
    apply (Permutation_in _ (Hperm out)) in Hx1.
    apply (NoDup_map_eq componentKey out); auto.
    apply notAfter_cmp in H12, H21.
    pose proof (cmp_le_antisym cmpSortKey _ _ H12 H21) as Hkey.
    unfold sortKey in Hkey. congruence. }
  rewrite Hsame. apply collapseEntries_fixed; assumption.
Qed.

Lemma C5_collapse_idempotent_witness :
  CollapseDependencyUpdates mergeSortSlice
    (CollapseDependencyUpdates mergeSortSlice crossingUpdates)
  = CollapseDependencyUpdates mergeSortSlice crossingUpdates.
Proof. apply (C5_collapse_idempotent mergeSortSlice crossingUpdates).
  exact mergeSortSlice_contract.
Defined.

(** C6: for every sort that meets the contract of [sort.Slice], no two
    collapsed records share (owner, repo, component); every collapsed record
    is built from two input records of its own component; and every
    component of the input keeps a record of its own. *)
Theorem C6_collapse_one_record_per_component sortSlice l :
  SortSliceContract sortSlice ->
  List.NoDup (map componentKey (CollapseDependencyUpdates sortSlice l))
  /\ (forall o, In o (CollapseDependencyUpdates sortSlice l) ->
        exists a b, In a l /\ In b l
          /\ componentKey a = componentKey o /\ componentKey b = componentKey o
          /\ o = collapsedEntry a b)
  /\ (forall d, In d l ->
        exists o, In o (CollapseDependencyUpdates sortSlice l)
                  /\ componentKey o = componentKey d).
Proof.
  intros [Hperm Hsorted]. unfold CollapseDependencyUpdates.
  split; [apply collapseEntries_keys_NoDup, Hsorted|]. split.
  - intros o Ho.
    destruct (collapseEntries_ends _ _ (Hsorted l) Ho)
      as (a & b & -> & Ha & Hb & Hab & _).
    exists a, b. rewrite collapsedEntry_key.
    repeat split; auto; eapply Permutation_in; try apply Hperm; assumption.
  - intros d Hd. apply collapseEntries_covers.
    eapply Permutation_in; [apply Permutation_sym, Hperm | exact Hd].
Qed.

Lemma C6_collapse_one_record_per_component_witness :
  List.NoDup (map componentKey (CollapseDependencyUpdates mergeSortSlice crossingUpdates))
  /\ (forall o, In o (CollapseDependencyUpdates mergeSortSlice crossingUpdates) ->
        exists a b, In a crossingUpdates /\ In b crossingUpdates
          /\ componentKey a = componentKey o /\ componentKey b = componentKey o
          /\ o = collapsedEntry a b)
  /\ (forall d, In d crossingUpdates ->
        exists o, In o (CollapseDependencyUpdates mergeSortSlice crossingUpdates)
                  /\ componentKey o = componentKey d).
Proof. apply (C6_collapse_one_record_per_component mergeSortSlice crossingUpdates).
  exact mergeSortSlice_contract.
Defined.

(** ** The issue reference extractor *)

Example github_refs :
  FindAllStringSubmatch GitHubIssueRegex "fixes #42 and #7, not # or #x"
  = [["#42"; "#42"]; ["#7"; "#7"]].
Proof. vm_compute. reflexivity. Qed.

Example jira_refs :
  FindAllStringSubmatch JIRAIssueRegex "see ABC-123, A-1 and XY-9z"
  = [["ABC-123"; "123"]; ["XY-9"; "9"]].
Proof. vm_compute. reflexivity. Qed.

Lemma spanWhile_length p s :
  String.length s
  = String.length (fst (spanWhile p s)) + String.length (snd (spanWhile p s)).
Proof.
  induction s as [|c s IH]; simpl; [reflexivity|].
  destruct (p c); [|reflexivity].
  destruct (spanWhile p s) as [m r]. simpl in *. rewrite IH. reflexivity.
Qed.

(** A match consumes at least one byte. *)
Lemma matchAt_shorter re s m r :
  matchAt re s = Some (m, r) -> String.length r < String.length s.
Proof.
  destruct re; unfold matchAt.
  - destruct s as [|c s1]; [discriminate|].
    destruct (Ascii.eqb c "#"); [|discriminate].
    pose proof (spanWhile_length isDigit s1) as Hlen.
    destruct (spanWhile isDigit s1) as [ds r']. simpl in Hlen.
    destruct (String.eqb ds ""); [discriminate|].
    intros [= _ <-]. simpl. lia.
  - pose proof (spanWhile_length isUpper s) as Hlen.
    destruct (spanWhile isUpper s) as [us r1]. simpl in Hlen.
    destruct (2 <=? String.length us)%nat; [|discriminate].
    destruct r1 as [|c r2]; [discriminate|].
    destruct (Ascii.eqb c "-"); [|discriminate].
    pose proof (spanWhile_length isDigit r2) as Hlen2.
    destruct (spanWhile isDigit r2) as [ds r3]. simpl in Hlen2.
    destruct (String.eqb ds ""); [discriminate|].
    intros [= _ <-]. simpl in Hlen. lia.
Qed.

(** The fuel of [FindAllStringSubmatch] is enough: more fuel finds the same
    matches. *)
Lemma findAll_fuel re fuel1 : forall fuel2 s,
  String.length s < fuel1 -> String.length s < fuel2 ->
  findAll fuel1 re s = findAll fuel2 re s.
Proof.
  induction fuel1 as [|fuel1 IH]; intros fuel2 s H1 H2; [lia|].
  destruct fuel2 as [|fuel2]; [lia|]. simpl.
  destruct (matchAt re s) as [[m r]|] eqn:Ematch.
  - apply matchAt_shorter in Ematch. f_equal. apply IH; lia.
  - destruct s as [|c s']; [reflexivity|]. simpl in H1, H2. apply IH; lia.
Qed.

Lemma FindAllStringSubmatch_fuel re s fuel :
  String.length s < fuel -> findAll fuel re s = FindAllStringSubmatch re s.
Proof. intros Hfuel. apply findAll_fuel; [exact Hfuel | lia]. Qed.

(** *** The full message text finds what the message finds

    [fullCommitMessageText] appends the message to itself across a newline;
    no match spans a newline, so the matches of the full text are the
    matches of the message, twice. *)

Lemma append_cons c s t : String c s +:+ t = String c (s +:+ t).
Proof. reflexivity. Qed.

Lemma append_nil_l t : "" +:+ t = t.
Proof. reflexivity. Qed.

Lemma append_nil_r s : s +:+ "" = s.
Proof. induction s as [|c s IH]; [reflexivity|]. rewrite append_cons, IH. reflexivity. Qed.

Lemma append_length s t :
  String.length (s +:+ t) = String.length s + String.length t.
Proof.
  induction s as [|c s IH]; [reflexivity|].
  rewrite append_cons. simpl. rewrite IH. reflexivity.
Qed.

Lemma append_assoc s t u : (s +:+ t) +:+ u = s +:+ (t +:+ u).
Proof.
  induction s as [|c s IH]; [reflexivity|].
  rewrite !append_cons, IH. reflexivity.
Qed.

Lemma spanWhile_stop p s n t :
  p n = false ->
  spanWhile p (s +:+ String n t)
  = (fst (spanWhile p s), snd (spanWhile p s) +:+ String n t).
Proof.
  intros Hn. induction s as [|c s IH].
  - rewrite append_nil_l. simpl. rewrite Hn. reflexivity.
  - rewrite append_cons. simpl. destruct (p c); [|reflexivity].
    rewrite IH. destruct (spanWhile p s) as [m r]. reflexivity.
Qed.

Lemma newline_separates : separates (ascii_of_nat 10).
Proof. repeat split. Qed.

Lemma matchAt_stop re s n t :
  separates n ->
  matchAt re (s +:+ String n t)
  = match matchAt re s with
    | Some (m, r) => Some (m, r +:+ String n t)
    | None => None
    end.
Proof.
  intros (Hd & Hu & Hh & Hm). destruct re; unfold matchAt.
  - destruct s as [|c s1].
    + rewrite append_nil_l, Hh. reflexivity.
    + rewrite append_cons. destruct (Ascii.eqb c "#"); [|reflexivity].
      rewrite (spanWhile_stop _ _ _ _ Hd).
      destruct (spanWhile isDigit s1) as [ds r]. cbn [fst snd].
      destruct (String.eqb ds ""); reflexivity.
  - rewrite (spanWhile_stop _ _ _ _ Hu).
    destruct (spanWhile isUpper s) as [us r1]. cbn [fst snd].
    destruct (2 <=? String.length us)%nat; [|reflexivity].
    destruct r1 as [|c r2].
    + rewrite append_nil_l, Hm. reflexivity.
    + rewrite append_cons. destruct (Ascii.eqb c "-"); [|reflexivity].
      rewrite (spanWhile_stop _ _ _ _ Hd).
      destruct (spanWhile isDigit r2) as [ds r3]. cbn [fst snd].
      destruct (String.eqb ds ""); reflexivity.
Qed.

Lemma FindAllStringSubmatch_stop re n t :
  separates n -> forall k s, String.length s <= k ->
  FindAllStringSubmatch re (s +:+ String n t)
  = FindAllStringSubmatch re s ++ FindAllStringSubmatch re t.
Proof.
  intros Hsep. induction k as [|k IH]; intros s Hk.
  - destruct s; [|simpl in Hk; lia].
    rewrite append_nil_l. unfold FindAllStringSubmatch at 1 2.
    cbn [findAll String.length].
    pose proof (matchAt_stop re "" n t Hsep) as Hstop.
    rewrite append_nil_l in Hstop. rewrite Hstop.
    destruct (matchAt re "") as [[m r]|] eqn:Ematch.
    + apply matchAt_shorter in Ematch. simpl in Ematch. lia.
    + reflexivity.
  - unfold FindAllStringSubmatch at 1 2. cbn [findAll].
    rewrite (matchAt_stop re s n t Hsep).
    destruct (matchAt re s) as [[m r]|] eqn:Ematch.
    + apply matchAt_shorter in Ematch.
      rewrite (FindAllStringSubmatch_fuel re (r +:+ String n t)),
        (FindAllStringSubmatch_fuel re r), IH; [reflexivity | lia | lia |].
      rewrite !append_length. lia.
    + destruct s as [|c s'].
      * rewrite append_nil_l. reflexivity.
      * rewrite append_cons.
        change (findAll (String.length (String c (s' +:+ String n t))) re
                  (s' +:+ String n t))
          with (FindAllStringSubmatch re (s' +:+ String n t)).
        change (findAll (String.length (String c s')) re s')
          with (FindAllStringSubmatch re s').
        apply IH. simpl in Hk. lia.
Qed.

Lemma substring_last m :
  m <> "" ->
  exists m0 c, m = m0 +:+ String c ""
    /\ substring (String.length m - 1) 1 m = String c "".
Proof.
  induction m as [|a m IH]; [congruence|]. intros _.
  destruct m as [|b m'].
  - exists "", a. split; reflexivity.
  - destruct IH as (m0 & c & Hm & Hsub); [discriminate|].
    exists (String a m0), c. rewrite append_cons, <- Hm. split; [reflexivity|].
    replace (String.length (String a (String b m')) - 1)
      with (S (String.length (String b m') - 1)) by (simpl; lia).
    exact Hsub.
Qed.

Lemma HasSuffix_newline m :
  HasSuffix m newline = true -> exists m0, m = m0 +:+ newline.
Proof.
  unfold HasSuffix. rewrite andb_true_iff, String.eqb_eq. intros [Hlen Hsub].
  destruct (substring_last m) as (m0 & c & Hm & Hlast).
  - intros ->. discriminate Hlen.
  - exists m0. change (String.length newline) with 1 in Hsub.
    rewrite Hlast in Hsub. rewrite Hm, Hsub. reflexivity.
Qed.

Lemma fullCommitMessageText_matches re commit :
  FindAllStringSubmatch re (fullCommitMessageText commit)
  = if String.eqb (Commit.Message commit) "" then []
    else FindAllStringSubmatch re (Commit.Message commit)
         ++ FindAllStringSubmatch re (Commit.Message commit).
Proof.
  unfold fullCommitMessageText.
  destruct (String.eqb (Commit.Message commit) "") eqn:Eempty; cbn [negb].
  - apply String.eqb_eq in Eempty. rewrite Eempty. destruct re; reflexivity.
  - destruct (HasSuffix (Commit.Message commit) newline) eqn:Esuffix.
    + destruct (HasSuffix_newline _ Esuffix) as (m0 & Hm).
      rewrite append_nil_l.
      assert (Hfirst : FindAllStringSubmatch re (Commit.Message commit)
                       = FindAllStringSubmatch re m0).
      { rewrite Hm. unfold newline.
        rewrite (FindAllStringSubmatch_stop re _ _ newline_separates
                   (String.length m0) m0 (Nat.le_refl _)).
        assert (FindAllStringSubmatch re "" = []) as ->
          by (destruct re; reflexivity).
        apply app_nil_r. }
      rewrite Hfirst at 1.
      transitivity
        (FindAllStringSubmatch re
           (m0 +:+ String (ascii_of_nat 10) (Commit.Message commit))).
      * f_equal. rewrite Hm at 1. unfold newline.
        rewrite append_assoc, append_cons, append_nil_l. reflexivity.
      * apply (FindAllStringSubmatch_stop re _ _ newline_separates
                 (String.length m0)). apply Nat.le_refl.
    + unfold newline at 1. rewrite append_cons, append_nil_l.
      apply (FindAllStringSubmatch_stop re _ _ newline_separates
               (String.length (Commit.Message commit))).
      apply Nat.le_refl.
Qed.

(** An identifier is seen for a commit exactly when its message has it. *)
Lemma references_message env commit id :
  In id (references env commit) <-> In id (messageReferences env commit).
Proof.
  unfold references, messageReferences.
  rewrite fullCommitMessageText_matches.
  destruct (String.eqb (Commit.Message commit) "") eqn:Eempty.
  - apply String.eqb_eq in Eempty. rewrite Eempty.
    destruct (issueRegex env); simpl; tauto.
  - rewrite concat_app, map_app, in_app_iff. tauto.
Qed.

Example trim_hash : TrimPrefix "#42" "#" = "42".
Proof. reflexivity. Qed.

Example suffix_newline : HasSuffix ("abc" +:+ newline) newline = true.
Proof. reflexivity. Qed.

(** ** Running the pipeline on the small instance *)

Example twoFixes_commits :
  map CommitSummary.IssueIDs (ReleaseSpec.Commits (Demo.release Demo.twoFixes))
  = [["42"]; []].
Proof. vm_compute. reflexivity. Qed.

Example twoFixes_issues :
  map IssueSummary.ID (allIssues (Demo.release Demo.twoFixes)) = ["42"].
Proof. vm_compute. reflexivity. Qed.

Example releaseFirst_commits :
  ReleaseSpec.Commits (Demo.release Demo.releaseFirst) = [].
Proof. vm_compute. reflexivity. Qed.

Example demo_header :
  rendered
    (Run Demo.env mergeSortSlice
       {| Version := "2.0.1"; Header := "H:{{.Version}}" +:+ newline;
          HeaderFile := ""; Footer := ""; FooterFile := "";
          IncludeMergeCommits := false; FailIfFindCommits := false |}
       Demo.state Demo.gitInfo (Some Demo.twoFixes, None))
  = Some ("H:2.0.1" +:+ newline +:+ "B" +:+ newline).
Proof. vm_compute. reflexivity. Qed.

(** ** The found set and the identifiers that are new to it *)

Lemma markAll_lookup_None ids : forall (seen : gmap string bool) id,
  markAll ids seen !! id = None <-> seen !! id = None /\ ~ In id ids.
Proof.
  unfold markAll. induction ids as [|r ids IH]; intros seen id; simpl.
  - tauto.
  - rewrite IH. destruct (decide (r = id)) as [->|Hne].
    + rewrite lookup_insert_eq. split; [intros [[=] _]|].
      intros [_ Hn]. exfalso. apply Hn. left. reflexivity.
    + rewrite lookup_insert_ne by assumption. tauto.
Qed.

Lemma markAll_app ids1 ids2 (seen : gmap string bool) :
  markAll (ids1 ++ ids2) seen = markAll ids2 (markAll ids1 seen).
Proof. unfold markAll. apply fold_left_app. Qed.

Lemma newRefs_In refs : forall (seen : gmap string bool) id,
  In id (newRefs seen refs) <-> In id refs /\ seen !! id = None.
Proof.
  induction refs as [|r refs IH]; intros seen id; simpl; [tauto|].
  destruct (seen !! r) eqn:E.
  - rewrite IH. split; [tauto|]. intros [[->|Hin] Hnone]; [congruence|tauto].
  - simpl. rewrite IH. destruct (decide (r = id)) as [->|Hne].
    + tauto.
    + rewrite lookup_insert_ne by assumption. tauto.
Qed.

Lemma newRefs_NoDup refs : forall (seen : gmap string bool),
  List.NoDup (newRefs seen refs).
Proof.
  induction refs as [|r refs IH]; intros seen; simpl; [constructor|].
  destruct (seen !! r) eqn:E; [apply IH|].
  constructor; [|apply IH].
  rewrite newRefs_In, lookup_insert_eq. intros [_ [=]].
Qed.

Lemma newRefs_app refs1 : forall (seen : gmap string bool) refs2,
  newRefs seen (refs1 ++ refs2)
  = newRefs seen refs1 ++ newRefs (markAll (newRefs seen refs1) seen) refs2.
Proof.
  induction refs1 as [|r refs1 IH]; intros seen refs2; simpl; [reflexivity|].
  destruct (seen !! r) eqn:E; [apply IH|].
  simpl. rewrite IH. reflexivity.
Qed.

Lemma seenAfter_nil env (seen : gmap string bool) : seenAfter env seen [] = seen.
Proof. reflexivity. Qed.

Lemma seenAfter_cons env (seen : gmap string bool) c commits :
  seenAfter env seen (c :: commits)
  = seenAfter env (markAll (newRefs seen (references env c)) seen) commits.
Proof.
  unfold seenAfter. simpl. rewrite newRefs_app, markAll_app. reflexivity.
Qed.

Lemma seenAfter_lookup_None env commits : forall (seen : gmap string bool) id,
  seenAfter env seen commits !! id = None
  <-> seen !! id = None /\ forall c, In c commits -> ~ In id (references env c).
Proof.
  induction commits as [|c commits IH]; intros seen id.
  - rewrite seenAfter_nil. simpl. tauto.
  - rewrite seenAfter_cons, IH, markAll_lookup_None, newRefs_In. simpl.
    split.
    + intros [[Hs Hn] Hrest]. split; [exact Hs|].
      intros c' [<-|Hc']; [tauto | auto].
    + intros [Hs Hall]. split; [split; [exact Hs|]|].
      * intros [Hin _]. exact (Hall c (or_introl eq_refl) Hin).
      * intros c' Hc'. apply Hall. right. exact Hc'.
Qed.

(** ** The issue enricher as a function of the new identifiers *)

Lemma addIssueIDs_fold ids : forall m s u b au co ids0,
  fold_left CommitSummary.addIssueID ids (CommitSummary.mk m s u b au co ids0)
  = CommitSummary.mk m s u b au co (ids0 ++ ids).
Proof.
  induction ids as [|id ids IH]; intros; simpl.
  - rewrite app_nil_r. reflexivity.
  - unfold CommitSummary.addIssueID at 2. simpl. rewrite IH, <- app_assoc.
    reflexivity.
Qed.

Lemma afterRefs_nil env a : afterRefs env a [] = a.
Proof.
  destruct a as [[found logged] s calls]. unfold afterRefs. simpl.
  rewrite app_nil_r. reflexivity.
Qed.

Lemma routeIssue_failed env s id :
  lookupOk env id = false -> routeIssue env s id = s.
Proof.
  unfold lookupOk, routeIssue.
  destruct (GetIssue env id) as [[issue|] [err|]]; intros Hfail;
    try reflexivity.
  discriminate Hfail.
Qed.

Lemma afterRefs_cons_failed env a id fresh :
  lookupOk env id = false ->
  afterRefs env (calledGetIssue (markFound a id) id) fresh
  = afterRefs env a (id :: fresh).
Proof.
  intros Hfail. unfold afterRefs, calledGetIssue, markFound, markAll. simpl.
  rewrite <- app_assoc, (routeIssue_failed env (spec a) id Hfail).
  reflexivity.
Qed.

Lemma afterRefs_cons_found env a id fresh :
  afterRefs env
    (withSpec (calledGetIssue (markFound a id) id) (routeIssue env (spec a) id))
    fresh
  = afterRefs env a (id :: fresh).
Proof.
  unfold afterRefs, calledGetIssue, markFound, withSpec, markAll. simpl.
  rewrite <- app_assoc. reflexivity.
Qed.

(** One submatch: already found, looked up in vain, or looked up and
    recorded. *)
Lemma addResult_seen env a commit r b :
  FoundIssueNames (state a) !! TrimPrefix r "#" = Some b ->
  addResult env (a, commit) r = (a, commit).
Proof. intros Hseen. unfold addResult. rewrite Hseen. reflexivity. Qed.

Lemma addResult_failed env a commit r :
  FoundIssueNames (state a) !! TrimPrefix r "#" = None ->
  lookupOk env (TrimPrefix r "#") = false ->
  addResult env (a, commit) r
  = (calledGetIssue (markFound a (TrimPrefix r "#")) (TrimPrefix r "#"), commit).
Proof.
  intros Hnew. unfold addResult, lookupOk. rewrite Hnew.
  destruct (GetIssue env (TrimPrefix r "#")) as [[issue|] [err|]];
    intros Hfail; try reflexivity.
  discriminate Hfail.
Qed.

Lemma addResult_found env a commit r :
  FoundIssueNames (state a) !! TrimPrefix r "#" = None ->
  lookupOk env (TrimPrefix r "#") = true ->
  addResult env (a, commit) r
  = (withSpec
       (calledGetIssue (markFound a (TrimPrefix r "#")) (TrimPrefix r "#"))
       (routeIssue env (spec a) (TrimPrefix r "#")),
     CommitSummary.addIssueID commit (TrimPrefix r "#")).
Proof.
  intros Hnew. unfold addResult, lookupOk, routeIssue. rewrite Hnew.
  destruct (GetIssue env (TrimPrefix r "#")) as [[issue|] [err|]];
    intros Hok; try discriminate Hok.
  destruct (Issue.PullRequest issue); reflexivity.
Qed.

(** The inner loop over a list of submatches: the identifiers that are new
    to the found set are looked up, once each and in order; the ones whose
    lookup succeeded go to the commit and to the release record. *)
Lemma addResult_fold env results : forall a commit,
  fold_left (addResult env) results (a, commit)
  = let fresh := newRefs (FoundIssueNames (state a))
                   (map (fun result => TrimPrefix result "#") results) in
    (afterRefs env a fresh,
     fold_left CommitSummary.addIssueID (List.filter (lookupOk env) fresh) commit).
Proof.
  induction results as [|r results IH]; intros a commit;
    cbn [fold_left map newRefs].
  - cbv zeta. cbn [newRefs List.filter fold_left].
    rewrite afterRefs_nil. reflexivity.
  - cbv zeta.
    destruct (FoundIssueNames (state a) !! TrimPrefix r "#") eqn:Eseen.
    + rewrite (addResult_seen env a commit r b Eseen). apply IH.
    + destruct (lookupOk env (TrimPrefix r "#")) eqn:Eok.
      * rewrite (addResult_found env a commit r Eseen Eok), IH. cbv zeta.
        cbn [List.filter]. rewrite Eok. cbn [fold_left].
        rewrite afterRefs_cons_found. reflexivity.
      * rewrite (addResult_failed env a commit r Eseen Eok), IH. cbv zeta.
        cbn [List.filter]. rewrite Eok.
        rewrite (afterRefs_cons_failed env a _ _ Eok). reflexivity.
Qed.

Lemma fold_left_concat {A B} (f : A -> B -> A) (ls : list (list B)) : forall acc,
  fold_left (fun acc l => fold_left f l acc) ls acc = fold_left f (concat ls) acc.
Proof.
  induction ls as [|l ls IH]; intros acc; simpl; [reflexivity|].
  rewrite fold_left_app. apply IH.
Qed.

Lemma addIssuesAndPullRequests_spec env a commit rawCommit :
  addIssuesAndPullRequests env a commit rawCommit
  = let a0 := if LoggedIssueKind (state a) then a else markLogged a in
    let fresh := newRefs (FoundIssueNames (state a)) (references env rawCommit) in
    (afterRefs env a0 fresh,
     fold_left CommitSummary.addIssueID (List.filter (lookupOk env) fresh) commit,
     None).
Proof.
  unfold addIssuesAndPullRequests, references.
  rewrite fold_left_concat, addResult_fold. simpl.
  destruct (LoggedIssueKind (state a)); reflexivity.
Qed.

Lemma addCommit_spec env a commit :
  addCommit env a commit
  = let a0 := if LoggedIssueKind (state a) then a else markLogged a in
    let fresh := newRefs (FoundIssueNames (state a)) (references env commit) in
    withSpec (afterRefs env a0 fresh)
      (ReleaseSpec.addCommit (fold_left (routeIssue env) fresh (spec a))
         (summaryOf env commit (List.filter (lookupOk env) fresh))).
Proof.
  unfold addCommit. rewrite addIssuesAndPullRequests_spec. simpl.
  rewrite addIssueIDs_fold. simpl.
  destruct (LoggedIssueKind (state a)); reflexivity.
Qed.

(** ** The commit loop *)

Lemma routeIssue_fold env ids : forall s,
  ReleaseSpec.Commits (fold_left (routeIssue env) ids s) = ReleaseSpec.Commits s
  /\ ReleaseSpec.Issues (fold_left (routeIssue env) ids s)
     = ReleaseSpec.Issues s ++ issuesOf env ids
  /\ ReleaseSpec.PullRequests (fold_left (routeIssue env) ids s)
     = ReleaseSpec.PullRequests s ++ pullRequestsOf env ids
  /\ metadata (fold_left (routeIssue env) ids s) = metadata s.
Proof.
  induction ids as [|id ids IH]; intros s; cbn [fold_left].
  - unfold issuesOf, pullRequestsOf. simpl. rewrite !app_nil_r. auto.
  - destruct (IH (routeIssue env s id)) as (Hc & Hi & Hp & Hm).
    rewrite Hc, Hi, Hp, Hm. clear.
    unfold issuesOf, pullRequestsOf, routeIssue. cbn [flat_map].
    destruct (GetIssue env id) as [[issue|] [err|]];
      try (rewrite ?app_nil_l; auto; fail).
    destruct (Issue.PullRequest issue); cbn [ReleaseSpec.Commits
      ReleaseSpec.Issues ReleaseSpec.PullRequests ReleaseSpec.addIssue
      ReleaseSpec.addPullRequest]; rewrite <- ?app_assoc; auto.
Qed.

Lemma issuesOf_app env ids1 ids2 :
  issuesOf env (ids1 ++ ids2) = issuesOf env ids1 ++ issuesOf env ids2.
Proof. unfold issuesOf. apply flat_map_app. Qed.

Lemma pullRequestsOf_app env ids1 ids2 :
  pullRequestsOf env (ids1 ++ ids2)
  = pullRequestsOf env ids1 ++ pullRequestsOf env ids2.
Proof. unfold pullRequestsOf. apply flat_map_app. Qed.

Lemma issuesOf_ID env ids :
  map IssueSummary.ID (issuesOf env ids)
  = List.filter (fun id => lookupOk env id && negb (isPullRequest env id)) ids.
Proof.
  unfold issuesOf, lookupOk, isPullRequest.
  induction ids as [|id ids IH]; simpl; [reflexivity|].
  rewrite map_app, IH.
  destruct (GetIssue env id) as [[issue|] [err|]]; try reflexivity.
  destruct (Issue.PullRequest issue); reflexivity.
Qed.

Lemma pullRequestsOf_ID env ids :
  map IssueSummary.ID (pullRequestsOf env ids)
  = List.filter (fun id => lookupOk env id && isPullRequest env id) ids.
Proof.
  unfold pullRequestsOf, lookupOk, isPullRequest.
  induction ids as [|id ids IH]; simpl; [reflexivity|].
  rewrite map_app, IH.
  destruct (GetIssue env id) as [[issue|] [err|]]; try reflexivity.
  destruct (Issue.PullRequest issue); reflexivity.
Qed.

(** The state of the assembly after the commits [commits] have gone
    through [addCommit]. *)
Lemma addCommit_fold env commits : forall a,
  let a' := fold_left (addCommit env) commits a in
  let fresh := newRefs (FoundIssueNames (state a))
                 (flat_map (references env) commits) in
  FoundIssueNames (state a') = markAll fresh (FoundIssueNames (state a))
  /\ getIssueCalls a' = getIssueCalls a ++ fresh
  /\ ReleaseSpec.Commits (spec a')
     = ReleaseSpec.Commits (spec a)
       ++ summaries env (FoundIssueNames (state a)) commits
  /\ ReleaseSpec.Issues (spec a')
     = ReleaseSpec.Issues (spec a) ++ issuesOf env fresh
  /\ ReleaseSpec.PullRequests (spec a')
     = ReleaseSpec.PullRequests (spec a) ++ pullRequestsOf env fresh
  /\ metadata (spec a') = metadata (spec a).
Proof.
  induction commits as [|c commits IH]; intros a; cbv zeta.
  - simpl. unfold issuesOf, pullRequestsOf. simpl. rewrite !app_nil_r.
    repeat split; reflexivity.
  - cbn [fold_left flat_map summaries]. cbv zeta.
    specialize (IH (addCommit env a c)). cbv zeta in IH.
    destruct IH as (Hf & Hcalls & Hc & Hi & Hp & Hm).
    rewrite Hf, Hcalls, Hc, Hi, Hp, Hm. clear Hf Hcalls Hc Hi Hp Hm.
    rewrite addCommit_spec. cbv zeta.
    set (fresh := newRefs (FoundIssueNames (state a)) (references env c)).
    destruct (routeIssue_fold env fresh (spec a)) as (Rc & Ri & Rp & Rm).
    assert (Hfound :
      FoundIssueNames
        (state (withSpec
           (afterRefs env (if LoggedIssueKind (state a) then a else markLogged a)
              fresh)
           (ReleaseSpec.addCommit (fold_left (routeIssue env) fresh (spec a))
              (summaryOf env c (List.filter (lookupOk env) fresh)))))
      = markAll fresh (FoundIssueNames (state a)))
      by (destruct (LoggedIssueKind (state a)); reflexivity).
    assert (Hcalls :
      getIssueCalls
        (withSpec
           (afterRefs env (if LoggedIssueKind (state a) then a else markLogged a)
              fresh)
           (ReleaseSpec.addCommit (fold_left (routeIssue env) fresh (spec a))
              (summaryOf env c (List.filter (lookupOk env) fresh))))
      = getIssueCalls a ++ fresh)
      by (destruct (LoggedIssueKind (state a)); reflexivity).
    rewrite Hfound, Hcalls. cbn [spec withSpec].
    cbn [ReleaseSpec.Commits ReleaseSpec.Issues ReleaseSpec.PullRequests
         ReleaseSpec.addCommit].
    rewrite Rc, Ri, Rp, newRefs_app, markAll_app, issuesOf_app,
      pullRequestsOf_app, <- !app_assoc.
    repeat split; try reflexivity.
    rewrite <- Rm. reflexivity.
Qed.

Lemma addCommits_included env o commits a :
  addCommits env o (withoutReleaseCommit commits) a
  = fold_left (addCommit env) (includedCommits o commits) a.
Proof.
  unfold addCommits, includedCommits, keptCommits.
  destruct (withoutReleaseCommit commits) as [l|]; [|reflexivity].
  revert a. induction l as [|c l IH]; intros a; simpl; [reflexivity|].
  destruct (isIncluded o c); simpl; apply IH.
Qed.

(** The release record that [Run] builds, in terms of the included
    commits. *)
Lemma buildRelease_spec env sortSlice o st gitInfo commits :
  let a := buildRelease env sortSlice o st gitInfo commits in
  let included := includedCommits o commits in
  let fresh := newRefs ∅ (flat_map (references env) included) in
  getIssueCalls a = fresh
  /\ ReleaseSpec.Commits (spec a) = summaries env ∅ included
  /\ ReleaseSpec.Issues (spec a) = issuesOf env fresh
  /\ ReleaseSpec.PullRequests (spec a) = pullRequestsOf env fresh
  /\ ReleaseSpec.Version (spec a)
     = (if String.eqb (Version o) "" then SpecVersion else Version o).
Proof.
  cbv zeta. unfold buildRelease. rewrite addCommits_included.
  match goal with
  | |- context [fold_left (addCommit env) ?l ?a0] =>
      destruct (addCommit_fold env l a0) as (_ & Hcalls & Hc & Hi & Hp & Hm)
  end.
  cbn [spec withSpec getIssueCalls state FoundIssueNames] in *.
  cbn [ReleaseSpec.Commits ReleaseSpec.Issues ReleaseSpec.PullRequests
       ReleaseSpec.Version ReleaseSpec.setDependencyUpdates].
  rewrite Hcalls, Hc, Hi, Hp.
  repeat split; try reflexivity.
  unfold metadata in Hm. injection Hm as _ Hv _ _ _ _ _ _.
  rewrite Hv. reflexivity.
Qed.

Lemma summaries_length env commits : forall (seen : gmap string bool),
  length (summaries env seen commits) = length commits.
Proof.
  induction commits as [|c commits IH]; intros seen; simpl; [reflexivity|].
  rewrite IH. reflexivity.
Qed.

Lemma summaries_SHA env commits : forall (seen : gmap string bool),
  map CommitSummary.SHA (summaries env seen commits) = map Commit.Hash commits.
Proof.
  induction commits as [|c commits IH]; intros seen; simpl; [reflexivity|].
  rewrite IH. reflexivity.
Qed.

(** The summary of a commit inside the list: it is assembled with the found
    set its predecessors left. *)
Lemma summaries_app env pre : forall (seen : gmap string bool) c post,
  summaries env seen (pre ++ c :: post)
  = summaries env seen pre
    ++ summaryOf env c
         (List.filter (lookupOk env)
            (newRefs (seenAfter env seen pre) (references env c)))
    :: summaries env
         (markAll (newRefs (seenAfter env seen pre) (references env c))
            (seenAfter env seen pre))
         post.
Proof.
  induction pre as [|p pre IH]; intros seen c post.
  - rewrite seenAfter_nil. reflexivity.
  - cbn [app summaries]. cbv zeta. rewrite IH, seenAfter_cons. reflexivity.
Qed.

Lemma isIncluded_count o l :
  length (List.filter (isIncluded o) l) = countedCommits o l.
Proof.
  unfold countedCommits, isIncluded.
  destruct (IncludeMergeCommits o); simpl.
  - rewrite List.filter_length.
    clear. induction l as [|c l IH]; simpl; [reflexivity|]. rewrite IH.
    reflexivity.
  - rewrite Nat.add_0_r. reflexivity.
Qed.

Lemma NoDup_filter_app {A} (f g : A -> bool) l :
  (forall x, f x = true -> g x = false) -> List.NoDup l ->
  List.NoDup (List.filter f l ++ List.filter g l).
Proof.
  intros Hfg Hnd. induction Hnd as [|x l Hx Hnd IH]; simpl; [constructor|].
  destruct (f x) eqn:Ef.
  - rewrite (Hfg x Ef). simpl. constructor; [|exact IH].
    rewrite in_app_iff, !filter_In. tauto.
  - destruct (g x) eqn:Eg; [|exact IH].
    apply NoDup_Add with (a := x) (l := List.filter f l ++ List.filter g l).
    + apply Add_app.
    + split; [exact IH|]. rewrite in_app_iff, !filter_In. tauto.
Qed.

(** ** Claims about the commit assembler and the issue enricher *)

(** C1, as stated, fails: of two commits whose messages both contain
    [fixes #42], the release record holds one issue summary with ID 42, and
    the summary of the second commit does not list 42. *)
Lemma C1_second_reference_not_attached :
  ~ everyReferenceAttached Demo.env
      (includedCommits Demo.options (Some Demo.twoFixes))
      (Demo.release Demo.twoFixes).
Proof.
  intros Hclaim.
  assert (In "42" (CommitSummary.IssueIDs
                     (summaryOf Demo.env (Demo.commit "c2" "also fixes #42" ["c1"]) [])))
    as Habs.
  { apply (Hclaim 1 (Demo.commit "c2" "also fixes #42" ["c1"])).
    - reflexivity.
    - vm_compute. reflexivity.
    - vm_compute. left. reflexivity.
    - vm_compute. left. reflexivity. }
  destruct Habs.
Qed.

(** C1, amended: an identifier is listed by the summary of a commit exactly
    when the commit's message references it, its lookup succeeded and no
    earlier included commit references it: it is attached to the first
    commit that references it and to no other.  The issue summaries of the
    release record have pairwise different identifiers. *)
Theorem C1_issue_attached_to_first_reference env sortSlice o st gitInfo commits :
  let release := spec (buildRelease env sortSlice o st gitInfo commits) in
  List.NoDup (map IssueSummary.ID (allIssues release))
  /\ forall pre c post,
       includedCommits o commits = pre ++ c :: post ->
       exists spre cs spost,
         ReleaseSpec.Commits release = spre ++ cs :: spost
         /\ length spre = length pre
         /\ CommitSummary.SHA cs = Commit.Hash c
         /\ forall id,
              In id (CommitSummary.IssueIDs cs)
              <-> In id (messageReferences env c) /\ lookupOk env id = true
                  /\ forall c', In c' pre -> ~ In id (messageReferences env c').
Proof.
  cbv zeta.
  destruct (buildRelease_spec env sortSlice o st gitInfo commits)
    as (_ & Hc & Hi & Hp & _).
  split.
  - unfold allIssues. rewrite Hi, Hp, map_app, issuesOf_ID, pullRequestsOf_ID.
    apply NoDup_filter_app; [|apply newRefs_NoDup].
    intros x. destruct (lookupOk env x), (isPullRequest env x); simpl; congruence.
  - intros pre c post Hsplit. rewrite Hc, Hsplit, summaries_app.
    eexists _, _, _. split; [reflexivity|].
    split; [apply summaries_length|]. split; [reflexivity|].
    intros id. cbn [summaryOf CommitSummary.IssueIDs].
    rewrite filter_In, newRefs_In, seenAfter_lookup_None, lookup_empty,
      references_message.
    split.
    + intros [[Href [_ Hpre]] Hok]. repeat split; auto.
      intros c' Hc'. rewrite <- references_message. auto.
    + intros [Href [Hok Hpre]]. repeat split; auto.
      intros c' Hc'. rewrite references_message. auto.
Qed.

Lemma C1_issue_attached_to_first_reference_witness :
  exists spre cs spost,
    ReleaseSpec.Commits (Demo.release Demo.twoFixes) = spre ++ cs :: spost
    /\ length spre = 1
    /\ CommitSummary.SHA cs = "c2"
    /\ forall id,
         In id (CommitSummary.IssueIDs cs)
         <-> In id (messageReferences Demo.env
                      (Demo.commit "c2" "also fixes #42" ["c1"]))
             /\ lookupOk Demo.env id = true
             /\ forall c', In c' [Demo.commit "c1" "fixes #42" ["c0"]] ->
                  ~ In id (messageReferences Demo.env c').
Proof.
  apply (proj2 (C1_issue_attached_to_first_reference Demo.env mergeSortSlice
                  Demo.options Demo.state Demo.gitInfo (Some Demo.twoFixes))
           [Demo.commit "c1" "fixes #42" ["c0"]]
           (Demo.commit "c2" "also fixes #42" ["c1"]) []).
  reflexivity.
Defined.

(** C3, as stated, fails: a fetched list that consists of the release commit
    has one commit with at most one parent, and the release record has no
    commit summary. *)
Lemma C3_release_commit_not_counted :
  length (ReleaseSpec.Commits (Demo.release Demo.releaseFirst))
  <> countedCommits Demo.options Demo.releaseFirst.
Proof. vm_compute. discriminate. Qed.

(** C3, amended: the number of commit summaries is the number of commits
    with at most one parent, plus the number of merge commits when they are
    included, counted in the fetched list without its leading release
    commit. *)
Theorem C3_commit_summaries_counted env sortSlice o st gitInfo commits :
  length (ReleaseSpec.Commits (spec (buildRelease env sortSlice o st gitInfo commits)))
  = countedCommits o (keptCommits commits).
Proof.
  destruct (buildRelease_spec env sortSlice o st gitInfo commits)
    as (_ & Hc & _).
  rewrite Hc, summaries_length. apply isIncluded_count.
Qed.

(** C4: in a run the tracker is asked for an identifier at most once,
    however many commits or submatches reference it. *)
Theorem C4_GetIssue_at_most_once env sortSlice o st gitInfo commits id :
  count_occ string_dec
    (getIssueCalls (buildRelease env sortSlice o st gitInfo commits)) id <= 1.
Proof.
  destruct (buildRelease_spec env sortSlice o st gitInfo commits)
    as (Hcalls & _).
  rewrite Hcalls. apply NoDup_count_occ. apply newRefs_NoDup.
Qed.

(** C7: a lookup that fails is skipped and nothing aborts.
    [addIssuesAndPullRequests] never returns an error; a new identifier
    whose lookup fails is marked as found and changes nothing else in the
    release record or the commit, and the loop goes on with the remaining
    submatches; every included commit gets
    its summary; every identifier that is new is looked up, and the ones
    whose lookup succeeded are the issues and pull requests of the release
    record. *)
Theorem C7_failed_lookup_is_skipped env sortSlice o st gitInfo commits :
  (forall a commit rawCommit,
     snd (addIssuesAndPullRequests env a commit rawCommit) = None)
  /\ (forall a commit r rest,
        FoundIssueNames (state a) !! TrimPrefix r "#" = None ->
        lookupOk env (TrimPrefix r "#") = false ->
        fold_left (addResult env) (r :: rest) (a, commit)
        = fold_left (addResult env) rest
            (calledGetIssue (markFound a (TrimPrefix r "#")) (TrimPrefix r "#"),
             commit))
  /\ let a := buildRelease env sortSlice o st gitInfo commits in
     let included := includedCommits o commits in
     length (ReleaseSpec.Commits (spec a)) = length included
     /\ getIssueCalls a = newRefs ∅ (flat_map (references env) included)
     /\ map IssueSummary.ID (ReleaseSpec.Issues (spec a))
        = List.filter (fun id => lookupOk env id && negb (isPullRequest env id))
            (getIssueCalls a)
     /\ map IssueSummary.ID (ReleaseSpec.PullRequests (spec a))
        = List.filter (fun id => lookupOk env id && isPullRequest env id)
            (getIssueCalls a).
Proof.
  split; [|split].
  - intros a commit rawCommit. reflexivity.
  - intros a commit r rest Hnew Hfail. cbn [fold_left].
    rewrite (addResult_failed env a commit r Hnew Hfail). reflexivity.
  - cbv zeta.
    destruct (buildRelease_spec env sortSlice o st gitInfo commits)
      as (Hcalls & Hc & Hi & Hp & _).
    rewrite Hcalls, Hc, Hi, Hp, summaries_length, issuesOf_ID, pullRequestsOf_ID.
    repeat split; reflexivity.
Qed.

(** A failing reference before a good one: 13 is looked up in vain, 42 is
    still found and attached. *)
Lemma C7_failed_lookup_is_skipped_witness :
  fold_left (addResult Demo.env) ["#13"; "#42"]
    (buildRelease Demo.env mergeSortSlice Demo.options Demo.state Demo.gitInfo None,
     summaryOf Demo.env (Demo.commit "c1" "see #13, fixes #42" ["c0"]) [])
  = fold_left (addResult Demo.env) ["#42"]
      (calledGetIssue
         (markFound
            (buildRelease Demo.env mergeSortSlice Demo.options Demo.state
               Demo.gitInfo None) "13") "13",
       summaryOf Demo.env (Demo.commit "c1" "see #13, fixes #42" ["c0"]) []).
Proof.
  apply (proj1 (proj2 (C7_failed_lookup_is_skipped Demo.env mergeSortSlice
                         Demo.options Demo.state Demo.gitInfo None))
           (buildRelease Demo.env mergeSortSlice Demo.options Demo.state
              Demo.gitInfo None)
           (summaryOf Demo.env (Demo.commit "c1" "see #13, fixes #42" ["c0"]) [])
           "#13" ["#42"]).
  - vm_compute. reflexivity.
  - vm_compute. reflexivity.
Defined.

(** C10: when the first fetched commit's message starts with [release ],
    the commit loop runs over the rest: the summaries are those of the
    included commits of the rest, whatever the number of parents of the
    release commit, and its hash is not among them unless a later commit
    has it too; the tracker is asked for references of the rest only. *)
Theorem C10_release_commit_removed env sortSlice o st gitInfo first rest :
  HasPrefix (Commit.Message first) "release " = true ->
  let a := buildRelease env sortSlice o st gitInfo (Some (first :: rest)) in
  ReleaseSpec.Commits (spec a) = summaries env ∅ (List.filter (isIncluded o) rest)
  /\ map CommitSummary.SHA (ReleaseSpec.Commits (spec a))
     = map Commit.Hash (List.filter (isIncluded o) rest)
  /\ (~ In (Commit.Hash first) (map Commit.Hash rest) ->
      ~ In (Commit.Hash first) (map CommitSummary.SHA (ReleaseSpec.Commits (spec a))))
  /\ getIssueCalls a
     = newRefs ∅ (flat_map (references env) (List.filter (isIncluded o) rest)).
Proof.
  intros Hrelease. cbv zeta.
  destruct (buildRelease_spec env sortSlice o st gitInfo (Some (first :: rest)))
    as (Hcalls & Hc & _).
  assert (Hinc : includedCommits o (Some (first :: rest))
                 = List.filter (isIncluded o) rest).
  { unfold includedCommits, keptCommits, withoutReleaseCommit.
    rewrite Hrelease. reflexivity. }
  rewrite Hinc in Hcalls, Hc. rewrite Hc, Hcalls, summaries_SHA.
  repeat split; try reflexivity.
  intros Hnot Hin. apply Hnot.
  rewrite in_map_iff in Hin. destruct Hin as (c & Hhash & Hc').
  apply filter_In in Hc' as [Hc' _].
  rewrite in_map_iff. exists c. auto.
Qed.

Lemma C10_release_commit_removed_witness :
  ReleaseSpec.Commits (Demo.release Demo.releaseFirst) = []
  /\ map CommitSummary.SHA (ReleaseSpec.Commits (Demo.release Demo.releaseFirst)) = []
  /\ (~ In "r1" [] ->
      ~ In "r1" (map CommitSummary.SHA
                   (ReleaseSpec.Commits (Demo.release Demo.releaseFirst))))
  /\ getIssueCalls
       (buildRelease Demo.env mergeSortSlice Demo.options Demo.state Demo.gitInfo
          (Some Demo.releaseFirst)) = [].
Proof.
  apply (C10_release_commit_removed Demo.env mergeSortSlice Demo.options
           Demo.state Demo.gitInfo (Demo.commit "r1" "release 2.0.0" ["c2"]) []).
  reflexivity.
Defined.

(** ** Claims about the renderer *)

Lemma getTemplateResult_unset env s name :
  getTemplateResult env s name "" "" = ("", None).
Proof. reflexivity. Qed.

Lemma getTemplateResult_text_fails env s name text file e :
  text <> "" -> templateFails env s name text e ->
  snd (getTemplateResult env s name text file) = Some e.
Proof.
  intros Htext Hfail. unfold getTemplateResult.
  apply String.eqb_neq in Htext. rewrite Htext.
  destruct Hfail as [Hparse | (execute & out & Hparse & Hexec)];
    rewrite Hparse; [reflexivity|].
  rewrite Hexec. reflexivity.
Qed.

Lemma getTemplateResult_file_fails env s name file data e :
  file <> "" -> ReadFile env file = (data, None) -> data <> "" ->
  templateFails env s name data e ->
  snd (getTemplateResult env s name "" file) = Some e.
Proof.
  intros Hfile Hread Hdata Hfail. unfold getTemplateResult.
  apply String.eqb_neq in Hfile, Hdata.
  cbn [String.eqb]. rewrite Hfile, Hread, Hdata.
  destruct Hfail as [Hparse | (execute & out & Hparse & Hexec)];
    rewrite Hparse; [reflexivity|].
  rewrite Hexec. reflexivity.
Qed.

Lemma Run_accepted env sortSlice o st gitInfo commits fetchErr :
  fetchAccepted o fetchErr ->
  Run env sortSlice o st gitInfo (commits, fetchErr)
  = let a := buildRelease env sortSlice o st gitInfo commits in
    match renderMarkdown env o gitInfo a with
    | inr err =>
        {| returned := Some err; outputs := []; assembled := Some a;
           rendered := None |}
    | inl markdown =>
        let (outs, err) := deliver env o (spec a) markdown in
        {| returned := err; outputs := outs; assembled := Some a;
           rendered := Some markdown |}
    end.
Proof.
  intros [-> | Hflag]; unfold Run; [reflexivity|].
  rewrite Hflag. destruct fetchErr; reflexivity.
Qed.

(** C8: the final markdown is header, body and footer concatenated; a
    header or footer that is not configured is the empty string and no
    error; with the header template [H:{{.Version}}] and a newline, version
    2.0.1, no footer and the body [B] and a newline, on a template engine
    that puts the version of the record for [{{.Version}}], the result is
    [H:2.0.1], newline, [B], newline. *)
Theorem C8_markdown_is_header_body_footer env sortSlice o st gitInfo commits
    fetchErr :
  let a := buildRelease env sortSlice o st gitInfo commits in
  let result := Run env sortSlice o st gitInfo (commits, fetchErr) in
  fetchAccepted o fetchErr ->
  (forall body header footer,
     GenerateMarkdown env (spec a) gitInfo = (body, None) ->
     getTemplateResult env (spec a) "header" (Header o) (HeaderFile o)
     = (header, None) ->
     getTemplateResult env (spec a) "footer" (Footer o) (FooterFile o)
     = (footer, None) ->
     rendered result = Some (header +:+ (body +:+ footer)))
  /\ (forall s name, getTemplateResult env s name "" "" = ("", None))
  /\ (Version o = "2.0.1" ->
      Header o = "H:{{.Version}}" +:+ newline ->
      Footer o = "" -> FooterFile o = "" ->
      GenerateMarkdown env (spec a) gitInfo = ("B" +:+ newline, None) ->
      (exists execute,
         ParseTemplate env "header" ("H:{{.Version}}" +:+ newline) = inl execute
         /\ forall s, execute s = ("H:" +:+ ReleaseSpec.Version s +:+ newline, None)) ->
      rendered result = Some ("H:2.0.1" +:+ newline +:+ "B" +:+ newline)).
Proof.
  cbv zeta. intros Hfetch.
  rewrite (Run_accepted _ _ _ _ _ _ _ Hfetch). cbv zeta.
  assert (Hconcat : forall body header footer,
    GenerateMarkdown env (spec (buildRelease env sortSlice o st gitInfo commits))
      gitInfo = (body, None) ->
    getTemplateResult env (spec (buildRelease env sortSlice o st gitInfo commits))
      "header" (Header o) (HeaderFile o) = (header, None) ->
    getTemplateResult env (spec (buildRelease env sortSlice o st gitInfo commits))
      "footer" (Footer o) (FooterFile o) = (footer, None) ->
    rendered
      match renderMarkdown env o gitInfo
              (buildRelease env sortSlice o st gitInfo commits) with
      | inl markdown =>
          let (outs, err) :=
            deliver env o
              (spec (buildRelease env sortSlice o st gitInfo commits)) markdown in
          {| returned := err; outputs := outs;
             assembled := Some (buildRelease env sortSlice o st gitInfo commits);
             rendered := Some markdown |}
      | inr err =>
          {| returned := Some err; outputs := [];
             assembled := Some (buildRelease env sortSlice o st gitInfo commits);
             rendered := None |}
      end = Some (header +:+ (body +:+ footer))).
  { intros body header footer Hbody Hheader Hfooter.
    unfold renderMarkdown. rewrite Hbody, Hheader, Hfooter.
    destruct (deliver env o _ _). reflexivity. }
  split; [exact Hconcat|]. split; [intros; reflexivity|].
  intros Hversion Hheader Hfooter Hfile Hbody (execute & Hparse & Hexec).
  rewrite (Hconcat ("B" +:+ newline) ("H:2.0.1" +:+ newline) "" Hbody).
  - reflexivity.
  - rewrite Hheader. unfold getTemplateResult.
    change (String.eqb ("H:{{.Version}}" +:+ newline) "") with false.
    cbv iota. rewrite Hparse, Hexec.
    destruct (buildRelease_spec env sortSlice o st gitInfo commits)
      as (_ & _ & _ & _ & Hv).
    rewrite Hv, Hversion. reflexivity.
  - rewrite Hfooter, Hfile. reflexivity.
Qed.

Lemma C8_markdown_is_header_body_footer_witness :
  rendered
    (Run Demo.env mergeSortSlice (DemoTemplates.withHeader DemoTemplates.versionHeader)
       Demo.state Demo.gitInfo (Some Demo.twoFixes, None))
  = Some ("H:2.0.1" +:+ newline +:+ "B" +:+ newline).
Proof.
  apply (proj2 (proj2
    (C8_markdown_is_header_body_footer Demo.env mergeSortSlice
       (DemoTemplates.withHeader DemoTemplates.versionHeader) Demo.state
       Demo.gitInfo (Some Demo.twoFixes) None (or_introl eq_refl)))).
  - reflexivity.
  - reflexivity.
  - reflexivity.
  - reflexivity.
  - reflexivity.
  - eexists. split; [vm_compute; reflexivity|].
    intros s. cbv beta. vm_compute. reflexivity.
Defined.

(** C9: a header or footer template that fails to parse or to execute ends
    the run with that error before anything is handed to the sinks.  A
    configured template text (given directly or read from the file) that
    fails makes [getTemplateResult] return the error; when the header
    returns an error, or the header succeeds and the footer returns an
    error, [Run] returns that error, produces no output and renders no
    markdown. *)
Theorem C9_template_error_aborts env sortSlice o st gitInfo commits fetchErr e :
  let a := buildRelease env sortSlice o st gitInfo commits in
  let header := getTemplateResult env (spec a) "header" (Header o) (HeaderFile o) in
  let footer := getTemplateResult env (spec a) "footer" (Footer o) (FooterFile o) in
  let result := Run env sortSlice o st gitInfo (commits, fetchErr) in
  fetchAccepted o fetchErr ->
  snd (GenerateMarkdown env (spec a) gitInfo) = None ->
  (forall name text file,
     text <> "" -> templateFails env (spec a) name text e ->
     snd (getTemplateResult env (spec a) name text file) = Some e)
  /\ (forall name file data,
        file <> "" -> ReadFile env file = (data, None) -> data <> "" ->
        templateFails env (spec a) name data e ->
        snd (getTemplateResult env (spec a) name "" file) = Some e)
  /\ (snd header = Some e \/ (snd header = None /\ snd footer = Some e) ->
      returned result = Some e /\ outputs result = [] /\ rendered result = None).
Proof.
  cbv zeta. intros Hfetch Hbody.
  split; [intros; apply getTemplateResult_text_fails; assumption|].
  split; [intros; eapply getTemplateResult_file_fails; eassumption|].
  rewrite (Run_accepted _ _ _ _ _ _ _ Hfetch). cbv zeta.
  unfold renderMarkdown.
  destruct (GenerateMarkdown env _ gitInfo) as [body berr].
  simpl in Hbody. subst berr.
  destruct (getTemplateResult env _ "header" (Header o) (HeaderFile o))
    as [h herr].
  destruct (getTemplateResult env _ "footer" (Footer o) (FooterFile o))
    as [f ferr].
  simpl. intros [-> | [-> ->]]; auto.
Qed.

Lemma C9_template_error_aborts_witness :
  returned
    (Run Demo.env mergeSortSlice (DemoTemplates.withHeader "{{.Oops}}")
       Demo.state Demo.gitInfo (Some Demo.twoFixes, None))
  = Some "template: header: unexpected action"
  /\ outputs
       (Run Demo.env mergeSortSlice (DemoTemplates.withHeader "{{.Oops}}")
          Demo.state Demo.gitInfo (Some Demo.twoFixes, None)) = []
  /\ rendered
       (Run Demo.env mergeSortSlice (DemoTemplates.withHeader "{{.Oops}}")
          Demo.state Demo.gitInfo (Some Demo.twoFixes, None)) = None.
Proof.
  apply (proj2 (proj2
    (C9_template_error_aborts Demo.env mergeSortSlice
       (DemoTemplates.withHeader "{{.Oops}}") Demo.state Demo.gitInfo
       (Some Demo.twoFixes) None "template: header: unexpected action"
       (or_introl eq_refl) eq_refl))).
  left. vm_compute. reflexivity.
Defined.

(** ** The run as a whole *)

(** Past the fetch, the assembly a run reports is the one [buildRelease]
    gives: the tracker is only reached from the commit loop. *)
Lemma Run_assembled env sortSlice o st gitInfo commits fetchErr :
  fetchAccepted o fetchErr ->
  assembled (Run env sortSlice o st gitInfo (commits, fetchErr))
  = Some (buildRelease env sortSlice o st gitInfo commits).
Proof.
  intros Hfetch. rewrite (Run_accepted _ _ _ _ _ _ _ Hfetch). cbv zeta.
  destruct (renderMarkdown env o gitInfo _); [|reflexivity].
  destruct (deliver env o _ _). reflexivity.
Qed.

(** A fetch error with [--fail-if-no-commits] ends the run at once. *)
Lemma Run_fetch_failed env sortSlice o st gitInfo commits err :
  FailIfFindCommits o = true ->
  Run env sortSlice o st gitInfo (commits, Some err)
  = {| returned := Some err; outputs := []; assembled := None; rendered := None |}.
Proof. intros Hflag. unfold Run. rewrite Hflag. reflexivity. Qed.

(** * Further properties *)

(** ** The collapser *)

Lemma collapseFrom_nonempty rest start prev : collapseFrom start prev rest <> [].
Proof.
  revert start prev. induction rest as [|cur rest' IH]; intros start prev; simpl.
  - discriminate.
  - destruct (sameComponent prev cur); [apply IH | discriminate].
Qed.

Lemma sortSlice_In sortSlice l d :
  SortSliceContract sortSlice -> In d (sortSlice l) <-> In d l.
Proof.
  intros [Hperm _]. split; apply Permutation_in;
    [apply Hperm | apply Permutation_sym, Hperm].
Qed.

Lemma collapse_keys_same sortSlice l k :
  SortSliceContract sortSlice ->
  In k (map componentKey (CollapseDependencyUpdates sortSlice l))
  <-> In k (map componentKey l).
Proof.
  intros Hc. unfold CollapseDependencyUpdates. rewrite !in_map_iff. split.
  - intros (o & <- & Ho).
    destruct (collapseEntries_ends _ _ (sortSlice_sorted _ Hc l) Ho)
      as (a & b & -> & Ha & _).
    exists a. split; [reflexivity | apply (sortSlice_In _ _ _ Hc), Ha].
  - intros (d & <- & Hd).
    destruct (collapseEntries_covers (sortSlice l) d) as (o & Ho & Hk);
      [apply (sortSlice_In _ _ _ Hc), Hd|].
    exists o. auto.
Qed.

(** X1: the collapsed list has exactly one record for each different
    (owner, repo, component) of the input; it is never longer than the
    input and it is empty exactly when the input is. *)
Theorem X1_collapse_length sortSlice l :
  SortSliceContract sortSlice ->
  length (CollapseDependencyUpdates sortSlice l) = componentCount l
  /\ length (CollapseDependencyUpdates sortSlice l) <= length l
  /\ (CollapseDependencyUpdates sortSlice l = [] <-> l = []).
Proof.
  intros Hc.
  assert (Hlen : length (CollapseDependencyUpdates sortSlice l) = componentCount l).
  { unfold componentCount.
    rewrite <- (length_map componentKey (CollapseDependencyUpdates sortSlice l)).
    apply Permutation_length, Permutation.NoDup_Permutation.
    - apply collapseEntries_keys_NoDup, (sortSlice_sorted _ Hc).
    - apply List.NoDup_nodup.
    - intros k. rewrite List.nodup_In. apply collapse_keys_same, Hc. }
  split; [exact Hlen|]. split.
  - rewrite Hlen. unfold componentCount.
    rewrite <- (length_map componentKey l). apply List.NoDup_incl_length.
    + apply List.NoDup_nodup.
    + intros k. rewrite List.nodup_In. auto.
  - split.
    + intros Hnil. destruct l as [|d l]; [reflexivity|].
      assert (In (componentKey d) (map componentKey (d :: l))) as Hin
        by (left; reflexivity).
      apply (collapse_keys_same sortSlice _ _ Hc) in Hin.
      rewrite Hnil in Hin. destruct Hin.
    + intros ->. unfold CollapseDependencyUpdates.
      assert (sortSlice [] = []) as ->; [|reflexivity].
      apply Permutation_nil, Permutation_sym, (sortSlice_perm _ Hc).
Qed.

Lemma X1_collapse_length_witness :
  length (CollapseDependencyUpdates mergeSortSlice chainUpdates) = 2
  /\ length (CollapseDependencyUpdates mergeSortSlice chainUpdates) <= 4
  /\ (CollapseDependencyUpdates mergeSortSlice chainUpdates = []
      <-> chainUpdates = []).
Proof.
  apply (X1_collapse_length mergeSortSlice chainUpdates).
  exact mergeSortSlice_contract.
Defined.

Lemma notAfter_componentBefore a b :
  notAfter a b -> componentKey a <> componentKey b -> componentBefore a b.
Proof.
  rewrite notAfter_cmp. intros Hab Hne.
  apply (pair_le_fst cmpComponent cmpVersions) in Hab.
  unfold componentBefore, Cmp.le in *. simpl in Hab.
  destruct (cmpComponent (componentKey a) (componentKey b)) eqn:E;
    [|reflexivity|congruence].
  apply (Cmp.cmp_eq (cmp := cmpComponent)) in E. contradiction.
Qed.

Lemma sorted_distinct_strict l :
  StronglySorted notAfter l -> List.NoDup (map componentKey l) ->
  StronglySorted componentBefore l.
Proof.
  induction 1 as [|x l Hs IH Hall]; intros Hnd; [constructor|].
  simpl in Hnd. apply List.NoDup_cons_iff in Hnd as [Hx Hnd].
  constructor; [apply IH, Hnd|].
  rewrite List.Forall_forall in *. intros y Hy.
  apply notAfter_componentBefore; [apply Hall, Hy|].
  intros E. apply Hx. rewrite E. apply in_map, Hy.
Qed.

(** X2: the collapsed list is in strictly ascending order of (owner, repo,
    component): every record comes before all later ones. *)
Theorem X2_collapse_ascending sortSlice l :
  SortSliceContract sortSlice ->
  StronglySorted componentBefore (CollapseDependencyUpdates sortSlice l).
Proof.
  intros Hc. unfold CollapseDependencyUpdates. apply sorted_distinct_strict.
  - apply collapseEntries_sorted, (sortSlice_sorted _ Hc).
  - apply collapseEntries_keys_NoDup, (sortSlice_sorted _ Hc).
Qed.

Lemma X2_collapse_ascending_witness :
  StronglySorted componentBefore
    (CollapseDependencyUpdates mergeSortSlice chainUpdates).
Proof.
  apply (X2_collapse_ascending mergeSortSlice chainUpdates).
  exact mergeSortSlice_contract.
Defined.

Lemma collapsedEntry_Details d : Details (collapsedEntry d d) = Details d.
Proof. destruct d as [[] ?]. reflexivity. Qed.

(** X3: no collapsed record carries update paths; and a record that is the
    only one of its component (possibly repeated) goes to the output with
    its details unchanged and its paths dropped. *)
Theorem X3_collapse_single_record sortSlice l :
  SortSliceContract sortSlice ->
  (forall o, In o (CollapseDependencyUpdates sortSlice l) -> Paths o = [])
  /\ (forall d, In d l ->
        (forall d', In d' l -> componentKey d' = componentKey d -> d' = d) ->
        In {| Details := Details d; Paths := [] |}
           (CollapseDependencyUpdates sortSlice l)).
Proof.
  intros Hc. unfold CollapseDependencyUpdates. split.
  - intros o. apply collapseEntries_Paths.
  - intros d Hd Honly.
    destruct (collapseEntries_covers (sortSlice l) d) as (o & Ho & Hk);
      [apply (sortSlice_In _ _ _ Hc), Hd|].
    destruct (collapseEntries_ends _ _ (sortSlice_sorted _ Hc l) Ho)
      as (a & b & -> & Ha & Hb & Hab & _).
    rewrite collapsedEntry_key in Hk.
    apply (proj1 (sortSlice_In sortSlice l _ Hc)) in Ha.
    apply (proj1 (sortSlice_In sortSlice l _ Hc)) in Hb.
    assert (a = d) as -> by (apply Honly; assumption).
    assert (b = d) as -> by (apply Honly; [assumption | congruence]).
    replace {| Details := Details d; Paths := [] |} with (collapsedEntry d d);
      [exact Ho|].
    destruct d as [[] ?]. reflexivity.
Qed.

Lemma X3_collapse_single_record_witness :
  (forall o, In o (CollapseDependencyUpdates mergeSortSlice chainUpdates) ->
     Paths o = [])
  /\ (forall d, In d chainUpdates ->
        (forall d', In d' chainUpdates ->
           componentKey d' = componentKey d -> d' = d) ->
        In {| Details := Details d; Paths := [] |}
           (CollapseDependencyUpdates mergeSortSlice chainUpdates)).
Proof.
  apply (X3_collapse_single_record mergeSortSlice chainUpdates).
  exact mergeSortSlice_contract.
Defined.

Lemma notAfter_both_sortKey a b :
  notAfter a b -> notAfter b a -> sortKey a = sortKey b.
Proof.
  rewrite !notAfter_cmp. apply (cmp_le_antisym cmpSortKey).
Qed.

(** The sort key of a collapsed record is decided by its group alone. *)
Lemma collapse_sortKey_in sortA sortB l1 l2 o :
  SortSliceContract sortA -> SortSliceContract sortB -> Permutation l1 l2 ->
  In o (CollapseDependencyUpdates sortA l1) ->
  In (sortKey o) (map sortKey (CollapseDependencyUpdates sortB l2)).
Proof.
  intros HA HB Hperm Ho. unfold CollapseDependencyUpdates in *.
  destruct (collapseEntries_ends _ _ (sortSlice_sorted _ HA l1) Ho)
    as (a & b & -> & Ha & Hb & Hab & Hd).
  assert (Hmove : forall d, In d (sortA l1) <-> In d (sortB l2)).
  { intros d. rewrite (sortSlice_In sortA l1 d HA), (sortSlice_In sortB l2 d HB).
    split; apply Permutation_in; [exact Hperm | apply Permutation_sym, Hperm]. }
  destruct (collapseEntries_covers (sortB l2) a) as (o' & Ho' & Hk);
    [apply Hmove, Ha|].
  destruct (collapseEntries_ends _ _ (sortSlice_sorted _ HB l2) Ho')
    as (a' & b' & -> & Ha' & Hb' & Hab' & Hd').
  rewrite collapsedEntry_key in Hk.
  apply in_map_iff. exists (collapsedEntry a' b'). split; [|exact Ho'].
  assert (Ea : sortKey a' = sortKey a).
  { apply notAfter_both_sortKey.
    - apply (Hd' a); [apply Hmove, Ha | congruence].
    - apply (Hd a'); [apply Hmove, Ha' | exact Hk]. }
  assert (Eb : sortKey b' = sortKey b).
  { apply notAfter_both_sortKey.
    - apply (Hd b'); [apply Hmove, Hb' | congruence].
    - apply (Hd' b); [apply Hmove, Hb | congruence]. }
  unfold sortKey, componentKey in *. simpl. congruence.
Qed.

Lemma sorted_map_sortKey l :
  StronglySorted notAfter l ->
  StronglySorted (Cmp.le cmpSortKey) (map sortKey l).
Proof.
  induction 1 as [|x l Hs IH Hall]; simpl; constructor; [exact IH|].
  rewrite List.Forall_forall in *. intros k (y & <- & Hy)%in_map_iff.
  apply notAfter_cmp, Hall, Hy.
Qed.

Lemma NoDup_map_sortKey l :
  List.NoDup (map componentKey l) -> List.NoDup (map sortKey l).
Proof.
  intros Hnd. apply (List.NoDup_map_inv fst). rewrite map_map. exact Hnd.
Qed.

(** X4: owner, repo, component, from-version and to-version of the collapsed
    records do not depend on the order of the input, nor on how the sort
    orders records it cannot tell apart. *)
Theorem X4_collapse_order_independent sortA sortB l1 l2 :
  SortSliceContract sortA -> SortSliceContract sortB -> Permutation l1 l2 ->
  map sortKey (CollapseDependencyUpdates sortA l1)
  = map sortKey (CollapseDependencyUpdates sortB l2).
Proof.
  intros HA HB Hperm.
  apply (StronglySorted_unique_strong (Cmp.le cmpSortKey)).
  - intros x1 x2 _ _. apply (cmp_le_antisym cmpSortKey).
  - apply sorted_map_sortKey, collapseEntries_sorted, (sortSlice_sorted _ HA).
  - apply sorted_map_sortKey, collapseEntries_sorted, (sortSlice_sorted _ HB).
  - apply Permutation.NoDup_Permutation.
    + apply NoDup_map_sortKey, collapseEntries_keys_NoDup, (sortSlice_sorted _ HA).
    + apply NoDup_map_sortKey, collapseEntries_keys_NoDup, (sortSlice_sorted _ HB).
    + intros k. split; intros (o & <- & Ho)%in_map_iff.
      * apply (collapse_sortKey_in sortA sortB l1 l2); assumption.
      * apply (collapse_sortKey_in sortB sortA l2 l1); try assumption.
        apply Permutation_sym, Hperm.
Qed.

Lemma X4_collapse_order_independent_witness :
  map sortKey (CollapseDependencyUpdates mergeSortSlice chainUpdates)
  = map sortKey (CollapseDependencyUpdates mergeSortSlice (rev chainUpdates)).
Proof.
  apply (X4_collapse_order_independent mergeSortSlice mergeSortSlice
           chainUpdates (rev chainUpdates)).
  - exact mergeSortSlice_contract.
  - exact mergeSortSlice_contract.
  - apply Permutation_rev.
Defined.

(** X5: in a group where a greater from-version never comes with a smaller
    to-version, the collapsed record spans the least from-version and the
    greatest to-version of the group. *)
Theorem X5_collapse_rising_group sortSlice l o :
  SortSliceContract sortSlice ->
  In o (CollapseDependencyUpdates sortSlice l) ->
  versionsRise (group l o) ->
  leastFromVersion (group l o) (FromVersion o)
  /\ greatestToVersion (group l o) (ToVersion o).
Proof.
  intros Hc Ho Hrise. unfold CollapseDependencyUpdates in Ho.
  destruct (collapseEntries_ends _ _ (sortSlice_sorted _ Hc l) Ho)
    as (a & b & -> & Ha & Hb & Hab & Hd).
  apply (proj1 (sortSlice_In sortSlice l _ Hc)) in Ha.
  apply (proj1 (sortSlice_In sortSlice l _ Hc)) in Hb.
  assert (Hga : In a (group l (collapsedEntry a b)))
    by (apply in_group; split; [exact Ha | reflexivity]).
  assert (Hgb : In b (group l (collapsedEntry a b)))
    by (apply in_group; split; [exact Hb | rewrite collapsedEntry_key; congruence]).
  assert (Hends : forall d, In d (group l (collapsedEntry a b)) ->
            notAfter a d /\ notAfter d b).
  { intros d [Hdl Hdk]%in_group. rewrite collapsedEntry_key in Hdk.
    apply Hd; [apply (sortSlice_In _ _ _ Hc), Hdl | exact Hdk]. }
  split; split.
  - exists a. auto.
  - intros d Hdg. destruct (Hends d Hdg) as [Had _].
    apply in_group in Hdg as [_ Hdk]. rewrite collapsedEntry_key in Hdk.
    apply notAfter_versions in Had; [|congruence].
    change (FromVersion (collapsedEntry a b)) with (FromVersion a).
    apply cmpVersions_le in Had as [Hlt | [-> _]].
    + apply string_leb_compare. apply string_ltb_compare in Hlt.
      unfold Cmp.le. rewrite Hlt. discriminate.
    + apply string_leb_compare, (cmp_le_refl String.compare).
  - exists b. auto.
  - intros d Hdg. destruct (Hends d Hdg) as [_ Hdb].
    pose proof Hdg as Hdg'.
    apply in_group in Hdg' as [_ Hdk]. rewrite collapsedEntry_key in Hdk.
    apply notAfter_versions in Hdb; [|congruence].
    change (ToVersion (collapsedEntry a b)) with (ToVersion b).
    apply cmpVersions_le in Hdb as [Hlt | [_ Hle]]; [|exact Hle].
    apply (Hrise d b); assumption.
Qed.

Lemma X5_collapse_rising_group_witness :
  leastFromVersion (group chainUpdates (du "A" "R" "C" "1" "4")) "1"
  /\ greatestToVersion (group chainUpdates (du "A" "R" "C" "1" "4")) "4".
Proof.
  apply (X5_collapse_rising_group mergeSortSlice chainUpdates
           (du "A" "R" "C" "1" "4")).
  - exact mergeSortSlice_contract.
  - vm_compute. left. reflexivity.
  - intros d d' Hd Hd'.
    vm_compute in Hd, Hd'.
    destruct Hd as [<-|[<-|[<-|[]]]]; destruct Hd' as [<-|[<-|[<-|[]]]];
      vm_compute; congruence.
Defined.

(** ** The issue reference extractor *)

Lemma spanWhile_all p s : allBytes p (fst (spanWhile p s)) = true.
Proof.
  induction s as [|c s IH]; simpl; [reflexivity|].
  destruct (p c) eqn:E; [|reflexivity].
  destruct (spanWhile p s) as [m r]. simpl in *. rewrite E, IH. reflexivity.
Qed.

Lemma spanWhile_append p s :
  s = fst (spanWhile p s) +:+ snd (spanWhile p s).
Proof.
  induction s as [|c s IH]; simpl; [reflexivity|].
  destruct (p c); [|reflexivity].
  destruct (spanWhile p s) as [m r]. simpl in *.
  rewrite append_cons, <- IH. reflexivity.
Qed.

Lemma findAll_matchAt re fuel : forall s m,
  In m (findAll fuel re s) -> exists s' r, matchAt re s' = Some (m, r).
Proof.
  induction fuel as [|fuel IH]; intros s m; simpl; [intros []|].
  destruct (matchAt re s) as [[m' r]|] eqn:E.
  - intros [<-|Hin]; [exists s, r; exact E | eapply IH, Hin].
  - destruct s as [|c s']; [intros [] | apply IH].
Qed.

Lemma matchAt_GitHub s m r :
  matchAt GitHubIssueRegex s = Some (m, r) ->
  exists ds, ds <> "" /\ allBytes isDigit ds = true
    /\ m = [String "#" ds; String "#" ds] /\ s = String "#" ds +:+ r.
Proof.
  unfold matchAt. destruct s as [|c s1]; [discriminate|].
  destruct (Ascii.eqb c "#") eqn:Ec; [|discriminate].
  apply Ascii.eqb_eq in Ec. subst c.
  pose proof (spanWhile_all isDigit s1) as Hall.
  pose proof (spanWhile_append isDigit s1) as Happ.
  destruct (spanWhile isDigit s1) as [ds r']. cbn [fst snd] in *.
  destruct (String.eqb ds "") eqn:Eds; [discriminate|].
  intros [= <- <-]. exists ds. apply String.eqb_neq in Eds.
  repeat split; auto. rewrite append_cons, <- Happ. reflexivity.
Qed.

Lemma matchAt_JIRA s m r :
  matchAt JIRAIssueRegex s = Some (m, r) ->
  exists us ds,
    2 <= String.length us /\ allBytes isUpper us = true
    /\ ds <> "" /\ allBytes isDigit ds = true
    /\ m = [us +:+ String "-" ds; ds] /\ s = us +:+ String "-" ds +:+ r.
Proof.
  unfold matchAt.
  pose proof (spanWhile_all isUpper s) as Hup.
  pose proof (spanWhile_append isUpper s) as Happ.
  destruct (spanWhile isUpper s) as [us r1]. cbn [fst snd] in *.
  destruct (2 <=? String.length us)%nat eqn:Elen; [|discriminate].
  apply Nat.leb_le in Elen.
  destruct r1 as [|c r2]; [discriminate|].
  destruct (Ascii.eqb c "-") eqn:Ec; [|discriminate].
  apply Ascii.eqb_eq in Ec. subst c.
  pose proof (spanWhile_all isDigit r2) as Hdig.
  pose proof (spanWhile_append isDigit r2) as Happ2.
  destruct (spanWhile isDigit r2) as [ds r3]. cbn [fst snd] in *.
  destruct (String.eqb ds "") eqn:Eds; [discriminate|].
  intros [= <- <-]. exists us, ds. apply String.eqb_neq in Eds.
  repeat split; auto.
  rewrite Happ at 1. rewrite Happ2 at 1. rewrite append_cons. reflexivity.
Qed.

Lemma substring_full s : substring 0 (String.length s) s = s.
Proof. induction s as [|c s IH]; simpl; [reflexivity|]. rewrite IH. reflexivity. Qed.

Lemma TrimPrefix_hash s : TrimPrefix (String "#" s) "#" = s.
Proof.
  unfold TrimPrefix, HasPrefix. simpl. rewrite Nat.sub_0_r.
  destruct s; [reflexivity|]. apply substring_full.
Qed.

Lemma prefix_cons a b s1 s2 :
  String.prefix (String a s1) (String b s2)
  = if ascii_dec a b then String.prefix s1 s2 else false.
Proof. reflexivity. Qed.

Lemma TrimPrefix_other c s :
  Ascii.eqb c "#" = false -> TrimPrefix (String c s) "#" = String c s.
Proof.
  intros Hc. unfold TrimPrefix, HasPrefix. rewrite prefix_cons.
  destruct (ascii_dec "#" c) as [<-|Hne]; [discriminate Hc | reflexivity].
Qed.

Lemma references_In env commit id :
  In id (references env commit)
  <-> exists m r, In m (FindAllStringSubmatch (issueRegex env)
                          (fullCommitMessageText commit))
                  /\ In r m /\ id = TrimPrefix r "#".
Proof.
  unfold references. rewrite in_map_iff. split.
  - intros (r & <- & Hr). apply in_concat in Hr as (m & Hm & Hrm).
    exists m, r. auto.
  - intros (m & r & Hm & Hr & ->). exists r. split; [reflexivity|].
    apply in_concat. exists m. auto.
Qed.

(** X6: with a git tracker, every identifier taken from a commit message is
    a non-empty string of decimal digits: the [#] is gone and nothing else
    is ever handed to the tracker. *)
Theorem X6_git_references_are_numbers env commit id :
  issueKind env = Git ->
  In id (references env commit) ->
  id <> "" /\ allBytes isDigit id = true.
Proof.
  intros Hkind (m & r & Hm & Hr & ->)%references_In.
  unfold issueRegex in Hm. rewrite Hkind in Hm.
  apply findAll_matchAt in Hm as (s' & rest & Hmatch).
  apply matchAt_GitHub in Hmatch as (ds & Hne & Hdig & -> & _).
  destruct Hr as [<-|[<-|[]]]; rewrite TrimPrefix_hash; auto.
Qed.

Lemma X6_git_references_are_numbers_witness :
  "42" <> "" /\ allBytes isDigit "42" = true.
Proof.
  apply (X6_git_references_are_numbers Demo.env
           (Demo.commit "c1" "fixes #42" ["c0"]) "42").
  - reflexivity.
  - vm_compute. left. reflexivity.
Defined.

Lemma allBytes_head p s :
  allBytes p s = true -> s <> "" -> exists c s', s = String c s' /\ p c = true.
Proof.
  destruct s as [|c s']; [congruence|]. simpl.
  intros [Hc _]%andb_true_iff _. exists c, s'. auto.
Qed.

Lemma isUpper_not_hash c : isUpper c = true -> Ascii.eqb c "#" = false.
Proof.
  intros Hc. destruct (Ascii.eqb_spec c "#") as [->|]; [|reflexivity].
  discriminate Hc.
Qed.

Lemma isDigit_not_hash c : isDigit c = true -> Ascii.eqb c "#" = false.
Proof.
  intros Hc. destruct (Ascii.eqb_spec c "#") as [->|]; [|reflexivity].
  discriminate Hc.
Qed.

Lemma message_match_in_full re commit m :
  In m (FindAllStringSubmatch re (Commit.Message commit)) ->
  In m (FindAllStringSubmatch re (fullCommitMessageText commit)).
Proof.
  rewrite fullCommitMessageText_matches.
  destruct (String.eqb (Commit.Message commit) "") eqn:E.
  - apply String.eqb_eq in E. rewrite E. destruct re; intros [].
  - rewrite in_app_iff. auto.
Qed.

(** X7: with a Jira tracker, every match in a commit message is a project
    key (two or more capital letters), a dash and a number; the loop goes
    over the whole match and over its group, so both the full key
    [ABC-123] and the bare number [123] become identifiers that are looked
    up. *)
Theorem X7_jira_key_and_number env commit m :
  issueKind env = Jira ->
  In m (FindAllStringSubmatch JIRAIssueRegex (Commit.Message commit)) ->
  exists us ds,
    m = [us +:+ String "-" ds; ds]
    /\ 2 <= String.length us /\ allBytes isUpper us = true
    /\ ds <> "" /\ allBytes isDigit ds = true
    /\ In (us +:+ String "-" ds) (references env commit)
    /\ In ds (references env commit).
Proof.
  intros Hkind Hm.
  pose proof (message_match_in_full _ _ _ Hm) as Hfull.
  apply findAll_matchAt in Hm as (s' & rest & Hmatch).
  apply matchAt_JIRA in Hmatch as (us & ds & Hlen & Hup & Hne & Hdig & -> & _).
  exists us, ds. repeat split; auto.
  - apply references_In. unfold issueRegex. rewrite Hkind.
    eexists _, _. split; [exact Hfull|]. split; [left; reflexivity|].
    destruct (allBytes_head _ _ Hup) as (c & us' & -> & Hc).
    + intros ->. simpl in Hlen. lia.
    + rewrite append_cons, TrimPrefix_other by (apply isUpper_not_hash, Hc).
      reflexivity.
  - apply references_In. unfold issueRegex. rewrite Hkind.
    eexists _, _. split; [exact Hfull|]. split; [right; left; reflexivity|].
    destruct (allBytes_head _ _ Hdig Hne) as (c & ds' & -> & Hc).
    rewrite TrimPrefix_other by (apply isDigit_not_hash, Hc). reflexivity.
Qed.

Lemma X7_jira_key_and_number_witness :
  exists us ds,
    ["ABC-123"; "123"] = [us +:+ String "-" ds; ds]
    /\ 2 <= String.length us /\ allBytes isUpper us = true
    /\ ds <> "" /\ allBytes isDigit ds = true
    /\ In (us +:+ String "-" ds)
         (references DemoJira.env (Demo.commit "c1" "see ABC-123" ["c0"]))
    /\ In ds (references DemoJira.env (Demo.commit "c1" "see ABC-123" ["c0"])).
Proof.
  apply (X7_jira_key_and_number DemoJira.env
           (Demo.commit "c1" "see ABC-123" ["c0"]) ["ABC-123"; "123"]).
  - reflexivity.
  - vm_compute. left. reflexivity.
Defined.

Lemma hasByte_append b us t : hasByte b (us +:+ String b t) = true.
Proof.
  induction us as [|c us IH].
  - rewrite append_nil_l. simpl. rewrite Ascii.eqb_refl. reflexivity.
  - rewrite append_cons. simpl. rewrite IH. apply orb_true_r.
Qed.

Lemma findAll_no_byte re b :
  (forall s m r, matchAt re s = Some (m, r) -> hasByte b s = true) ->
  forall fuel s, hasByte b s = false -> findAll fuel re s = [].
Proof.
  intros Hmatch. induction fuel as [|fuel IH]; intros s Hs; simpl; [reflexivity|].
  destruct (matchAt re s) as [[m r]|] eqn:E.
  - apply Hmatch in E. congruence.
  - destruct s as [|c s']; [reflexivity|]. apply IH.
    simpl in Hs. apply orb_false_iff in Hs as [_ Hs]. exact Hs.
Qed.

Lemma references_nil env commit :
  FindAllStringSubmatch (issueRegex env) (Commit.Message commit) = [] ->
  references env commit = [].
Proof.
  intros Hnone. unfold references.
  rewrite fullCommitMessageText_matches, Hnone.
  destruct (String.eqb (Commit.Message commit) ""); reflexivity.
Qed.

(** X8: a message without the byte that starts a reference has none: with a
    git tracker a message without [#], with a Jira tracker a message
    without [-], gives no identifier at all. *)
Theorem X8_no_marker_no_reference env commit :
  (issueKind env = Git -> hasByte "#" (Commit.Message commit) = false ->
   references env commit = [])
  /\ (issueKind env = Jira -> hasByte "-" (Commit.Message commit) = false ->
      references env commit = []).
Proof.
  split; intros Hkind Hno; apply references_nil; unfold issueRegex;
    rewrite Hkind.
  - apply (findAll_no_byte GitHubIssueRegex "#"); [|exact Hno].
    intros s m r (ds & _ & _ & _ & ->)%matchAt_GitHub.
    rewrite append_cons. simpl. reflexivity.
  - apply (findAll_no_byte JIRAIssueRegex "-"); [|exact Hno].
    intros s m r (us & ds & _ & _ & _ & _ & _ & ->)%matchAt_JIRA.
    rewrite append_cons. apply hasByte_append.
Qed.

Lemma X8_no_marker_no_reference_witness :
  references Demo.env (Demo.commit "c1" "bump version to 42" ["c0"]) = []
  /\ references DemoJira.env (Demo.commit "c1" "see ABC 123 #4" ["c0"]) = [].
Proof.
  split.
  - apply (proj1 (X8_no_marker_no_reference Demo.env
                    (Demo.commit "c1" "bump version to 42" ["c0"])));
      reflexivity.
  - apply (proj2 (X8_no_marker_no_reference DemoJira.env
                    (Demo.commit "c1" "see ABC 123 #4" ["c0"])));
      reflexivity.
Defined.

(** X9: the text that is searched is the message followed by itself, and no
    match spans the seam: the identifiers seen for a commit are those of
    its message, twice over. *)
Theorem X9_full_text_references_twice env commit :
  references env commit
  = messageReferences env commit ++ messageReferences env commit.
Proof.
  unfold references, messageReferences.
  rewrite fullCommitMessageText_matches.
  destruct (String.eqb (Commit.Message commit) "") eqn:E.
  - apply String.eqb_eq in E. rewrite E. destruct (issueRegex env); reflexivity.
  - rewrite concat_app, map_app. reflexivity.
Qed.

(** ** The issue enricher and the commit assembler *)

Lemma toV1Labels_fold labels : forall answer,
  fold_left (fun answer label => answer ++ [IssueLabel.mk label]) labels answer
  = answer ++ map IssueLabel.mk labels.
Proof.
  induction labels as [|x labels IH]; intros answer; simpl.
  - rewrite app_nil_r. reflexivity.
  - rewrite IH, <- app_assoc. reflexivity.
Qed.

(** X10: [toV1Labels] turns each label name into one label, in the same
    order: as many labels as names, the i-th label has the i-th name. *)
Theorem X10_toV1Labels_map labels :
  toV1Labels labels = map IssueLabel.mk labels
  /\ map IssueLabel.Name (toV1Labels labels) = labels
  /\ length (toV1Labels labels) = length labels.
Proof.
  assert (H : toV1Labels labels = map IssueLabel.mk labels)
    by (unfold toV1Labels; rewrite toV1Labels_fold; reflexivity).
  rewrite H, map_map, length_map. repeat split.
  clear H. induction labels as [|x labels IH]; simpl;
    [reflexivity | f_equal; exact IH].
Qed.

Lemma included_references env included id :
  In id (flat_map (references env) included)
  <-> exists c, In c included /\ In id (messageReferences env c).
Proof.
  rewrite in_flat_map. split; intros (c & Hc & Hid); exists c;
    (split; [exact Hc | apply references_message, Hid]).
Qed.

(** X11: in a run the tracker is asked exactly once for every identifier
    that the message of some included commit references, and never for
    any other: identifiers of merge commits that are left out, or of the
    release commit, are not looked up. *)
Theorem X11_lookups_exactly_the_references env sortSlice o st gitInfo commits id :
  let calls := getIssueCalls (buildRelease env sortSlice o st gitInfo commits) in
  ((exists c, In c (includedCommits o commits)
              /\ In id (messageReferences env c)) ->
   count_occ string_dec calls id = 1)
  /\ (~ (exists c, In c (includedCommits o commits)
                   /\ In id (messageReferences env c)) ->
      count_occ string_dec calls id = 0).
Proof.
  cbv zeta.
  destruct (buildRelease_spec env sortSlice o st gitInfo commits) as (Hcalls & _).
  rewrite Hcalls.
  assert (Hin : In id (newRefs ∅ (flat_map (references env) (includedCommits o commits)))
                <-> exists c, In c (includedCommits o commits)
                              /\ In id (messageReferences env c)).
  { rewrite newRefs_In, lookup_empty, included_references. tauto. }
  split; intros Href.
  - apply Hin in Href.
    pose proof (proj1 (NoDup_count_occ string_dec _)
                  (newRefs_NoDup (flat_map (references env) (includedCommits o commits)) ∅)
                  id) as Hle.
    apply (count_occ_In string_dec) in Href. lia.
  - apply count_occ_not_In. rewrite Hin. exact Href.
Qed.

Lemma X11_lookups_exactly_the_references_witness :
  count_occ string_dec
    (getIssueCalls
       (buildRelease Demo.env mergeSortSlice Demo.options Demo.state Demo.gitInfo
          (Some Demo.twoFixes))) "42" = 1.
Proof.
  apply (proj1 (X11_lookups_exactly_the_references Demo.env mergeSortSlice
                  Demo.options Demo.state Demo.gitInfo (Some Demo.twoFixes) "42")).
  exists (Demo.commit "c2" "also fixes #42" ["c1"]). split.
  - vm_compute. right. left. reflexivity.
  - vm_compute. left. reflexivity.
Defined.

Lemma summaries_Message env commits : forall (seen : gmap string bool),
  map CommitSummary.Message (summaries env seen commits)
  = map Commit.Message commits.
Proof.
  induction commits as [|c commits IH]; intros seen; simpl; [reflexivity|].
  rewrite IH. reflexivity.
Qed.

Lemma summaries_constants env commits : forall (seen : gmap string bool),
  Forall (fun cs => CommitSummary.Branch cs = "master" /\ CommitSummary.URL cs = "")
    (summaries env seen commits).
Proof.
  induction commits as [|c commits IH]; intros seen; simpl; constructor; auto.
Qed.

(** X12: the commit summaries of the release record are those of the
    included commits in the order the commits were fetched, hash for hash
    and message for message; each one has the branch [master] and an empty
    URL. *)
Theorem X12_commit_summaries_in_order env sortSlice o st gitInfo commits :
  let release := spec (buildRelease env sortSlice o st gitInfo commits) in
  map CommitSummary.SHA (ReleaseSpec.Commits release)
  = map Commit.Hash (includedCommits o commits)
  /\ map CommitSummary.Message (ReleaseSpec.Commits release)
     = map Commit.Message (includedCommits o commits)
  /\ Forall (fun cs => CommitSummary.Branch cs = "master"
                       /\ CommitSummary.URL cs = "")
       (ReleaseSpec.Commits release).
Proof.
  cbv zeta.
  destruct (buildRelease_spec env sortSlice o st gitInfo commits)
    as (_ & Hc & _).
  rewrite Hc, summaries_SHA, summaries_Message.
  repeat split. apply summaries_constants.
Qed.

Lemma markAll_lookup_notin ids : forall (seen : gmap string bool) id,
  ~ In id ids -> markAll ids seen !! id = seen !! id.
Proof.
  unfold markAll. induction ids as [|r ids IH]; intros seen id Hnot; simpl;
    [reflexivity|].
  rewrite IH by (intros Hin; apply Hnot; right; exact Hin).
  apply lookup_insert_ne. intros ->. apply Hnot. left. reflexivity.
Qed.

Lemma markAll_lookup_in ids : forall (seen : gmap string bool) id,
  In id ids -> markAll ids seen !! id = Some true.
Proof.
  induction ids as [|r ids IH]; intros seen id Hin; [destruct Hin|].
  change (markAll (r :: ids) seen) with (markAll ids (<[r := true]> seen)).
  destruct (in_dec string_dec id ids) as [Hids|Hids].
  - apply IH, Hids.
  - rewrite markAll_lookup_notin by exact Hids.
    destruct Hin as [->|Hin]; [apply lookup_insert_eq | contradiction].
Qed.

Lemma buildRelease_found env sortSlice o st gitInfo commits :
  FoundIssueNames (state (buildRelease env sortSlice o st gitInfo commits))
  = markAll (getIssueCalls (buildRelease env sortSlice o st gitInfo commits)) ∅.
Proof.
  unfold buildRelease. rewrite addCommits_included.
  match goal with
  | |- context [fold_left (addCommit env) ?l ?a0] =>
      destruct (addCommit_fold env l a0) as (Hf & Hcalls & _)
  end.
  cbn [spec withSpec getIssueCalls state FoundIssueNames] in *.
  rewrite Hf, Hcalls. reflexivity.
Qed.

(** X13: when the commit loop is over, the found set holds exactly the
    identifiers the tracker was asked for, each marked [true], whether the
    lookup succeeded or not. *)
Theorem X13_found_set_is_the_lookups env sortSlice o st gitInfo commits id :
  let a := buildRelease env sortSlice o st gitInfo commits in
  (In id (getIssueCalls a) -> FoundIssueNames (state a) !! id = Some true)
  /\ (~ In id (getIssueCalls a) -> FoundIssueNames (state a) !! id = None).
Proof.
  cbv zeta. rewrite buildRelease_found. split; intros Hid.
  - apply markAll_lookup_in, Hid.
  - rewrite markAll_lookup_notin by exact Hid. apply lookup_empty.
Qed.

Lemma X13_found_set_is_the_lookups_witness :
  FoundIssueNames
    (state (buildRelease Demo.env mergeSortSlice Demo.options Demo.state
              Demo.gitInfo (Some Demo.twoFixes))) !! "42" = Some true.
Proof.
  apply (proj1 (X13_found_set_is_the_lookups Demo.env mergeSortSlice
                  Demo.options Demo.state Demo.gitInfo (Some Demo.twoFixes) "42")).
  vm_compute. left. reflexivity.
Defined.

Lemma summaries_IssueIDs env commits : forall (seen : gmap string bool),
  concat (map CommitSummary.IssueIDs (summaries env seen commits))
  = List.filter (lookupOk env) (newRefs seen (flat_map (references env) commits)).
Proof.
  induction commits as [|c commits IH]; intros seen; simpl; [reflexivity|].
  rewrite IH, newRefs_app, List.filter_app. reflexivity.
Qed.

(** X14: the issue references of the commit summaries and the issue
    summaries of the release record match: no identifier is listed twice,
    in one commit or in two; every identifier a commit lists has its
    summary among the issues or the pull requests, and every summary is
    listed by a commit. *)
Theorem X14_issue_ids_match_summaries env sortSlice o st gitInfo commits :
  let release := spec (buildRelease env sortSlice o st gitInfo commits) in
  let listed := concat (map CommitSummary.IssueIDs (ReleaseSpec.Commits release)) in
  List.NoDup listed
  /\ forall id, In id listed <-> In id (map IssueSummary.ID (allIssues release)).
Proof.
  cbv zeta.
  destruct (buildRelease_spec env sortSlice o st gitInfo commits)
    as (_ & Hc & Hi & Hp & _).
  unfold allIssues. rewrite Hc, Hi, Hp, summaries_IssueIDs, map_app,
    issuesOf_ID, pullRequestsOf_ID.
  split.
  - apply List.NoDup_filter, newRefs_NoDup.
  - intros id. rewrite in_app_iff, !filter_In, !andb_true_iff, negb_true_iff.
    destruct (isPullRequest env id); intuition congruence.
Qed.

Lemma collapse_nil sortSlice :
  SortSliceContract sortSlice -> CollapseDependencyUpdates sortSlice [] = [].
Proof.
  intros Hc. unfold CollapseDependencyUpdates.
  assert (sortSlice [] = []) as ->; [|reflexivity].
  apply Permutation_nil, Permutation_sym, (sortSlice_perm _ Hc).
Qed.

(** X15: the fields of the release record that describe the release come
    from the options and the git URL alone, whatever the commits and the
    tracker: the version is the one given, or the chart placeholder when
    none is; and the record never has dependency updates, since nothing
    puts any in before they are collapsed. *)
Theorem X15_release_metadata env sortSlice o st gitInfo commits :
  SortSliceContract sortSlice ->
  let release := spec (buildRelease env sortSlice o st gitInfo commits) in
  ReleaseSpec.Name release = "{{ .Chart.Name }}"
  /\ ReleaseSpec.Version release
     = (if String.eqb (Version o) "" then "{{ .Chart.Version }}" else Version o)
  /\ ReleaseSpec.GitOwner release = GitRepository.Organisation gitInfo
  /\ ReleaseSpec.GitRepository release = GitRepository.Name gitInfo
  /\ ReleaseSpec.GitHTTPURL release = GitRepository.HttpsURL gitInfo
  /\ ReleaseSpec.GitCloneURL release = GitRepository.CloneURL gitInfo
  /\ ReleaseSpec.DependencyUpdates release = []
  /\ ReleaseSpec.ReleaseNotesURL release = "".
Proof.
  intros Hsort. cbv zeta. unfold buildRelease. rewrite addCommits_included.
  match goal with
  | |- context [fold_left (addCommit env) ?l ?a0] =>
      destruct (addCommit_fold env l a0) as (_ & _ & _ & _ & _ & Hm)
  end.
  cbn [spec withSpec] in *. unfold metadata in Hm.
  injection Hm as Hname Hversion Howner Hrepo Hhttp Hclone Hdeps Hnotes.
  cbn [ReleaseSpec.Name ReleaseSpec.Version ReleaseSpec.GitOwner
       ReleaseSpec.GitRepository ReleaseSpec.GitHTTPURL ReleaseSpec.GitCloneURL
       ReleaseSpec.DependencyUpdates ReleaseSpec.ReleaseNotesURL
       ReleaseSpec.setDependencyUpdates].
  rewrite Hname, Hversion, Howner, Hrepo, Hhttp, Hclone, Hdeps, Hnotes.
  cbn [newRelease ReleaseSpec.DependencyUpdates].
  rewrite (collapse_nil _ Hsort). repeat split.
Qed.

Lemma X15_release_metadata_witness :
  ReleaseSpec.Name (Demo.release Demo.twoFixes) = "{{ .Chart.Name }}"
  /\ ReleaseSpec.Version (Demo.release Demo.twoFixes) = "2.0.1"
  /\ ReleaseSpec.GitOwner (Demo.release Demo.twoFixes) = "jstrachan"
  /\ ReleaseSpec.GitRepository (Demo.release Demo.twoFixes) = "kubeconawesome"
  /\ ReleaseSpec.GitHTTPURL (Demo.release Demo.twoFixes)
     = "https://github.com/jstrachan/kubeconawesome"
  /\ ReleaseSpec.GitCloneURL (Demo.release Demo.twoFixes)
     = "https://github.com/jstrachan/kubeconawesome.git"
  /\ ReleaseSpec.DependencyUpdates (Demo.release Demo.twoFixes) = []
  /\ ReleaseSpec.ReleaseNotesURL (Demo.release Demo.twoFixes) = "".
Proof.
  apply (X15_release_metadata Demo.env mergeSortSlice Demo.options Demo.state
           Demo.gitInfo (Some Demo.twoFixes)).
  exact mergeSortSlice_contract.
Defined.

(** X16: an error of the commit fetch ends the run at once, before the
    tracker or any sink is reached, when fail-if-no-commits is set;
    otherwise it is ignored and the run goes on as if the fetch had returned
    the same commits without an error. *)
Theorem X16_fetch_error env sortSlice o st gitInfo commits err :
  (FailIfFindCommits o = true ->
   Run env sortSlice o st gitInfo (commits, Some err)
   = {| returned := Some err; outputs := []; assembled := None;
        rendered := None |})
  /\ (FailIfFindCommits o = false ->
      Run env sortSlice o st gitInfo (commits, Some err)
      = Run env sortSlice o st gitInfo (commits, None)).
Proof.
  split; intros Hflag; unfold Run; rewrite Hflag; reflexivity.
Qed.

Lemma X16_fetch_error_witness :
  Run Demo.env mergeSortSlice Demo.options Demo.state Demo.gitInfo
    (None, Some "bad revision")
  = Run Demo.env mergeSortSlice Demo.options Demo.state Demo.gitInfo (None, None).
Proof.
  apply (proj2 (X16_fetch_error Demo.env mergeSortSlice Demo.options Demo.state
                  Demo.gitInfo None "bad revision")).
  reflexivity.
Defined.

(** X17: [addCommit] only appends.  Whatever the assembly so far, it adds
    exactly one commit summary, with the hash and the message of the
    commit, after the ones that are there; issues, pull requests and
    tracker calls keep what they had as a prefix; an identifier that was in
    the found set stays in it; and every identifier the new summary lists
    was looked up by this very call. *)
Theorem X17_addCommit_appends env a commit :
  let a' := addCommit env a commit in
  exists cs newIssues newPullRequests newCalls,
    ReleaseSpec.Commits (spec a') = ReleaseSpec.Commits (spec a) ++ [cs]
    /\ CommitSummary.SHA cs = Commit.Hash commit
    /\ CommitSummary.Message cs = Commit.Message commit
    /\ ReleaseSpec.Issues (spec a') = ReleaseSpec.Issues (spec a) ++ newIssues
    /\ ReleaseSpec.PullRequests (spec a')
       = ReleaseSpec.PullRequests (spec a) ++ newPullRequests
    /\ getIssueCalls a' = getIssueCalls a ++ newCalls
    /\ (forall id, In id (CommitSummary.IssueIDs cs) -> In id newCalls)
    /\ (forall id, FoundIssueNames (state a) !! id <> None ->
                   FoundIssueNames (state a') !! id <> None).
Proof.
  cbv zeta.
  destruct (addCommit_fold env [commit] a) as (Hf & Hcalls & Hc & Hi & Hp & _).
  cbn [fold_left flat_map summaries] in *. rewrite app_nil_r in *.
  eexists _, _, _, _.
  split; [exact Hc|]. split; [reflexivity|]. split; [reflexivity|].
  split; [exact Hi|]. split; [exact Hp|]. split; [exact Hcalls|]. split.
  - intros id. cbn [summaryOf CommitSummary.IssueIDs]. rewrite filter_In. tauto.
  - intros id Hseen. rewrite Hf. intros Hnone.
    apply markAll_lookup_None in Hnone as [Hnone _]. contradiction.
Qed.

(** X18: a submatch that has just been handled has no effect when it comes
    again: handling it twice is handling it once.  The second submatch of
    every [#123] match, which repeats the first, is such a repetition. *)
Theorem X18_addResult_repeat env acc r :
  addResult env (addResult env acc r) r = addResult env acc r.
Proof.
  destruct acc as [a commit].
  destruct (FoundIssueNames (state a) !! TrimPrefix r "#") eqn:Eseen.
  - rewrite (addResult_seen env a commit r b Eseen).
    apply (addResult_seen env a commit r b Eseen).
  - destruct (lookupOk env (TrimPrefix r "#")) eqn:Eok.
    + rewrite (addResult_found env a commit r Eseen Eok).
      apply (addResult_seen _ _ _ _ true). cbn. apply lookup_insert_eq.
    + rewrite (addResult_failed env a commit r Eseen Eok).
      apply (addResult_seen _ _ _ _ true). cbn. apply lookup_insert_eq.
Qed.

(** ** The renderer *)

(** X19: where a template comes from.  A template text given directly is
    used and the file is not read; a file that can be read stands for its
    content, as if the content had been given directly (so an empty file
    gives the empty string and no error); a file that cannot be read makes
    [getTemplateResult] return the read error. *)
Theorem X19_template_source env s name :
  (forall text file, text <> "" ->
     getTemplateResult env s name text file
     = getTemplateResult env s name text "")
  /\ (forall file data, file <> "" -> ReadFile env file = (data, None) ->
        getTemplateResult env s name "" file
        = getTemplateResult env s name data "")
  /\ (forall file data e, file <> "" -> ReadFile env file = (data, Some e) ->
        getTemplateResult env s name "" file = ("", Some e)).
Proof.
  unfold getTemplateResult. split; [|split].
  - intros text file Htext. apply String.eqb_neq in Htext. rewrite Htext.
    reflexivity.
  - intros file data Hfile Hread. apply String.eqb_neq in Hfile.
    cbn [String.eqb]. rewrite Hfile, Hread.
    destruct (String.eqb data ""); reflexivity.
  - intros file data e Hfile Hread. apply String.eqb_neq in Hfile.
    cbn [String.eqb]. rewrite Hfile, Hread. reflexivity.
Qed.

Lemma X19_template_source_witness :
  getTemplateResult Demo.env (Demo.release Demo.twoFixes) "header"
    "" "header.md" = ("", Some "no such file").
Proof.
  apply (proj2 (proj2 (X19_template_source Demo.env (Demo.release Demo.twoFixes)
                         "header")) "header.md" "" "no such file").
  - discriminate.
  - reflexivity.
Defined.

(** X20: an error of the markdown generator ends the run with that error
    before the header or the footer is looked at: nothing is rendered and
    nothing reaches a sink, whatever the templates would have given. *)
Theorem X20_markdown_error_aborts env sortSlice o st gitInfo commits fetchErr
    body e :
  let a := buildRelease env sortSlice o st gitInfo commits in
  fetchAccepted o fetchErr ->
  GenerateMarkdown env (spec a) gitInfo = (body, Some e) ->
  Run env sortSlice o st gitInfo (commits, fetchErr)
  = {| returned := Some e; outputs := []; assembled := Some a; rendered := None |}.
Proof.
  cbv zeta. intros Hfetch Hbody.
  rewrite (Run_accepted _ _ _ _ _ _ _ Hfetch). cbv zeta.
  unfold renderMarkdown. rewrite Hbody. reflexivity.
Qed.

Lemma X20_markdown_error_aborts_witness :
  Run DemoBroken.env mergeSortSlice Demo.options Demo.state Demo.gitInfo
    (Some Demo.twoFixes, None)
  = {| returned := Some "no markdown"; outputs := [];
       assembled := Some (buildRelease DemoBroken.env mergeSortSlice Demo.options
                            Demo.state Demo.gitInfo (Some Demo.twoFixes));
       rendered := None |}.
Proof.
  apply (X20_markdown_error_aborts DemoBroken.env mergeSortSlice Demo.options
           Demo.state Demo.gitInfo (Some Demo.twoFixes) None "" "no markdown").
  - left. reflexivity.
  - reflexivity.
Defined.

(** ** After rendering: tags, release, files and pipeline activity *)

Lemma hasTag_In tags wanted : Publish.hasTag tags wanted = true <-> In wanted tags.
Proof.
  induction tags as [|t tags IH]; simpl; [split; [discriminate | tauto]|].
  destruct (String.eqb_spec t wanted) as [->|Hne]; [tauto|].
  rewrite IH. split; [auto | intros [?|?]; [contradiction | assumption]].
Qed.

(** X21: the tag of the release is the version itself, unless the version
    with a [v] in front is among the tags listed for it and the bare
    version is not among the tags listed for it: only then the [v] form is
    used. *)
Theorem X21_tag_name version tags vtags :
  (In ("v" +:+ version) vtags /\ ~ In version tags ->
   Publish.tagNameFor version tags vtags = "v" +:+ version)
  /\ (~ In ("v" +:+ version) vtags \/ In version tags ->
      Publish.tagNameFor version tags vtags = version).
Proof.
  unfold Publish.tagNameFor. split.
  - intros [Hv Hplain]. apply hasTag_In in Hv. rewrite Hv.
    destruct (Publish.hasTag tags version) eqn:E; [|reflexivity].
    apply hasTag_In in E. contradiction.
  - intros [Hv | Hplain].
    + destruct (Publish.hasTag vtags ("v" +:+ version)) eqn:E; [|reflexivity].
      apply hasTag_In in E. contradiction.
    + apply hasTag_In in Hplain. rewrite Hplain, andb_false_r. reflexivity.
Qed.

Lemma X21_tag_name_witness :
  Publish.tagNameFor "1.2.3" ["1.2.30"] ["v1.2.3"; "v1.2.30"] = "v1.2.3".
Proof.
  apply (proj1 (X21_tag_name "1.2.3" ["1.2.30"] ["v1.2.3"; "v1.2.30"])).
  split.
  - left. reflexivity.
  - intros [H|[]]. discriminate H.
Defined.

Lemma doUpdate_spec updated old new :
  Publish.doUpdate updated old new
  = (if String.eqb new "" || String.eqb new old then old else new,
     updated || negb (String.eqb new "" || String.eqb new old)).
Proof.
  unfold Publish.doUpdate.
  destruct (String.eqb new "" || String.eqb new old); simpl;
    [rewrite orb_false_r | rewrite orb_true_r]; reflexivity.
Qed.

Lemma doUpdate_changed updated old new :
  snd (Publish.doUpdate updated old new) = true
  <-> updated = true \/ fst (Publish.doUpdate updated old new) <> old.
Proof.
  unfold Publish.doUpdate.
  destruct (String.eqb new "") eqn:E1; simpl.
  - split; [auto | intros [H|H]; [exact H | congruence]].
  - destruct (String.eqb_spec new old) as [->|Hne]; simpl.
    + split; [auto | intros [H|H]; [exact H | congruence]].
    + split; auto.
Qed.

Lemma doUpdate_again updated updated' old new :
  Publish.doUpdate updated' (fst (Publish.doUpdate updated old new)) new
  = (fst (Publish.doUpdate updated old new), updated').
Proof.
  unfold Publish.doUpdate.
  destruct (String.eqb new "") eqn:E1; simpl; [reflexivity|].
  destruct (String.eqb new old) eqn:E2; simpl.
  - rewrite E2. reflexivity.
  - rewrite String.eqb_refl. reflexivity.
Qed.

Lemma doUpdate_flag updated old new :
  snd (Publish.doUpdate updated old new)
  = updated || snd (Publish.doUpdate false old new).
Proof.
  unfold Publish.doUpdate.
  destruct (String.eqb new "" || String.eqb new old); simpl;
    [rewrite orb_false_r | rewrite orb_true_r]; reflexivity.
Qed.

Lemma doUpdate_value updated old new :
  fst (Publish.doUpdate updated old new) = fst (Publish.doUpdate false old new).
Proof.
  unfold Publish.doUpdate.
  destruct (String.eqb new "" || String.eqb new old); reflexivity.
Qed.

Lemma doUpdate_pair updated old new :
  Publish.doUpdate updated old new
  = (fst (Publish.doUpdate false old new),
     updated || snd (Publish.doUpdate false old new)).
Proof.
  unfold Publish.doUpdate.
  destruct (String.eqb new "" || String.eqb new old); simpl;
    [rewrite orb_false_r | rewrite orb_true_r]; reflexivity.
Qed.

(** The callback, field by field. *)
Lemma activityChanges_fields release url version ps :
  Publish.activityChanges release url version ps
  = let '(sha, message, commitURL) := lastCommitFields release in
    ({| Publish.ActivitySpec.LastCommitSHA :=
          fst (Publish.doUpdate false (Publish.ActivitySpec.LastCommitSHA ps) sha);
        Publish.ActivitySpec.LastCommitMessage :=
          fst (Publish.doUpdate false (Publish.ActivitySpec.LastCommitMessage ps)
                 message);
        Publish.ActivitySpec.LastCommitURL :=
          fst (Publish.doUpdate false (Publish.ActivitySpec.LastCommitURL ps)
                 commitURL);
        Publish.ActivitySpec.ReleaseNotesURL :=
          fst (Publish.doUpdate false (Publish.ActivitySpec.ReleaseNotesURL ps) url);
        Publish.ActivitySpec.Version :=
          fst (Publish.doUpdate false (Publish.ActivitySpec.Version ps) version);
        Publish.ActivitySpec.Status := Publish.ActivitySpec.Status ps |},
     snd (Publish.doUpdate false (Publish.ActivitySpec.LastCommitSHA ps) sha)
     || snd (Publish.doUpdate false (Publish.ActivitySpec.LastCommitMessage ps)
               message)
     || snd (Publish.doUpdate false (Publish.ActivitySpec.LastCommitURL ps)
               commitURL)
     || snd (Publish.doUpdate false (Publish.ActivitySpec.ReleaseNotesURL ps) url)
     || snd (Publish.doUpdate false (Publish.ActivitySpec.Version ps) version)).
Proof.
  unfold Publish.activityChanges, lastCommitFields.
  destruct (rev (ReleaseSpec.Commits release)) as [|c rest].
  - rewrite (doUpdate_pair false (Publish.ActivitySpec.ReleaseNotesURL ps) url).
    rewrite (doUpdate_pair (false || _) (Publish.ActivitySpec.Version ps) version).
    reflexivity.
  - rewrite (doUpdate_pair false (Publish.ActivitySpec.LastCommitSHA ps)).
    rewrite (doUpdate_pair (false || _) (Publish.ActivitySpec.LastCommitMessage ps)).
    rewrite (doUpdate_pair (false || _ || _) (Publish.ActivitySpec.LastCommitURL ps)).
    rewrite (doUpdate_pair (false || _ || _ || _)
               (Publish.ActivitySpec.ReleaseNotesURL ps) url).
    rewrite (doUpdate_pair (false || _ || _ || _ || _)
               (Publish.ActivitySpec.Version ps) version).
    reflexivity.
Qed.

Lemma doUpdate_unchanged old new :
  snd (Publish.doUpdate false old new) = false ->
  fst (Publish.doUpdate false old new) = old.
Proof.
  unfold Publish.doUpdate.
  destruct (String.eqb new "" || String.eqb new old); simpl; congruence.
Qed.

Lemma doUpdate_kept_or_new old new :
  fst (Publish.doUpdate false old new) = old
  \/ (fst (Publish.doUpdate false old new) = new /\ new <> "").
Proof.
  unfold Publish.doUpdate.
  destruct (String.eqb new "") eqn:E; simpl; [auto|].
  destruct (String.eqb new old); simpl; [auto|].
  right. split; [reflexivity | apply String.eqb_neq, E].
Qed.

(** X22: the callback that brings the pipeline activity up to date.  It
    reports an update exactly when it changed the activity; run again on
    its own result it changes nothing and reports no update; the version
    and the release notes URL either stay or take the new value, which is
    then not empty; the status is not touched. *)
Theorem X22_activity_callback release url version ps :
  let r := Publish.activityChanges release url version ps in
  (snd r = true <-> fst r <> ps)
  /\ Publish.activityChanges release url version (fst r) = (fst r, false)
  /\ (Publish.ActivitySpec.Version (fst r) = Publish.ActivitySpec.Version ps
      \/ (Publish.ActivitySpec.Version (fst r) = version /\ version <> ""))
  /\ (Publish.ActivitySpec.ReleaseNotesURL (fst r)
      = Publish.ActivitySpec.ReleaseNotesURL ps
      \/ (Publish.ActivitySpec.ReleaseNotesURL (fst r) = url /\ url <> ""))
  /\ Publish.ActivitySpec.Status (fst r) = Publish.ActivitySpec.Status ps.
Proof.
  cbv zeta. rewrite !activityChanges_fields.
  destruct (lastCommitFields release) as [[sha message] commitURL].
  cbn [fst snd]. split; [|split; [|split; [|split]]].
  - destruct ps as [s0 m0 u0 n0 v0 st0].
    cbn [Publish.ActivitySpec.LastCommitSHA Publish.ActivitySpec.LastCommitMessage
         Publish.ActivitySpec.LastCommitURL Publish.ActivitySpec.ReleaseNotesURL
         Publish.ActivitySpec.Version Publish.ActivitySpec.Status].
    split.
    + intros Hflag Heq. injection Heq as H1 H2 H3 H4 H5.
      rewrite !orb_true_iff in Hflag.
      destruct Hflag as [[[[H|H]|H]|H]|H];
        apply doUpdate_changed in H as [H|H]; congruence.
    + intros Hne.
      destruct (snd (Publish.doUpdate false s0 sha)) eqn:E1; [reflexivity|].
      destruct (snd (Publish.doUpdate false m0 message)) eqn:E2; [reflexivity|].
      destruct (snd (Publish.doUpdate false u0 commitURL)) eqn:E3; [reflexivity|].
      destruct (snd (Publish.doUpdate false n0 url)) eqn:E4; [reflexivity|].
      destruct (snd (Publish.doUpdate false v0 version)) eqn:E5; [reflexivity|].
      exfalso. apply Hne.
      rewrite (doUpdate_unchanged _ _ E1), (doUpdate_unchanged _ _ E2),
        (doUpdate_unchanged _ _ E3), (doUpdate_unchanged _ _ E4),
        (doUpdate_unchanged _ _ E5). reflexivity.
  - cbn [Publish.ActivitySpec.LastCommitSHA Publish.ActivitySpec.LastCommitMessage
         Publish.ActivitySpec.LastCommitURL Publish.ActivitySpec.ReleaseNotesURL
         Publish.ActivitySpec.Version Publish.ActivitySpec.Status].
    rewrite !doUpdate_again. reflexivity.
  - apply doUpdate_kept_or_new.
  - apply doUpdate_kept_or_new.
  - reflexivity.
Qed.

Lemma summaries_last env pre c : forall (seen : gmap string bool),
  exists ids,
    summaries env seen (pre ++ [c]) = summaries env seen pre ++ [summaryOf env c ids].
Proof.
  intros seen. rewrite summaries_app. eexists. reflexivity.
Qed.

Lemma lastCommitFields_url release :
  Forall (fun cs => CommitSummary.URL cs = "") (ReleaseSpec.Commits release) ->
  snd (lastCommitFields release) = "".
Proof.
  intros Hall. unfold lastCommitFields.
  destruct (rev (ReleaseSpec.Commits release)) as [|c rest] eqn:E; [reflexivity|].
  rewrite List.Forall_forall in Hall. simpl. apply Hall.
  apply in_rev. rewrite E. left. reflexivity.
Qed.

(** X23: the commit summaries that [addCommit] builds have an empty URL, so
    the callback never changes the last commit URL of the activity when
    the release record comes from the commit loop; the last commit hash
    and message it sets are those of the last included commit; when no
    commit is included it leaves them alone. *)
Theorem X23_activity_last_commit env sortSlice o st gitInfo commits url version ps :
  let release := spec (buildRelease env sortSlice o st gitInfo commits) in
  let ps' := fst (Publish.activityChanges release url version ps) in
  Publish.ActivitySpec.LastCommitURL ps' = Publish.ActivitySpec.LastCommitURL ps
  /\ (forall pre c, includedCommits o commits = pre ++ [c] ->
        (Commit.Hash c <> "" ->
         Publish.ActivitySpec.LastCommitSHA ps' = Commit.Hash c)
        /\ (Commit.Message c <> "" ->
            Publish.ActivitySpec.LastCommitMessage ps' = Commit.Message c))
  /\ (includedCommits o commits = [] ->
      Publish.ActivitySpec.LastCommitSHA ps' = Publish.ActivitySpec.LastCommitSHA ps
      /\ Publish.ActivitySpec.LastCommitMessage ps'
         = Publish.ActivitySpec.LastCommitMessage ps).
Proof.
  cbv zeta. rewrite activityChanges_fields.
  destruct (buildRelease_spec env sortSlice o st gitInfo commits)
    as (_ & Hc & _).
  split; [|split].
  - assert (Hurl : snd (lastCommitFields
                          (spec (buildRelease env sortSlice o st gitInfo commits)))
                   = "").
    { apply lastCommitFields_url. rewrite Hc.
      eapply List.Forall_impl; [|apply summaries_constants]. intros cs [_ H]. exact H. }
    destruct (lastCommitFields _) as [[sha message] commitURL].
    cbn [fst snd Publish.ActivitySpec.LastCommitURL] in *. subst commitURL.
    reflexivity.
  - intros pre c Hsplit. unfold lastCommitFields. rewrite Hc, Hsplit.
    destruct (summaries_last env pre c ∅) as (ids & ->).
    rewrite rev_unit.
    cbn [fst snd summaryOf CommitSummary.SHA CommitSummary.Message
         CommitSummary.URL Publish.ActivitySpec.LastCommitSHA
         Publish.ActivitySpec.LastCommitMessage].
    split; intros Hne; unfold Publish.doUpdate;
      apply String.eqb_neq in Hne; rewrite Hne; cbn [orb];
      match goal with
      | |- context [String.eqb ?x ?y] =>
          destruct (String.eqb_spec x y) as [->|]; reflexivity
      end.
  - intros Hnone. unfold lastCommitFields. rewrite Hc, Hnone. split; reflexivity.
Qed.

Lemma X23_activity_last_commit_witness :
  Publish.ActivitySpec.LastCommitSHA
    (fst (Publish.activityChanges (Demo.release Demo.twoFixes)
            "https://example.com/notes" "2.0.1" staleActivity)) = "c2".
Proof.
  apply (proj1 (proj1 (proj2 (X23_activity_last_commit Demo.env mergeSortSlice
           Demo.options Demo.state Demo.gitInfo (Some Demo.twoFixes)
           "https://example.com/notes" "2.0.1" staleActivity))
           [Demo.commit "c1" "fixes #42" ["c0"]]
           (Demo.commit "c2" "also fixes #42" ["c1"]) eq_refl)).
  discriminate.
Defined.

(** *** What a computation may call *)

Section Spends.
Context (cost : Publish.Call -> nat).

Lemma spends_ret {A} n (a : A) : spends cost n (Publish.ret a).
Proof. intros h. exists []. simpl. rewrite app_nil_r. split; [reflexivity | lia]. Qed.

Lemma spends_stop {A} n o : spends cost n (@Publish.stop A o).
Proof. intros h. exists []. simpl. rewrite app_nil_r. split; [reflexivity | lia]. Qed.

Lemma spends_check n err wrap : spends cost n (Publish.check err wrap).
Proof. destruct err; [apply spends_stop | apply spends_ret]. Qed.

Lemma spends_call {A} n (answer : list Publish.Call -> A) c :
  cost c <= n -> spends cost n (Publish.call answer c).
Proof. intros Hc h. exists [c]. simpl. split; [reflexivity | lia]. Qed.

Lemma spends_bind {A B} n1 n2 n (m : Publish.M A) (k : A -> Publish.M B) :
  spends cost n1 m -> (forall a, spends cost n2 (k a)) -> n1 + n2 <= n ->
  spends cost n (Publish.bind m k).
Proof.
  intros Hm Hk Hn h. unfold Publish.bind.
  destruct (Hm h) as (calls1 & E1 & H1).
  destruct (m h) as [[a|o] h1]; simpl in E1; subst h1.
  - destruct (Hk a (h ++ calls1)) as (calls2 & E2 & H2).
    exists (calls1 ++ calls2). rewrite E2, app_assoc, map_app, list_sum_app.
    split; [reflexivity | lia].
  - exists calls1. simpl. split; [reflexivity | lia].
Qed.

Lemma spends_callee n (m : Publish.M unit) :
  spends cost n m -> spends cost n (Publish.callee m).
Proof.
  intros Hm h. unfold Publish.callee. destruct (Hm h) as (calls & E & Hn).
  exists calls. destruct (m h) as [ [ [] | [ err | ] ] h1 ]; simpl in *; auto.
Qed.

Lemma spends_finish n (m : Publish.M unit) :
  spends cost n m -> spends cost n (Publish.finish m).
Proof.
  intros Hm h. unfold Publish.finish. destruct (Hm h) as (calls & E & Hn).
  exists calls. destruct (m h) as [ [ [] | o ] h1 ]; simpl in *; auto.
Qed.

End Spends.

(** Prove that a computation makes no call that costs. *)
Ltac spends_nothing :=
  repeat first
    [ apply spends_ret
    | apply spends_stop
    | apply spends_check
    | apply spends_call; apply Nat.le_refl
    | apply spends_callee
    | apply (spends_bind _ 0 0 0); [ | intros ? | apply Nat.le_refl ]
    | match goal with
      | |- spends _ _ (match ?x with _ => _ end) => destruct x
      end ].

Lemma updatePipelineActivity_spends cost w d fn :
  cost = releaseWrite \/ cost = releaseAccess \/ cost = markdownWrite
  \/ cost = crdWrite ->
  spends cost 0 (Publish.updatePipelineActivity w d fn).
Proof.
  intros Hcost. unfold Publish.updatePipelineActivity.
  destruct Hcost as [-> | [-> | [-> | ->]]]; spends_nothing.
Qed.

Lemma writeRelease_spends cost w d version release :
  cost = releaseWrite \/ cost = releaseAccess \/ cost = markdownWrite ->
  spends cost 0 (Publish.writeRelease w d version release).
Proof.
  intros Hcost. unfold Publish.writeRelease.
  assert (Hact : forall fn, spends cost 0 (Publish.updatePipelineActivity w d fn))
    by (intros fn; apply updatePipelineActivity_spends; tauto).
  destruct Hcost as [-> | [-> | ->]];
    repeat first
      [ apply Hact
      | apply spends_ret
      | apply spends_stop
      | apply spends_check
      | apply spends_call; apply Nat.le_refl
      | apply spends_callee
      | apply (spends_bind _ 0 0 0); [ | intros ? | apply Nat.le_refl ]
      | match goal with
        | |- spends _ _ (match ?x with _ => _ end) => destruct x
        end ].
Qed.

Lemma spends_bind_call {A B} cost n (answer : list Publish.Call -> A) c
    (k : A -> Publish.M B) :
  cost c = 0 -> (forall h, spends cost n (k (answer h))) ->
  spends cost n (Publish.bind (Publish.call answer c) k).
Proof.
  intros Hc Hk h. unfold Publish.bind, Publish.call.
  destruct (Hk h (h ++ [c])) as (calls & E & Hn).
  exists (c :: calls). rewrite E, <- app_assoc. simpl.
  split; [reflexivity | lia].
Qed.

(** Prove that a computation makes one costly call at most. *)
Ltac spends_once :=
  repeat first
    [ apply spends_ret
    | apply spends_stop
    | apply spends_check
    | apply spends_call; simpl; lia
    | apply (spends_bind _ 0 1 1); [ solve [spends_nothing] | intros ? | lia ]
    | apply (spends_bind _ 1 0 1); [ | intros ?; solve [spends_nothing] | lia ]
    | match goal with
      | |- spends _ _ (match ?x with _ => _ end) => destruct x
      end ].

Lemma runVersion_nonempty o : String.eqb (runVersion o) "" = false.
Proof.
  unfold runVersion. destruct (String.eqb (Version o) "") eqn:E; [reflexivity|].
  exact E.
Qed.

(** X24: after rendering, the release of the SCM provider is created or
    updated by one call at most, whatever the provider answers; and when
    release updates are switched off neither the tags are listed nor the
    provider is reached at all. *)
Theorem X24_release_written_once w d o gitInfo release markdown :
  spends releaseWrite 1 (Publish.afterRender w d o gitInfo release markdown)
  /\ (Publish.UpdateRelease d = false ->
      spends releaseAccess 0 (Publish.afterRender w d o gitInfo release markdown)).
Proof.
  unfold Publish.afterRender. split.
  - apply spends_finish.
    apply (spends_bind _ 1 0 1);
      [ | intros r; apply writeRelease_spends; tauto | lia ].
    unfold Publish.publishChangelog. spends_once.
  - intros Hoff. apply spends_finish.
    apply (spends_bind _ 0 0 0);
      [ | intros r; apply writeRelease_spends; tauto | lia ].
    unfold Publish.publishChangelog. rewrite Hoff, andb_false_r.
    spends_nothing.
Qed.

Lemma X24_release_written_once_witness :
  spends releaseAccess 0
    (Publish.afterRender (DemoWorld.world DemoWorld.notFound DemoWorld.notFound)
       (DemoWorld.flags false "1") Demo.options Demo.gitInfo
       (Demo.release Demo.twoFixes) "notes").
Proof.
  apply (proj2 (X24_release_written_once
                  (DemoWorld.world DemoWorld.notFound DemoWorld.notFound)
                  (DemoWorld.flags false "1") Demo.options Demo.gitInfo
                  (Demo.release Demo.twoFixes) "notes")).
  reflexivity.
Defined.

(** X25: when release updates are on, the markdown file is never written,
    even when an output file is given: the version that guards the branch
    is never empty, because an empty version is replaced by the chart
    placeholder. *)
Theorem X25_markdown_file_needs_no_release_update w d o gitInfo release markdown :
  Publish.UpdateRelease d = true ->
  spends markdownWrite 0 (Publish.afterRender w d o gitInfo release markdown).
Proof.
  intros Hon. unfold Publish.afterRender. apply spends_finish.
  apply (spends_bind _ 0 0 0);
    [ | intros r; apply writeRelease_spends; tauto | lia ].
  unfold Publish.publishChangelog.
  change (if String.eqb (Version o) "" then SpecVersion else Version o)
    with (runVersion o).
  rewrite runVersion_nonempty, Hon. cbn [negb andb].
  spends_nothing.
Qed.

Lemma X25_markdown_file_needs_no_release_update_witness :
  spends markdownWrite 0
    (Publish.afterRender (DemoWorld.world DemoWorld.notFound DemoWorld.notFound)
       (DemoWorld.flags true "1") Demo.options Demo.gitInfo
       (Demo.release Demo.twoFixes) "notes").
Proof.
  apply (X25_markdown_file_needs_no_release_update
           (DemoWorld.world DemoWorld.notFound DemoWorld.notFound)
           (DemoWorld.flags true "1") Demo.options Demo.gitInfo
           (Demo.release Demo.twoFixes) "notes").
  reflexivity.
Defined.

Lemma publishChangelog_spends cost w d version gitInfo release markdown :
  cost = crdWrite \/ cost = activityAccess \/ cost = activityWrite ->
  spends cost 0 (Publish.publishChangelog w d version gitInfo release markdown).
Proof.
  intros Hcost. unfold Publish.publishChangelog.
  destruct Hcost as [-> | [-> | ->]]; spends_nothing.
Qed.

(** X26: the CRD file.  Without [--crd] it is never written nor added to
    git; and with [--crd] but without [--overwrite], a CRD file that is
    reported to exist is left alone. *)
Theorem X26_crd_not_overwritten w d o gitInfo release markdown :
  (Publish.GenerateCRD d = false ->
   spends crdWrite 0 (Publish.afterRender w d o gitInfo release markdown))
  /\ (Publish.OverwriteCRD d = false ->
      (forall h,
         fst (Publish.FileExists w h
                (Publish.PathJoin w (Publish.templatesDir d) (Publish.CrdYamlFile d)))
         = true) ->
      spends crdWrite 0 (Publish.afterRender w d o gitInfo release markdown)).
Proof.
  assert (Hact : forall fn, spends crdWrite 0 (Publish.updatePipelineActivity w d fn))
    by (intros fn; apply updatePipelineActivity_spends; tauto).
  split.
  - intros Hgen. unfold Publish.afterRender. apply spends_finish.
    apply (spends_bind _ 0 0 0);
      [ apply publishChangelog_spends; tauto | intros r | lia ].
    unfold Publish.writeRelease. rewrite Hgen.
    repeat first [ apply Hact | progress spends_nothing ].
  - intros Hover Hexists. unfold Publish.afterRender. apply spends_finish.
    apply (spends_bind _ 0 0 0);
      [ apply publishChangelog_spends; tauto | intros r | lia ].
    unfold Publish.writeRelease. rewrite Hover.
    repeat first
      [ apply Hact
      | match goal with
        | |- spends _ _ (Publish.bind
                           (Publish.call (fun h => Publish.FileExists _ h _) _) _) =>
            apply spends_bind_call; [reflexivity|];
            let h := fresh "h" in
            intros h; specialize (Hexists h);
            destruct (Publish.FileExists w h _) as [ex err];
            cbn [fst] in Hexists; subst ex; cbn [orb negb]
        end
      | apply spends_ret
      | apply spends_stop
      | apply spends_check
      | apply spends_call; apply Nat.le_refl
      | apply spends_callee
      | apply (spends_bind _ 0 0 0); [ | intros ? | apply Nat.le_refl ]
      | match goal with
        | |- spends _ _ (match ?x with _ => _ end) => destruct x
        end ].
Qed.

Lemma X26_crd_not_overwritten_witness :
  spends crdWrite 0
    (Publish.afterRender (DemoWorld.world DemoWorld.notFound DemoWorld.notFound)
       (DemoWorld.flags true "1") Demo.options Demo.gitInfo
       (Demo.release Demo.twoFixes) "notes").
Proof.
  apply (proj2 (X26_crd_not_overwritten
                  (DemoWorld.world DemoWorld.notFound DemoWorld.notFound)
                  (DemoWorld.flags true "1") Demo.options Demo.gitInfo
                  (Demo.release Demo.twoFixes) "notes")).
  - reflexivity.
  - intros h. reflexivity.
Defined.

(** X27: the pipeline activity.  Without a build number (none in the
    options, [$BUILD_NUMBER] and [$BUILD_ID] empty) the activity is neither
    fetched nor updated and nothing fails for it; and a callback that
    reports no change never leads to an update of the activity. *)
Theorem X27_activity_untouched w d :
  (forall o gitInfo release markdown,
     Publish.buildNumber w d = "" ->
     spends activityAccess 0 (Publish.afterRender w d o gitInfo release markdown))
  /\ (forall fn,
        (forall a, snd (fn a) = false) ->
        spends activityWrite 0 (Publish.updatePipelineActivity w d fn)).
Proof.
  split.
  - intros o gitInfo release markdown Hbuild.
    assert (Hact : forall fn,
              spends activityAccess 0 (Publish.updatePipelineActivity w d fn)).
    { intros fn. unfold Publish.updatePipelineActivity.
      rewrite Hbuild, andb_false_r. apply spends_ret. }
    unfold Publish.afterRender. apply spends_finish.
    apply (spends_bind _ 0 0 0);
      [ apply publishChangelog_spends; tauto | intros r | lia ].
    unfold Publish.writeRelease.
    repeat first [ apply Hact | progress spends_nothing ].
  - intros fn Hfn. unfold Publish.updatePipelineActivity.
    repeat first
      [ match goal with
        | |- context [fn ?a] =>
            let H := fresh "H" in
            pose proof (Hfn a) as H; destruct (fn a) as [a' u];
            cbn [snd] in H; subst u
        end
      | apply spends_ret
      | apply spends_stop
      | apply spends_check
      | apply spends_call; apply Nat.le_refl
      | apply (spends_bind _ 0 0 0); [ | intros ? | apply Nat.le_refl ]
      | match goal with
        | |- spends _ _ (match ?x with _ => _ end) => destruct x
        end ].
Qed.

Lemma X27_activity_untouched_witness :
  spends activityAccess 0
    (Publish.afterRender (DemoWorld.world DemoWorld.notFound DemoWorld.notFound)
       (DemoWorld.flags true "") Demo.options Demo.gitInfo
       (Demo.release Demo.twoFixes) "notes").
Proof.
  apply (proj1 (X27_activity_untouched
                  (DemoWorld.world DemoWorld.notFound DemoWorld.notFound)
                  (DemoWorld.flags true ""))).
  reflexivity.
Defined.

(** X28: no release for the tag.  When both tag listings succeed and the
    lookup of the release is answered with an error that means "not
    found", the release is created with the version as title, the chosen
    tag and the markdown as description; if creating it fails, [Run]
    returns nil and stops: these four calls are all it makes, no YAML is
    written and the pipeline activity is not touched. *)
Theorem X28_create_failure_ends_quietly w d o gitInfo release markdown
    tags vtags found ferr rel e :
  let version := runVersion o in
  let vVersion := "v" +:+ version in
  let tag := Publish.tagNameFor version tags vtags in
  let fullName := Publish.scmJoin (Publish.Owner d) (Publish.Repository d) in
  let input := {| Publish.ReleaseInput.Title := version;
                  Publish.ReleaseInput.Tag := tag;
                  Publish.ReleaseInput.Description := markdown |} in
  let listed := [Publish.FilterTagsCall version; Publish.FilterTagsCall vVersion] in
  Publish.UpdateRelease d = true ->
  Publish.FilterTags w [] (Publish.dir d) version = (tags, None) ->
  Publish.FilterTags w [Publish.FilterTagsCall version] (Publish.dir d) vVersion
  = (vtags, None) ->
  Publish.FindByTag w listed fullName tag = (found, ferr) ->
  Publish.IsScmNotFound w ferr = true ->
  Publish.Create w (listed ++ [Publish.FindByTagCall fullName tag]) fullName input
  = (rel, Some e) ->
  Publish.afterRender w d o gitInfo release markdown []
  = (Publish.Returned None,
     listed ++ [Publish.FindByTagCall fullName tag;
                Publish.CreateCall fullName input]).
Proof.
  cbv zeta. intros Hon Htags Hvtags Hfind Hnot Hcreate.
  unfold Publish.afterRender, Publish.finish, Publish.publishChangelog.
  change (if String.eqb (Version o) "" then SpecVersion else Version o)
    with (runVersion o).
  rewrite runVersion_nonempty, Hon. cbn [negb andb].
  unfold Publish.bind at 1 2. unfold Publish.call at 1. cbn [app].
  rewrite Htags. unfold Publish.bind at 1. cbn [Publish.check Publish.ret].
  unfold Publish.bind at 1. unfold Publish.call at 1. cbn [app].
  rewrite Hvtags. unfold Publish.bind at 1. cbn [Publish.check Publish.ret].
  unfold Publish.bind at 1. unfold Publish.call at 1. cbn [app].
  rewrite Hfind, Hnot. unfold Publish.bind at 1. cbn [Publish.check Publish.ret].
  unfold Publish.bind at 1 2. unfold Publish.call at 1. cbn [app].
  cbn [app] in Hcreate. rewrite Hcreate. reflexivity.
Qed.

Lemma X28_create_failure_ends_quietly_witness :
  Publish.afterRender (DemoWorld.world DemoWorld.notFound DemoScenario.forbidden)
    (DemoWorld.flags true "1") Demo.options Demo.gitInfo
    (Demo.release Demo.twoFixes) "notes" []
  = (Publish.Returned None,
     DemoScenario.queried
     ++ [Publish.CreateCall DemoScenario.fullName DemoWorld.input]).
Proof.
  apply (X28_create_failure_ends_quietly
           (DemoWorld.world DemoWorld.notFound DemoScenario.forbidden)
           (DemoWorld.flags true "1") Demo.options Demo.gitInfo
           (Demo.release Demo.twoFixes) "notes"
           [] ["v2.0.1"] None (Some "Not Found") None "forbidden");
    reflexivity.
Defined.

(** X29: a release for the tag exists.  It is updated under its own
    number.  If the update fails and the provider hands back a release,
    [Run] returns nil and stops there; if it fails and the provider hands
    back no release, the warning dereferences the nil release and [Run]
    panics.  Either way nothing is written after the failed update. *)
Theorem X29_update_failure w d o gitInfo release markdown
    tags vtags found rel e :
  let version := runVersion o in
  let vVersion := "v" +:+ version in
  let tag := Publish.tagNameFor version tags vtags in
  let fullName := Publish.scmJoin (Publish.Owner d) (Publish.Repository d) in
  let input := {| Publish.ReleaseInput.Title := version;
                  Publish.ReleaseInput.Tag := tag;
                  Publish.ReleaseInput.Description := markdown |} in
  let listed := [Publish.FilterTagsCall version; Publish.FilterTagsCall vVersion] in
  Publish.UpdateRelease d = true ->
  Publish.FilterTags w [] (Publish.dir d) version = (tags, None) ->
  Publish.FilterTags w [Publish.FilterTagsCall version] (Publish.dir d) vVersion
  = (vtags, None) ->
  Publish.FindByTag w listed fullName tag = (Some found, None) ->
  Publish.IsScmNotFound w None = false ->
  Publish.Update w (listed ++ [Publish.FindByTagCall fullName tag]) fullName
    (Publish.ScmRelease.ID found) input = (rel, Some e) ->
  Publish.afterRender w d o gitInfo release markdown []
  = (match rel with
     | Some _ => Publish.Returned None
     | None => Publish.Panicked
     end,
     listed ++ [Publish.FindByTagCall fullName tag;
                Publish.UpdateCall fullName (Publish.ScmRelease.ID found) input]).
Proof.
  cbv zeta. intros Hon Htags Hvtags Hfind Hnot Hupdate.
  unfold Publish.afterRender, Publish.finish, Publish.publishChangelog.
  change (if String.eqb (Version o) "" then SpecVersion else Version o)
    with (runVersion o).
  rewrite runVersion_nonempty, Hon. cbn [negb andb].
  unfold Publish.bind at 1 2. unfold Publish.call at 1. cbn [app].
  rewrite Htags. unfold Publish.bind at 1. cbn [Publish.check Publish.ret].
  unfold Publish.bind at 1. unfold Publish.call at 1. cbn [app].
  rewrite Hvtags. unfold Publish.bind at 1. cbn [Publish.check Publish.ret].
  unfold Publish.bind at 1. unfold Publish.call at 1. cbn [app].
  rewrite Hfind, Hnot. unfold Publish.bind at 1. cbn [Publish.check Publish.ret].
  unfold Publish.bind at 1 2. unfold Publish.call at 1. cbn [app].
  cbn [app] in Hupdate. rewrite Hupdate. destruct rel; reflexivity.
Qed.

Lemma X29_update_failure_witness :
  Publish.afterRender (DemoWorld.world DemoScenario.found7 DemoScenario.forbidden)
    (DemoWorld.flags true "1") Demo.options Demo.gitInfo
    (Demo.release Demo.twoFixes) "notes" []
  = (Publish.Panicked,
     DemoScenario.queried
     ++ [Publish.UpdateCall DemoScenario.fullName 7 DemoWorld.input]).
Proof.
  apply (X29_update_failure
           (DemoWorld.world DemoScenario.found7 DemoScenario.forbidden)
           (DemoWorld.flags true "1") Demo.options Demo.gitInfo
           (Demo.release Demo.twoFixes) "notes"
           [] ["v2.0.1"] DemoWorld.release7 None "forbidden");
    reflexivity.
Defined.

(** X30: a release lookup that fails for another reason than "not found"
    is fatal: [Run] returns the error wrapped with the repository and the
    tag, after the two tag listings and the lookup and before anything is
    created, updated or written. *)
Theorem X30_release_query_error_is_fatal w d o gitInfo release markdown
    tags vtags found e :
  let version := runVersion o in
  let vVersion := "v" +:+ version in
  let tag := Publish.tagNameFor version tags vtags in
  let fullName := Publish.scmJoin (Publish.Owner d) (Publish.Repository d) in
  let listed := [Publish.FilterTagsCall version; Publish.FilterTagsCall vVersion] in
  Publish.UpdateRelease d = true ->
  Publish.FilterTags w [] (Publish.dir d) version = (tags, None) ->
  Publish.FilterTags w [Publish.FilterTagsCall version] (Publish.dir d) vVersion
  = (vtags, None) ->
  Publish.FindByTag w listed fullName tag = (found, Some e) ->
  Publish.IsScmNotFound w (Some e) = false ->
  Publish.afterRender w d o gitInfo release markdown []
  = (Publish.Returned
       (Some ("failed to query release on repo " +:+ fullName +:+ " for tag "
              +:+ tag +:+ ": " +:+ e)),
     listed ++ [Publish.FindByTagCall fullName tag]).
Proof.
  cbv zeta. intros Hon Htags Hvtags Hfind Hnot.
  unfold Publish.afterRender, Publish.finish, Publish.publishChangelog.
  change (if String.eqb (Version o) "" then SpecVersion else Version o)
    with (runVersion o).
  rewrite runVersion_nonempty, Hon. cbn [negb andb].
  unfold Publish.bind at 1 2. unfold Publish.call at 1. cbn [app].
  rewrite Htags. unfold Publish.bind at 1. cbn [Publish.check Publish.ret].
  unfold Publish.bind at 1. unfold Publish.call at 1. cbn [app].
  rewrite Hvtags. unfold Publish.bind at 1. cbn [Publish.check Publish.ret].
  unfold Publish.bind at 1. unfold Publish.call at 1. cbn [app].
  rewrite Hfind, Hnot. unfold Publish.bind at 1.
  cbn [Publish.check Publish.stop]. unfold Publish.Wrapf.
  rewrite !append_assoc. reflexivity.
Qed.

Lemma X30_release_query_error_is_fatal_witness :
  Publish.afterRender (DemoWorld.world DemoScenario.unreachable DemoScenario.forbidden)
    (DemoWorld.flags true "1") Demo.options Demo.gitInfo
    (Demo.release Demo.twoFixes) "notes" []
  = (Publish.Returned
       (Some ("failed to query release on repo jstrachan/kubeconawesome for tag "
              +:+ "v2.0.1: connection refused")),
     DemoScenario.queried).
Proof.
  apply (X30_release_query_error_is_fatal
           (DemoWorld.world DemoScenario.unreachable DemoScenario.forbidden)
           (DemoWorld.flags true "1") Demo.options Demo.gitInfo
           (Demo.release Demo.twoFixes) "notes"
           [] ["v2.0.1"] None "connection refused");
    reflexivity.
Defined.
